(** * Media Luna (eureka): audio fingerprinting and matching

    A shallow embedding of the fingerprinting pipeline
    ([internal/fingerprint]: frequency bands, peak picking, the two
    fingerprint encoders, the hash of a file, the microphone recorder
    with its capture buffer and its stream), of the matcher
    ([internal/eureka]: [findMatches], [calculateTemporalScore],
    [Recognize], [processRealtimeAudioWithMatch]) and of the command
    line ([cmd/main.go]), followed by the properties the design document
    states about them and by further properties of the code.

    Conventions.
    - Go's [float64] is Rocq's primitive binary64 [float]; its operations
      are the kernel's, and proofs about them go through the
      specifications of [FloatAxioms].
    - Go's [int] is a 64-bit two's complement integer: a [Z] with the
      wrap-around written out ([Go.wrap]).  Slice lengths and loop
      counters over slices are [nat].
    - A run-time panic (index out of range) is the result [None].
    - Go maps are [gmap]s; the order in which [range] visits a map and the
      order [sort.Slice] leaves equal elements in are not fixed by the
      language, so they are fields of [Go.Runtime].
    - What lies outside the program (the file system, PortAudio, the
      store, the decoder) is an argument: a record of the answers it
      gives; the calls made to it are returned, in order. *)

From Stdlib Require Import ZArith Floats DecimalString Ascii String List Lia Bool.
From Stdlib Require Import Sorting.Sorted Sorting.Permutation.
From Stdlib Require DecimalZ DecimalPos.
From stdpp Require Import base option list gmap strings.

Set Warnings "-inexact-float".
Open Scope Z_scope.

(* ================================================================== *)
(** * Part I: the program *)
(* ================================================================== *)

(** ** The Go run time: integers, conversions, loops, formatting *)

Module Go.

Definition min_int : Z := -0x8000000000000000.
Definition max_int : Z := 0x7FFFFFFFFFFFFFFF.

(** Two's complement wrap-around of an [int]: the low 64 bits, read as a
    signed number. *)
Definition wrap (z : Z) : Z :=
  Z.land (z + 0x8000000000000000) 0xFFFFFFFFFFFFFFFF - 0x8000000000000000.

Definition add (x y : Z) : Z := wrap (x + y).
Definition sub (x y : Z) : Z := wrap (x - y).
Definition mul (x y : Z) : Z := wrap (x * y).
(** [x / y] on [int]s truncates toward zero. *)
Definition div (x y : Z) : Z := wrap (Z.quot x y).

(** [float64(n)] for an [int] [n]: the nearest binary64 value. *)
Definition float64 (n : Z) : float :=
  SF2Prim (binary_normalize prec emax n 0 false).

(** [int(x)] for a [float64] [x]: the fraction is discarded.  The
    language leaves the result open when the value does not fit; the
    amd64 compiler's [CVTTSD2SQ] yields the smallest [int] there, and so
    does this definition. *)
Definition int (x : float) : Z :=
  match Prim2SF x with
  | S754_zero _ => 0
  | S754_finite s m e =>
      let mag := Z.shiftl (Z.pos m) e in
      let v := if s then - mag else mag in
      if (min_int <=? v) && (v <=? max_int) then v else min_int
  | S754_infinity _ | S754_nan => min_int
  end.

(** [s[i]] for an index of type [int]: out of range panics. *)
Definition index {A} (l : list A) (i : Z) : option A :=
  if i <? 0 then None else l !! Z.to_nat i.

(** The outcome of a loop body: carry on with the state, leave the
    enclosing function with it ([return]), or panic. *)
Inductive flow (S : Type) : Type :=
| Next (s : S)
| Return (s : S)
| Panic.
Arguments Next {S} s.
Arguments Return {S} s.
Arguments Panic {S}.

(** What the function hands back once its loops are over. *)
Definition result {S} (r : flow S) : option S :=
  match r with Next s | Return s => Some s | Panic => None end.

(** [for _, x := range l { body }], stopping at the first [return] or
    panic. *)
Fixpoint for_each {A S} (l : list A) (body : A -> S -> flow S) (s : S) : flow S :=
  match l with
  | [] => Next s
  | x :: l' =>
      match body x s with
      | Next s' => for_each l' body s'
      | Return s' => Return s'
      | Panic => Panic
      end
  end.

(** The values [i] takes in [for i := lo; i < hi; i += step]: [n]
    bounds the number of iterations. *)
Fixpoint counter (n : nat) (i hi step : nat) : list nat :=
  match n with
  | O => []
  | S n' => if (i <? hi)%nat then i :: counter n' (i + step) hi step else []
  end.

(** [for i := lo; i < hi; i += step] with [step > 0] runs at most
    [hi - lo] times. *)
Definition range (lo hi step : nat) : list nat := counter (hi - lo) lo hi step.

(** The values [f] takes in [for f := lo; f <= hi; f++] over [int]s. *)
Definition range_incl (lo hi : Z) : list Z :=
  map (fun k => lo + Z.of_nat k) (seq 0 (Z.to_nat (hi - lo + 1))).

(** [for i, x := range l]: the elements with their indices. *)
Fixpoint enumerate_from {A} (i : nat) (l : list A) : list (nat * A) :=
  match l with
  | [] => []
  | x :: l' => (i, x) :: enumerate_from (S i) l'
  end.

Definition enumerate {A} (l : list A) : list (nat * A) := enumerate_from 0 l.

(** [copy(dst, src)]: the first [min (len dst) (len src)] elements of
    [dst] are overwritten (the slices may overlap). *)
Definition copy {A} (dst src : list A) : list A :=
  let n := Nat.min (length dst) (length src) in
  take n src ++ drop n dst.

(** [s[lo:hi]]; panics unless [0 <= lo <= hi <= len s]. *)
Definition slice {A} (l : list A) (lo hi : Z) : option (list A) :=
  if (0 <=? lo) && (lo <=? hi) && (hi <=? Z.of_nat (length l))
  then Some (take (Z.to_nat (hi - lo)) (drop (Z.to_nat lo) l))
  else None.

(** [fmt.Sprintf("%d", n)]. *)
Definition fmt_d (n : Z) : string := NilZero.string_of_int (Z.to_int n).

(** [[]byte(s)]: the bytes of a string, each in [0, 256). *)
Definition bytes (s : string) : list Z :=
  map (fun c => Z.of_N (N_of_ascii c)) (list_ascii_of_string s).

(** [encoding/hex]: two lower-case digits per byte. *)
Definition hextable : list ascii := list_ascii_of_string "0123456789abcdef".

Definition hexdigit (n : Z) : ascii :=
  nth (Z.to_nat n) hextable "0"%char.

Definition EncodeToString (bs : list Z) : string :=
  string_of_list_ascii
    (flat_map (fun v => [hexdigit (Z.shiftr v 4); hexdigit (Z.land v 15)]) bs).

(** A Go result pair [(v, err)]: the value when [err == nil], or the
    error. *)
Inductive fallible (A : Type) : Type :=
| Ok (a : A)
| Err (e : string).
Arguments Ok {A} a.
Arguments Err {A} e.

(** What the language leaves to the implementation: the order in which
    [range] visits a map, and the algorithm behind [sort.Slice]. *)
Record Runtime : Type := {
  map_keys : forall V : Type, gmap string V -> list string;
  map_range : forall V : Type, gmap Z V -> list (Z * V);
  sort_Slice : forall A : Type, (A -> A -> bool) -> list A -> list A
}.

(** What [sort.Slice] asks of [less] on the elements it sorts: a strict
    weak ordering. *)
Record ordering {A} (less : A -> A -> bool) (l : list A) : Prop := {
  less_irrefl : forall a, In a l -> less a a = false;
  less_trans : forall a b c, In a l -> In b l -> In c l ->
    less a b = true -> less b c = true -> less a c = true;
  less_incomparable : forall a b c, In a l -> In b l -> In c l ->
    less a b = false -> less b c = false -> less a c = false
}.

(** What the language promises: [range] visits every entry of a map
    once, and [sort.Slice] permutes the slice into an order in which no
    element is [less] than one before it. *)
Record runtime_ok (rt : Runtime) : Prop := {
  map_keys_ok : forall V (m : gmap string V),
    Permutation (map_keys rt V m) (map fst (map_to_list m));
  map_range_ok : forall V (m : gmap Z V),
    Permutation (map_range rt V m) (map_to_list m);
  sort_Slice_perm : forall A (less : A -> A -> bool) l,
    Permutation (sort_Slice rt A less l) l;
  sort_Slice_sorted : forall A (less : A -> A -> bool) l,
    ordering less l ->
    StronglySorted (fun a b => less b a = false) (sort_Slice rt A less l)
}.

(** One implementation among those allowed: maps are visited in
    [map_to_list] order and slices sorted by insertion. *)
Fixpoint insert {A} (less : A -> A -> bool) (x : A) (l : list A) : list A :=
  match l with
  | [] => [x]
  | y :: l' => if less x y then x :: y :: l' else y :: insert less x l'
  end.

Definition insertion_sort {A} (less : A -> A -> bool) (l : list A) : list A :=
  fold_right (insert less) [] l.

Definition reference : Runtime := {|
  map_keys := fun V m => map fst (map_to_list m);
  map_range := fun V m => map_to_list m;
  sort_Slice := fun A less l => insertion_sort less l
|}.

(** [s[i] = x] on a slice: out of range panics. *)
Definition store {A} (l : list A) (i : nat) (x : A) : option (list A) :=
  if (i <? length l)%nat then Some (<[i := x]> l) else None.

(** [for i, x := range src { dst[i] = x }]. *)
Definition fill {A} (dst src : list A) : option (list A) :=
  result
    (for_each (enumerate src)
       (fun '(i, x) dst =>
          match store dst i x with
          | Some dst' => Next dst'
          | None => Panic
          end)
       dst).

(** A buffered channel (capacity at least one): the values waiting in
    it, oldest first. *)
Record chan (A : Type) : Type := {
  capacity : nat;
  queue : list A
}.
Arguments capacity {A} c.
Arguments queue {A} c.

(** [select { case ch <- x: default: }]: the value is queued when there
    is room and dropped when there is none; the sender never waits. *)
Definition try_send {A} (ch : chan A) (x : A) : chan A :=
  if (length (queue ch) <? capacity ch)%nat
  then {| capacity := capacity ch; queue := queue ch ++ [x] |}
  else ch.

(** What becomes of a call that may wait on a channel for ever. *)
Inductive blocking (A : Type) : Type :=
| Done (a : A)
| Blocked.
Arguments Done {A} a.
Arguments Blocked {A}.

End Go.

(** ** Package os, as [CalculateFileHash] uses it *)

Module os.

(** An open file read to its end: the bytes read, and the error that
    ended the reading if it was not the end of the file. *)
Record File : Type := {
  contents : list Z;
  read_error : option string
}.

(** [os.Open]: the file at a path, or the error. *)
Definition FileSystem : Type := string -> Go.fallible File.

End os.

(** ** crypto/sha1 (FIPS 180-4), on bytes and 32-bit words held in [Z] *)

Module sha1.

Definition w32 (x : Z) : Z := Z.land x 0xFFFFFFFF.

Definition rotl (n x : Z) : Z :=
  Z.lor (w32 (Z.shiftl x n)) (Z.shiftr x (32 - n)).

Definition not32 (x : Z) : Z := Z.lxor x 0xFFFFFFFF.

(** Big-endian bytes of a word of [8 * n] bits. *)
Fixpoint be_bytes (n : nat) (x : Z) : list Z :=
  match n with
  | O => []
  | S n' => Z.land (Z.shiftr x (8 * Z.of_nat n')) 255 :: be_bytes n' x
  end.

Definition be_word (bs : list Z) : Z :=
  fold_left (fun acc b => acc * 256 + b) bs 0.

(** The message, a [0x80] byte, zeros up to 56 modulo 64, and the bit
    length on eight bytes. *)
Definition pad (msg : list Z) : list Z :=
  let len := Z.of_nat (length msg) in
  msg ++ [128] ++ repeat 0 (Z.to_nat ((55 - len) mod 64)) ++ be_bytes 8 (8 * len).

Fixpoint chunks {A} (n : nat) (size : nat) (l : list A) : list (list A) :=
  match n with
  | O => []
  | S n' => take size l :: chunks n' size (drop size l)
  end.

Definition words (block : list Z) : list Z :=
  map be_word (chunks 16 4 block).

(** The message schedule, newest word first: [rev_w] holds
    [w(t-1), w(t-2), ...]. *)
Fixpoint schedule (n : nat) (rev_w : list Z) : list Z :=
  match n with
  | O => rev_w
  | S n' =>
      let w := rotl 1 (Z.lxor (Z.lxor (nth 2 rev_w 0) (nth 7 rev_w 0))
                              (Z.lxor (nth 13 rev_w 0) (nth 15 rev_w 0))) in
      schedule n' (w :: rev_w)
  end.

Definition digest : Type := (Z * Z * Z * Z * Z)%type.

Definition init : digest :=
  (0x67452301, 0xEFCDAB89, 0x98BADCFE, 0x10325476, 0xC3D2E1F0).

Definition round (st : digest) (tw : nat * Z) : digest :=
  let '(a, b, c, d, e) := st in
  let '(t, w) := tw in
  let '(f, k) :=
    if (t <? 20)%nat then (Z.lor (Z.land b c) (Z.land (not32 b) d), 0x5A827999)
    else if (t <? 40)%nat then (Z.lxor (Z.lxor b c) d, 0x6ED9EBA1)
    else if (t <? 60)%nat then
      (Z.lor (Z.lor (Z.land b c) (Z.land b d)) (Z.land c d), 0x8F1BBCDC)
    else (Z.lxor (Z.lxor b c) d, 0xCA62C1D6) in
  (w32 (rotl 5 a + f + e + k + w), a, rotl 30 b, c, d).

Definition block (st : digest) (blk : list Z) : digest :=
  let ws := rev (schedule 64 (rev (words blk))) in
  let '(a, b, c, d, e) := fold_left round (combine (seq 0 80) ws) st in
  let '(h0, h1, h2, h3, h4) := st in
  (w32 (h0 + a), w32 (h1 + b), w32 (h2 + c), w32 (h3 + d), w32 (h4 + e)).

(** [sha1.Sum]: the twenty bytes of the digest. *)
Definition Sum (msg : list Z) : list Z :=
  let p := pad msg in
  let '(h0, h1, h2, h3, h4) := fold_left block (chunks (length p / 64) 64 p) init in
  be_bytes 4 h0 ++ be_bytes 4 h1 ++ be_bytes 4 h2 ++ be_bytes 4 h3 ++ be_bytes 4 h4.

(** [hex.EncodeToString(sha1(s))], as the encoders compute it. *)
Definition hex (s : string) : string := Go.EncodeToString (Sum (Go.bytes s)).

End sha1.

(** ** Package fingerprint *)

Module fingerprint.

Definition PEAK_THRESHOLD : float := 0.02.
Definition MIN_HASH_TIME_DELTA : Z := 0.
Definition MAX_HASH_TIME_DELTA : Z := 2000.
Definition FAN_VALUE : nat := 15.
Definition WINDOW_SIZE : Z := 4096.

Record Fingerprint : Type := {
  Hash : string;
  SongID : Z;
  Offset : Z
}.

Record Peak : Type := {
  Time : float;
  TimeMS : float;
  Magnitude : float;
  FreqBin : Z
}.

(** [End] is a word of the vernacular, hence [End_]. *)
Record FrequencyBand : Type := {
  Start : Z;
  End_ : Z
}.

Definition complex128 : Type := (float * float)%type.

Definition getFrequencyBands (sampleRate windowSize : Z) : list FrequencyBand :=
  let nyquist := Go.div sampleRate 2 in
  let binSize := (Go.float64 nyquist / Go.float64 (Go.div windowSize 2))%float in
  let bands :=
    [ {| Start := Go.int (40 / binSize); End_ := Go.int (80 / binSize) |};
      {| Start := Go.int (80 / binSize); End_ := Go.int (120 / binSize) |};
      {| Start := Go.int (120 / binSize); End_ := Go.int (180 / binSize) |};
      {| Start := Go.int (180 / binSize); End_ := Go.int (300 / binSize) |};
      {| Start := Go.int (300 / binSize); End_ := Go.int (2000 / binSize) |};
      {| Start := Go.int (2000 / binSize); End_ := Go.int (5000 / binSize) |} ] in
  let maxBin := Go.sub (Go.div windowSize 2) 1 in
  map (fun b =>
         let e := if End_ b >? maxBin then maxBin else End_ b in
         let s := if Start b >? maxBin then maxBin else Start b in
         {| Start := s; End_ := e |})
      bands.

(** [cmplx.Abs] belongs to Go's library: the functions below take it as
    the argument [Abs]. *)
Definition getMagnitudes (Abs : complex128 -> float)
    (spectrogram : list (list complex128)) : list (list float) :=
  map (fun row => map Abs row) spectrogram.

(** [len(magnitudes[0])], evaluated only where [magnitudes] is not
    empty. *)
Definition width (magnitudes : list (list float)) : Z :=
  match magnitudes with
  | [] => 0
  | row :: _ => Z.of_nat (length row)
  end.

(** The two nested loops of [isLocalPeak] over [deltaT] and [deltaF]:
    [Return false] at the first neighbour that is not below the peak. *)
Definition isLocalPeak (magnitudes : list (list float)) (t f : Z) : option bool :=
  let deltaT := [-1; 0; 1] in
  let deltaF := [-1; 0; 1] in
  row ← Go.index magnitudes t;
  peakValue ← Go.index row f;
  Go.result
    (Go.for_each deltaT (fun dt (r : bool) =>
       Go.for_each deltaF (fun df (r : bool) =>
         if (dt =? 0) && (df =? 0) then Go.Next r
         else
           let tt := Go.add t dt in
           let ff := Go.add f df in
           if (tt >=? 0) && (tt <? Z.of_nat (length magnitudes))
              && (ff >=? 0) && (ff <? width magnitudes)
           then
             match Go.index magnitudes tt ≫= (fun row' => Go.index row' ff) with
             | None => Go.Panic
             | Some v => if (peakValue <=? v)%float then Go.Return false else Go.Next r
             end
           else Go.Next r) r) true).

Definition PickPeaks (Abs : complex128 -> float)
    (spectrogram : list (list complex128)) (sampleRate : Z) : option (list Peak) :=
  if (length spectrogram =? 0)%nat
     || (match spectrogram with [] => true | row :: _ => (length row =? 0)%nat end)
  then Some []
  else
    let hopSize := Go.div WINDOW_SIZE 4 in
    let magnitudes := getMagnitudes Abs spectrogram in
    let bands := getFrequencyBands sampleRate WINDOW_SIZE in
    Go.result
      (Go.for_each (Go.enumerate magnitudes) (fun '(t, frame) peaks =>
         let t := Z.of_nat t in
         let timeMS :=
           (Go.float64 t * Go.float64 hopSize / Go.float64 sampleRate * 1000)%float in
         Go.for_each bands (fun band peaks =>
           if (Start band >=? Z.of_nat (length frame))
              || (End_ band >=? Z.of_nat (length frame))
           then Go.Next peaks
           else
             let best :=
               Go.for_each (Go.range_incl (Start band) (End_ band))
                 (fun f '(maxMag, maxBin) =>
                    match Go.index frame f with
                    | None => Go.Panic
                    | Some v =>
                        if (maxMag <? v)%float then
                          match isLocalPeak magnitudes t f with
                          | None => Go.Panic
                          | Some true => Go.Next (v, f)
                          | Some false => Go.Next (maxMag, maxBin)
                          end
                        else Go.Next (maxMag, maxBin)
                    end)
                 (0%float, -1) in
             match best with
             | Go.Next (maxMag, maxBin) =>
                 if negb (maxBin =? -1) && (PEAK_THRESHOLD <? maxMag)%float
                 then Go.Next (peaks ++ [ {| Time := Go.float64 t;
                                             TimeMS := timeMS;
                                             FreqBin := maxBin;
                                             Magnitude := maxMag |} ])
                 else Go.Next peaks
             | _ => Go.Panic
             end) peaks) []).

(** [fmt.Sprintf("%d|%d|%d", anchorBin, targetBin, int(timeDelta))]. *)
Definition hashInput (anchorBin targetBin : Z) (timeDelta : float) : string :=
  (Go.fmt_d anchorBin ++ "|" ++ Go.fmt_d targetBin ++ "|"
     ++ Go.fmt_d (Go.int timeDelta))%string.

(** The test that drops a pair: [timeDelta <= MIN || timeDelta > MAX]. *)
Definition rejected (timeDelta : float) : bool :=
  (timeDelta <=? Go.float64 MIN_HASH_TIME_DELTA)%float
  || (Go.float64 MAX_HASH_TIME_DELTA <? timeDelta)%float.

Definition generateFingerprintsWithTolerance (peaks : list Peak)
    (microphoneTolerance : bool) : option (list Fingerprint) :=
  Go.result
    (Go.for_each (Go.enumerate peaks) (fun '(i, anchor) fingerprints =>
       Go.for_each
         (Go.range (i + 1) (Nat.min (i + FAN_VALUE) (length peaks)) 1)
         (fun j fingerprints =>
            match peaks !! j with
            | None => Go.Panic
            | Some target =>
                let timeDelta := (TimeMS target - TimeMS anchor)%float in
                if rejected timeDelta then Go.Next fingerprints
                else
                  let hashStr :=
                    sha1.hex (hashInput (FreqBin anchor) (FreqBin target) timeDelta) in
                  Go.Next (fingerprints ++ [ {| Hash := hashStr;
                                                SongID := 0;
                                                Offset := Go.int (TimeMS anchor) |} ])
            end) fingerprints) []).

Definition generateFingerprintsWithMinimalTolerance (peaks : list Peak)
    : option (list Fingerprint) :=
  let skipFactor := 4%nat in
  fst <$> Go.result
    (Go.for_each (Go.range 0 (length peaks) skipFactor) (fun i st =>
       match peaks !! i with
       | None => Go.Panic
       | Some anchor =>
           Go.for_each
             (Go.range (i + 1) (Nat.min (i + FAN_VALUE) (length peaks)) 1)
             (fun j st =>
                match peaks !! j with
                | None => Go.Panic
                | Some target =>
                    let timeDelta := (TimeMS target - TimeMS anchor)%float in
                    if rejected timeDelta then Go.Next st
                    else
                      let tolerances := [(-1, 0); (1, 0); (0, -1); (0, 1)] in
                      Go.for_each tolerances (fun tol '(fingerprints, processed) =>
                        let anchorBin := Go.add (FreqBin anchor) (fst tol) in
                        let targetBin := Go.add (FreqBin target) (snd tol) in
                        if (anchorBin <? 0) || (targetBin <? 0)
                           || (anchorBin >? 2048) || (targetBin >? 2048)
                        then Go.Next (fingerprints, processed)
                        else
                          let hashStr := sha1.hex (hashInput anchorBin targetBin timeDelta) in
                          let fingerprints :=
                            fingerprints ++ [ {| Hash := hashStr;
                                                 SongID := 0;
                                                 Offset := Go.int (TimeMS anchor) |} ] in
                          let processed := Go.add processed 1 in
                          if processed >? 10000
                          then Go.Return (fingerprints, processed)
                          else Go.Next (fingerprints, processed)) st
                end) st
       end) ([], 0)).

Definition GenerateFingerprints (peaks : list Peak) : option (list Fingerprint) :=
  generateFingerprintsWithTolerance peaks false.

Definition GenerateFingerprintsForMicrophone (peaks : list Peak)
    : option (list Fingerprint) :=
  baseFingerprints ← generateFingerprintsWithTolerance peaks false;
  toleranceFingerprints ← generateFingerprintsWithMinimalTolerance peaks;
  Some (baseFingerprints ++ toleranceFingerprints).

(** Two constants the package declares and no function reads. *)
Definition FREQ_BANDS : Z := 6.
Definition MAX_PEAKS_PER_FRAME : Z := 3.

(** [io.Copy(h, f)] feeds the hasher every byte of the file, or stops at
    a read error. *)
Definition CalculateFileHash (fs : os.FileSystem) (filePath : string) : string :=
  match fs filePath with
  | Go.Err _ => ""
  | Go.Ok f =>
      match os.read_error f with
      | Some _ => ""
      | None => Go.EncodeToString (sha1.Sum (os.contents f))
      end
  end.

End fingerprint.

(** ** PortAudio, as the recorder uses it *)

Module portaudio.

Record DeviceInfo : Type := {
  DefaultLowInputLatency : Z
}.

(** Of [StreamParameters], the fields the recorder sets. *)
Record StreamParameters : Type := {
  Device : DeviceInfo;
  Channels : Z;
  Latency : Z;
  SampleRate : float;
  FramesPerBuffer : Z
}.

(** A stream handle. *)
Definition Stream : Type := nat.

(** How the library answers the recorder: an error ([Some]) or [nil]. *)
Record Library : Type := {
  DefaultInputDevice : Go.fallible DeviceInfo;
  OpenStream : StreamParameters -> Go.fallible Stream;
  Start : Stream -> option string;
  Stop : Stream -> option string;
  Close : Stream -> option string;
  Terminate : option string
}.

(** A call the recorder makes to the library. *)
Inductive call : Type :=
| CallDefaultInputDevice
| CallOpenStream (p : StreamParameters)
| CallStart (s : Stream)
| CallStop (s : Stream)
| CallClose (s : Stream)
| CallTerminate.

End portaudio.

(** ** Package fingerprint, microphone.go: the capture buffer

    A [float32] sample is held as the [float64] it converts to exactly.
    The PortAudio stream and the channels of the recorder play no part in
    the buffer and are left out; the goroutine the callback starts is
    returned as the segment it is started on. *)

Module microphone.

Definition SAMPLE_RATE : Z := 44100.
Definition FRAMES_PER_BUFFER : Z := 1024.
Definition RECORDING_DURATION : Z := 10.
Definition BUFFER_DURATION : Z := 5.

Record MicrophoneRecorder : Type := {
  sampleRate : Z;
  bufferSize : Z;
  audioBuffer : list float;
  isRecording : bool
}.

(** The recorder [NewMicrophoneRecorder] returns when PortAudio
    initialises. *)
Definition NewMicrophoneRecorder : MicrophoneRecorder := {|
  sampleRate := SAMPLE_RATE;
  bufferSize := FRAMES_PER_BUFFER;
  audioBuffer := [];
  isRecording := false
|}.

Definition set_audioBuffer (mr : MicrophoneRecorder) (buf : list float)
    : MicrophoneRecorder :=
  {| sampleRate := sampleRate mr;
     bufferSize := bufferSize mr;
     audioBuffer := buf;
     isRecording := isRecording mr |}.

(** [make([]float32, n)]: panics on a negative length. *)
Definition make (n : Z) : option (list float) :=
  if n <? 0 then None else Some (repeat 0%float (Z.to_nat n)).

(** The recorder after the callback, and the segments handed to
    [processAudioSegment]. *)
Definition audioCallback (mr : MicrophoneRecorder) (in_ : list float)
    : option (MicrophoneRecorder * list (list float)) :=
  if (length in_ =? 0)%nat then Some (mr, [])
  else
    let buf := audioBuffer mr ++ in_ in
    let maxSamples := Go.mul (sampleRate mr) 10 in
    buf ← (if Z.of_nat (length buf) >? maxSamples then
             let removeCount := Go.sub (Z.of_nat (length buf)) maxSamples in
             recent ← Go.slice buf removeCount (Z.of_nat (length buf));
             let buf := Go.copy buf recent in
             Go.slice buf 0 maxSamples
           else Some buf);
    let mr := set_audioBuffer mr buf in
    let requiredSamples := Go.mul (sampleRate mr) BUFFER_DURATION in
    if Z.of_nat (length buf) >=? requiredSamples then
      audioSegment ← make requiredSamples;
      last ← Go.slice buf (Go.sub (Z.of_nat (length buf)) requiredSamples)
               (Z.of_nat (length buf));
      let audioSegment := Go.copy audioSegment last in
      Some (mr, [audioSegment])
    else Some (mr, []).

(** The callbacks of a capture session, one per buffer the driver
    delivers. *)
Fixpoint capture (mr : MicrophoneRecorder) (ins : list (list float))
    : option MicrophoneRecorder :=
  match ins with
  | [] => Some mr
  | in_ :: ins' =>
      match audioCallback mr in_ with
      | Some (mr', _) => capture mr' ins'
      | None => None
      end
  end.

Definition IsRecording (mr : MicrophoneRecorder) : bool := isRecording mr.

(** The copy goes through [make] and a loop that stores
    [float64(sample)] at each index. *)
Definition GetAudioBuffer (mr : MicrophoneRecorder) : option (list float) :=
  let requiredSamples := Go.mul (sampleRate mr) 5 in
  let len := Z.of_nat (length (audioBuffer mr)) in
  if len <? requiredSamples then
    buffer ← make len;
    Go.fill buffer (audioBuffer mr)
  else
    let startIdx := Go.sub len requiredSamples in
    buffer ← make requiredSamples;
    recent ← Go.slice (audioBuffer mr) startIdx len;
    Go.fill buffer recent.

(** The two errors [processAudioSegment] reports:
    ["recognition panic: %v"] of the recovered value, and
    ["spectrogram generation failed: %v"] of the error. *)
Inductive error : Type :=
| recognition_panic
| spectrogram_generation_failed (err : string).

Record RecognitionResult : Type := {
  SongName : string;
  Artist : string;
  Score : float;
  Offset : Z;
  Found : bool;
  Error : option error
}.

(** [RecognitionResult{Found: found, Error: err}]. *)
Definition result (found : bool) (err : option error) : RecognitionResult :=
  {| SongName := ""; Artist := ""; Score := 0; Offset := 0;
     Found := found; Error := err |}.

(** The results [processAudioSegment] sends to [resultChannel].
    [SamplesToSpectrogram] and [cmplx.Abs] are arguments; the map of the
    fingerprints, which the function builds and does not use, is left
    out.  The deferred function turns a panic into a result. *)
Definition processAudioSegment
    (SamplesToSpectrogram :
       list float -> Z -> Go.fallible (list (list fingerprint.complex128)))
    (Abs : fingerprint.complex128 -> float)
    (mr : MicrophoneRecorder) (audioData : list float) : list RecognitionResult :=
  let run : option (list RecognitionResult) :=
    match SamplesToSpectrogram audioData (sampleRate mr) with
    | Go.Err err => Some [result false (Some (spectrogram_generation_failed err))]
    | Go.Ok spectrogram =>
        peaks ← fingerprint.PickPeaks Abs spectrogram (sampleRate mr);
        if Z.of_nat (length peaks) <? 10 then Some []
        else
          fingerprints ← fingerprint.GenerateFingerprints peaks;
          if Z.of_nat (length fingerprints) <? 50 then Some []
          else Some [result false None]
    end in
  match run with
  | Some sent => sent
  | None => [result false (Some recognition_panic)]
  end.

(** The recorder with its field [stream], which [StartRecording] sets
    ([None] is [nil]). *)
Record Recorder : Type := {
  recorder : MicrophoneRecorder;
  stream : option portaudio.Stream
}.

Definition set_isRecording (mr : MicrophoneRecorder) (b : bool) : MicrophoneRecorder :=
  {| sampleRate := sampleRate mr;
     bufferSize := bufferSize mr;
     audioBuffer := audioBuffer mr;
     isRecording := b |}.

(** The recorder afterwards, the error returned ([None] is [nil]) and
    the calls made to PortAudio, in order. *)
Definition StartRecording (pa : portaudio.Library) (r : Recorder)
    : Recorder * option string * list portaudio.call :=
  if isRecording (recorder r)
  then (r, Some "recording is already in progress"%string, [])
  else
    match portaudio.DefaultInputDevice pa with
    | Go.Err err =>
        (r, Some ("failed to get default input device: " ++ err)%string,
         [portaudio.CallDefaultInputDevice])
    | Go.Ok defaultInputDevice =>
        let inputParams :=
          {| portaudio.Device := defaultInputDevice;
             portaudio.Channels := 1;
             portaudio.Latency := portaudio.DefaultLowInputLatency defaultInputDevice;
             portaudio.SampleRate := Go.float64 (sampleRate (recorder r));
             portaudio.FramesPerBuffer := bufferSize (recorder r) |} in
        match portaudio.OpenStream pa inputParams with
        | Go.Err err =>
            (r, Some ("failed to open audio stream: " ++ err)%string,
             [portaudio.CallDefaultInputDevice; portaudio.CallOpenStream inputParams])
        | Go.Ok stream =>
            let r := {| recorder := set_isRecording (recorder r) true;
                        stream := Some stream |} in
            let calls :=
              [portaudio.CallDefaultInputDevice; portaudio.CallOpenStream inputParams;
               portaudio.CallStart stream] in
            match portaudio.Start pa stream with
            | Some err => (r, Some ("failed to start audio stream: " ++ err)%string, calls)
            | None => (r, None, calls)
            end
        end
    end.

(** [mr.stopChannel <- true] is a send on a channel without buffer: it
    waits until a goroutine receives; [receiving] tells whether one
    does. *)
Definition StopRecording (pa : portaudio.Library) (receiving : bool) (r : Recorder)
    : Go.blocking (Recorder * option string * list portaudio.call) :=
  if negb (isRecording (recorder r))
  then Go.Done (r, Some "no recording in progress"%string, [])
  else if negb receiving then Go.Blocked
  else
    let r := {| recorder := set_isRecording (recorder r) false; stream := stream r |} in
    match stream r with
    | None => Go.Done (r, None, [])
    | Some s =>
        match portaudio.Stop pa s with
        | Some err =>
            Go.Done (r, Some ("failed to stop stream: " ++ err)%string,
                     [portaudio.CallStop s])
        | None =>
            match portaudio.Close pa s with
            | Some err =>
                Go.Done (r, Some ("failed to close stream: " ++ err)%string,
                         [portaudio.CallStop s; portaudio.CallClose s])
            | None => Go.Done (r, None, [portaudio.CallStop s; portaudio.CallClose s])
            end
        end
    end.

Definition Cleanup (pa : portaudio.Library) (receiving : bool) (r : Recorder)
    : Go.blocking (Recorder * option string * list portaudio.call) :=
  if isRecording (recorder r) then
    match StopRecording pa receiving r with
    | Go.Blocked => Go.Blocked
    | Go.Done (r', _, calls) =>
        Go.Done (r', portaudio.Terminate pa, calls ++ [portaudio.CallTerminate])
    end
  else Go.Done (r, portaudio.Terminate pa, [portaudio.CallTerminate]).

End microphone.

(** ** Packages database and mysql: what the matcher uses of the store *)

Module mysql.

(** Modelled from the spec: the row type of package mysql, whose source
    is not part of this development: a fingerprint row is
    [(hash, song_id, offset_ms)]. *)
Record FingerprintMatch : Type := {
  Hash : string;
  SongID : Z;
  Offset : Z
}.

(** Modelled from the spec: the song record of package mysql, of which
    the matcher reads the name and the artist. *)
Record SongInfo : Type := {
  Name : string;
  Artist : string
}.

End mysql.

Module database.

(** The two methods of the [Database] interface the matcher calls, on a
    store that does not change while it runs. *)
Record Database : Type := {
  QueryFingerprints : list string -> Go.fallible (list mysql.FingerprintMatch);
  GetSongByID : Z -> Go.fallible mysql.SongInfo
}.

(** A call the matcher makes to the store. *)
Inductive call : Type :=
| Query (hashes : list string)
| GetSong (songID : Z).

End database.

(** ** Package eureka: the matcher *)

Module eureka.

Import database.

Record Match : Type := {
  SongID : Z;
  SongName : string;
  Artist : string;
  Score : float;
  Offset : Z;
  Timestamp : float
}.

Record TimeMatch : Type := {
  SampleTime : Z;
  DbTime : Z;
  TimeDiff : Z
}.

(** Modelled from the spec: the result of [fingerprint.ReadWavInfo],
    whose source is not part of this development: the parsed sample
    vector and the declared sample rate. *)
Record WavInfo : Type := {
  Samples : list float;
  SampleRate : Z
}.

(** The functions of package fingerprint that [Recognize] calls and
    whose source is not part of this development, with [cmplx.Abs]. *)
Record Decoder : Type := {
  ConvertToWAV : string -> string -> Go.fallible string;
  ReadWavInfo : string -> Go.fallible WavInfo;
  SamplesToSpectrogram :
    list float -> Z -> Go.fallible (list (list fingerprint.complex128));
  Abs : fingerprint.complex128 -> float
}.

(** [for _, tm := range timeMatches { timeDiffCounts[tm.TimeDiff]++ }],
    the loop [calculateTemporalScore] and [findMostCommonTimeDiff] both
    start with. *)
Definition timeDiffCounts (timeMatches : list TimeMatch) : gmap Z Z :=
  fold_left
    (fun (counts : gmap Z Z) tm =>
       <[TimeDiff tm := Go.add (default 0 (counts !! TimeDiff tm)) 1]> counts)
    timeMatches ∅.

Definition calculateTemporalScore (rt : Go.Runtime)
    (timeMatches : list TimeMatch) (isFromMicrophone : bool) : float :=
  let minMatches := if isFromMicrophone then 3 else 5 in
  if Z.of_nat (length timeMatches) <? minMatches then 0%float
  else
    let maxCount :=
      fold_left (fun maxCount '(_, count) =>
                   if count >? maxCount then count else maxCount)
                (Go.map_range rt _ (timeDiffCounts timeMatches)) 0 in
    let alignedRatio :=
      (Go.float64 maxCount / Go.float64 (Z.of_nat (length timeMatches)))%float in
    let rawScore := (Go.float64 maxCount * alignedRatio)%float in
    let normalizationFactor := if isFromMicrophone then 50%float else 100%float in
    let score := (rawScore / normalizationFactor)%float in
    if (1 <? score)%float then 1%float else score.

Definition findMostCommonTimeDiff (rt : Go.Runtime)
    (timeMatches : list TimeMatch) : Z :=
  snd (fold_left (fun '(maxCount, bestTimeDiff) '(timeDiff, count) =>
                    if count >? maxCount then (count, timeDiff)
                    else (maxCount, bestTimeDiff))
                 (Go.map_range rt _ (timeDiffCounts timeMatches)) (0, 0)).

(** The first loop of [findMatches], "process in batches to avoid MySQL
    placeholder limit": the rows found so far, the error that ended the
    loop if one did, and the calls made to the store, in order. *)
Definition queryBatches (db : Database) (hashes : list string)
    : Go.flow (list mysql.FingerprintMatch * option string * list call) :=
  let maxBatchSize := 1000%nat in
  Go.for_each (Go.range 0 (length hashes) maxBatchSize)
    (fun i '(allDbMatches, err, calls) =>
       let end_ := (i + maxBatchSize)%nat in
       let end_ := if (length hashes <? end_)%nat then length hashes else end_ in
       match Go.slice hashes (Z.of_nat i) (Z.of_nat end_) with
       | None => Go.Panic
       | Some batchHashes =>
           match QueryFingerprints db batchHashes with
           | Go.Err e =>
               Go.Return (allDbMatches, Some e, calls ++ [Query batchHashes])
           | Go.Ok dbMatches =>
               Go.Next (allDbMatches ++ dbMatches, err, calls ++ [Query batchHashes])
           end
       end)
    ([], None, []).

(** The second loop, "group matches by song and calculate relative
    timing". *)
Definition groupBySong (sampleFingerprints : gmap string Z)
    (allDbMatches : list mysql.FingerprintMatch) : gmap Z (list TimeMatch) :=
  fold_left
    (fun (songMatches : gmap Z (list TimeMatch)) dbMatch =>
       let sampleOffset := default 0 (sampleFingerprints !! mysql.Hash dbMatch) in
       let timeDiff := Go.sub (mysql.Offset dbMatch) sampleOffset in
       <[mysql.SongID dbMatch :=
           default [] (songMatches !! mysql.SongID dbMatch)
             ++ [ {| SampleTime := sampleOffset;
                     DbTime := mysql.Offset dbMatch;
                     TimeDiff := timeDiff |} ]]> songMatches)
    allDbMatches ∅.

(** The body of the third loop, "score each song based on temporal
    alignment", for one entry of [songMatches]. *)
Definition scoreSong (rt : Go.Runtime) (db : Database) (isFromMicrophone : bool)
    (entry : Z * list TimeMatch) (st : list Match * list call)
    : Go.flow (list Match * list call) :=
  let '(songID, timeMatches) := entry in
  let '(matches, calls) := st in
  let minMatches := if isFromMicrophone then 3 else 5 in
  if Z.of_nat (length timeMatches) <? minMatches then Go.Next (matches, calls)
  else
    let score := calculateTemporalScore rt timeMatches isFromMicrophone in
    let scoreThreshold := if isFromMicrophone then 0.05%float else 0.1%float in
    if (scoreThreshold <? score)%float then
      match GetSongByID db songID with
      | Go.Err _ => Go.Next (matches, calls ++ [GetSong songID])
      | Go.Ok songInfo =>
          Go.Next
            (matches ++ [ {| SongID := songID;
                             SongName := mysql.Name songInfo;
                             Artist := mysql.Artist songInfo;
                             Score := score;
                             Offset := findMostCommonTimeDiff rt timeMatches;
                             Timestamp := 0 |} ],
             calls ++ [GetSong songID])
      end
    else Go.Next (matches, calls).

(** The matches returned (or the error), and the calls made to the
    store, in order. *)
Definition findMatches (rt : Go.Runtime) (db : Database)
    (sampleFingerprints : gmap string Z) (isFromMicrophone : bool)
    : option (Go.fallible (list Match) * list call) :=
  let hashes := Go.map_keys rt _ sampleFingerprints in
  if (length hashes =? 0)%nat then Some (Go.Ok [], [])
  else
    queried ← Go.result (queryBatches db hashes);
    let '(allDbMatches, err, calls) := queried in
    match err with
    | Some e => Some (Go.Err e, calls)
    | None =>
        if (length allDbMatches =? 0)%nat then Some (Go.Ok [], calls)
        else
          let songMatches := groupBySong sampleFingerprints allDbMatches in
          scored ← Go.result
            (Go.for_each (Go.map_range rt _ songMatches)
               (scoreSong rt db isFromMicrophone) ([], calls));
          let '(matches, calls) := scored in
          (* Sort matches by score (highest first) *)
          let matches :=
            Go.sort_Slice rt _ (fun a b => (Score b <? Score a)%float) matches in
          (* Return top matches *)
          let maxResults := 5 in
          matches ← (if Z.of_nat (length matches) >? maxResults
                     then Go.slice matches 0 maxResults
                     else Some matches);
          Some (Go.Ok matches, calls)
    end.

(** [sampleFingerprintMap[fp.Hash] = fp.Offset] for each fingerprint. *)
Definition fingerprintMap (fingerprints : list fingerprint.Fingerprint)
    : gmap string Z :=
  fold_left (fun (m : gmap string Z) fp =>
               <[fingerprint.Hash fp := fingerprint.Offset fp]> m)
            fingerprints ∅.

Definition Recognize (rt : Go.Runtime) (dec : Decoder) (db : Database)
    (audioPath : string) : option (Go.fallible (list Match) * list call) :=
  match ConvertToWAV dec audioPath "recognize_output.wav" with
  | Go.Err e => Some (Go.Err ("error converting to WAV: " ++ e)%string, [])
  | Go.Ok filePath =>
      match ReadWavInfo dec filePath with
      | Go.Err e => Some (Go.Err ("error reading WAV info: " ++ e)%string, [])
      | Go.Ok wavInfo =>
          (* For recognition, only use first 30 seconds *)
          let maxSamples := Go.mul (SampleRate wavInfo) 30 in
          let originalLength := Z.of_nat (length (Samples wavInfo)) in
          samples ← (if originalLength >? maxSamples
                     then Go.slice (Samples wavInfo) 0 maxSamples
                     else Some (Samples wavInfo));
          match SamplesToSpectrogram dec samples (SampleRate wavInfo) with
          | Go.Err e => Some (Go.Err ("error creating spectrogram: " ++ e)%string, [])
          | Go.Ok spectrogram =>
              peaks ← fingerprint.PickPeaks (Abs dec) spectrogram (SampleRate wavInfo);
              fingerprints ← fingerprint.GenerateFingerprints peaks;
              if (length fingerprints =? 0)%nat then Some (Go.Ok [], [])
              else
                let sampleFingerprintMap := fingerprintMap fingerprints in
                '(found, calls) ← findMatches rt db sampleFingerprintMap false;
                match found with
                | Go.Err e => Some (Go.Err ("error finding matches: " ++ e)%string, calls)
                | Go.Ok matches => Some (Go.Ok matches, calls)
                end
          end
      end
  end.

(** The channel afterwards and the calls made to the store.  The audio
    levels, which are computed for the log alone, are left out.  The
    deferred function recovers from a panic: the function then returns
    with the channel as it was (a panic can only come from [PickPeaks],
    before the store is called). *)
Definition processRealtimeAudioWithMatch (rt : Go.Runtime) (dec : Decoder)
    (db : Database) (audioBuffer : list float) (matchFoundChan : Go.chan Match)
    : Go.chan Match * list call :=
  let run : option (Go.chan Match * list call) :=
    (* Use last 5 seconds of audio for recognition *)
    let sampleRate := 44100 in
    let windowSamples := Go.mul sampleRate 5 in
    if Z.of_nat (length audioBuffer) <? windowSamples then Some (matchFoundChan, [])
    else
      (* Take the most recent window *)
      audioWindow ← Go.slice audioBuffer
                      (Go.sub (Z.of_nat (length audioBuffer)) windowSamples)
                      (Z.of_nat (length audioBuffer));
      match SamplesToSpectrogram dec audioWindow sampleRate with
      | Go.Err _ => Some (matchFoundChan, [])
      | Go.Ok spectrogram =>
          peaks ← fingerprint.PickPeaks (Abs dec) spectrogram sampleRate;
          if Z.of_nat (length peaks) <? 20 then Some (matchFoundChan, [])
          else
            fingerprints ← fingerprint.GenerateFingerprintsForMicrophone peaks;
            if Z.of_nat (length fingerprints) <? 50 then Some (matchFoundChan, [])
            else
              let sampleFingerprintMap := fingerprintMap fingerprints in
              '(found, calls) ← findMatches rt db sampleFingerprintMap true;
              match found with
              | Go.Err _ => Some (matchFoundChan, calls)
              | Go.Ok matches =>
                  (* Check for high-confidence matches *)
                  ch ← Go.result
                         (Go.for_each matches
                            (fun match_ ch =>
                               if (0.3 <? Score match_)%float
                               then Go.Return (Go.try_send ch match_)
                               else Go.Next ch)
                            matchFoundChan);
                  Some (ch, calls)
              end
      end in
  match run with
  | Some r => r
  | None => (matchFoundChan, [])
  end.

End eureka.

(** ** The command line (cmd/main.go)

    The flags as [flag.Parse] leaves them, the configuration and the
    application as [config.LoadConfig] and [eureka.NewEureka] return
    them; what [main] prints and logs is left out. *)

Module cmd.

Record Flags : Type := {
  audioFile : string;
  recognizeFile : string;
  microphoneCmd : bool;
  listCmd : bool;
  cleanupCmd : bool;
  deleteCmd : Z
}.

(** The flags of a command line without arguments. *)
Definition defaults : Flags :=
  {| audioFile := ""; recognizeFile := ""; microphoneCmd := false;
     listCmd := false; cleanupCmd := false; deleteCmd := -1 |}.

(** The methods of the application that [main] calls: each returns its
    error ([None] is [nil]). *)
Record App (Song : Type) : Type := {
  Delete : Z -> option string;
  Cleanup : option string;
  List : Go.fallible (list Song);
  RecognizeFromMicrophone : option string;
  Recognize : string -> Go.fallible (list eureka.Match);
  Save : string -> option string
}.
Arguments Delete {Song} a songID.
Arguments Cleanup {Song} a.
Arguments List {Song} a.
Arguments RecognizeFromMicrophone {Song} a.
Arguments Recognize {Song} a audioPath.
Arguments Save {Song} a audioPath.

(** A call [main] makes to the application. *)
Inductive call : Type :=
| CallDelete (songID : Z)
| CallCleanup
| CallList
| CallRecognizeFromMicrophone
| CallRecognize (audioPath : string)
| CallSave (audioPath : string).

(** The exit status after a call that returned [err]. *)
Definition status (err : option string) : Z :=
  match err with Some _ => 1 | None => 0 end.

(** The calls made to the application and the exit status of the
    process (0 when [main] returns). *)
Definition main {Config Song : Type} (LoadConfig : Go.fallible Config)
    (NewEureka : Config -> Go.fallible (App Song)) (flags : Flags) : list call * Z :=
  match LoadConfig with
  | Go.Err _ => ([], 1)
  | Go.Ok config =>
      match NewEureka config with
      | Go.Err _ => ([], 1)
      | Go.Ok app =>
          if deleteCmd flags >=? 0
          then ([CallDelete (deleteCmd flags)], status (Delete app (deleteCmd flags)))
          else if cleanupCmd flags then ([CallCleanup], status (Cleanup app))
          else if listCmd flags then
            ([CallList], match List app with Go.Err _ => 1 | Go.Ok _ => 0 end)
          else if microphoneCmd flags
          then ([CallRecognizeFromMicrophone], status (RecognizeFromMicrophone app))
          else if negb (String.eqb (recognizeFile flags) "") then
            ([CallRecognize (recognizeFile flags)],
             match Recognize app (recognizeFile flags) with
             | Go.Err _ => 1
             | Go.Ok _ => 0
             end)
          else if String.eqb (audioFile flags) "" then ([], 1)
          else ([CallSave (audioFile flags)], status (Save app (audioFile flags)))
      end
  end.

End cmd.

(* ================================================================== *)
(** * Part II: the vocabulary of the specification *)
(* ================================================================== *)

(** ** Specification vocabulary: binary64 values *)

(** Not a NaN. *)
Definition numeric (x : float) : Prop := is_nan x = false.

(** Neither a NaN nor an infinity. *)
Definition finite (x : float) : Prop := is_finite x = true.

(** ** Specification vocabulary: the base encoder *)

(** The token the encoders build from an anchor and a target. *)
Definition token (anchor target : fingerprint.Peak) : fingerprint.Fingerprint :=
  {| fingerprint.Hash :=
       sha1.hex (fingerprint.hashInput (fingerprint.FreqBin anchor)
                   (fingerprint.FreqBin target)
                   (fingerprint.TimeMS target - fingerprint.TimeMS anchor)%float);
     fingerprint.SongID := 0;
     fingerprint.Offset := Go.int (fingerprint.TimeMS anchor) |}.

(** [0 < dt <= 2000], in milliseconds. *)
Definition within_delta (dt : float) : bool :=
  (0 <? dt)%float && (dt <=? 2000)%float.

(** What the design document asks of the pair [(i, j)]: a token when the
    time between the two peaks is within the bounds, nothing otherwise. *)
Definition pair_tokens (peaks : list fingerprint.Peak) (i j : nat)
    : list fingerprint.Fingerprint :=
  match peaks !! i, peaks !! j with
  | Some anchor, Some target =>
      if within_delta (fingerprint.TimeMS target - fingerprint.TimeMS anchor)%float
      then [token anchor target] else []
  | _, _ => []
  end.

(** The encoder of the design document: for each [i], for
    [j = i+1 .. min(i+FAN, n)-1], the tokens of the pair [(i, j)]. *)
Definition encode_spec (peaks : list fingerprint.Peak) : list fingerprint.Fingerprint :=
  let n := length peaks in
  flat_map (fun i =>
              flat_map (pair_tokens peaks i)
                       (seq (i + 1) (Nat.min (i + 15) n - (i + 1))))
           (seq 0 n).

(** A string of lower-case hexadecimal digits. *)
Definition lower_hex (s : string) : Prop :=
  Forall (fun c => In c (list_ascii_of_string "0123456789abcdef"))
         (list_ascii_of_string s).

(** What the encoder's loop body appends for the pair [(i, j)]. *)
Definition emitted (peaks : list fingerprint.Peak) (i j : nat)
    : list fingerprint.Fingerprint :=
  match peaks !! i, peaks !! j with
  | Some anchor, Some target =>
      if fingerprint.rejected (fingerprint.TimeMS target - fingerprint.TimeMS anchor)%float
      then [] else [token anchor target]
  | _, _ => []
  end.

(** The targets [for j := i + 1; j < i+FAN_VALUE && j < len(peaks); j++]
    visits. *)
Definition targets (n i : nat) : list nat :=
  seq (i + 1) (Nat.min (i + 15) n - (i + 1)).

(** Three peaks to try the encoders on: bins 123, 456 and 7 at 0 ms,
    789 ms and 3000 ms. *)
Definition example_peaks : list fingerprint.Peak :=
  [ {| fingerprint.Time := 0; fingerprint.TimeMS := 0;
       fingerprint.Magnitude := 1; fingerprint.FreqBin := 123 |};
    {| fingerprint.Time := 34; fingerprint.TimeMS := 789;
       fingerprint.Magnitude := 1; fingerprint.FreqBin := 456 |};
    {| fingerprint.Time := 129; fingerprint.TimeMS := 3000;
       fingerprint.Magnitude := 1; fingerprint.FreqBin := 7 |} ].

(** ** Specification vocabulary: the tolerance encoder *)

(** The tokens the innermost loop appends for an accepted pair: one per
    perturbation whose two bins are within [0, 2048]. *)
Definition perturbed_tokens (anchor target : fingerprint.Peak)
    : list fingerprint.Fingerprint :=
  flat_map
    (fun tol : Z * Z =>
       let anchorBin := Go.add (fingerprint.FreqBin anchor) (fst tol) in
       let targetBin := Go.add (fingerprint.FreqBin target) (snd tol) in
       if (anchorBin <? 0) || (targetBin <? 0)
          || (anchorBin >? 2048) || (targetBin >? 2048)
       then []
       else [ {| fingerprint.Hash :=
                   sha1.hex (fingerprint.hashInput anchorBin targetBin
                     (fingerprint.TimeMS target - fingerprint.TimeMS anchor)%float);
                 fingerprint.SongID := 0;
                 fingerprint.Offset := Go.int (fingerprint.TimeMS anchor) |} ])
    [(-1, 0); (1, 0); (0, -1); (0, 1)].

Definition perturbed (peaks : list fingerprint.Peak) (i j : nat)
    : list fingerprint.Fingerprint :=
  match peaks !! i, peaks !! j with
  | Some anchor, Some target =>
      if fingerprint.rejected (fingerprint.TimeMS target - fingerprint.TimeMS anchor)%float
      then [] else perturbed_tokens anchor target
  | _, _ => []
  end.

(** What the three loops would append were there no cap. *)
Definition tolerance_stream (peaks : list fingerprint.Peak)
    : list fingerprint.Fingerprint :=
  flat_map (fun i => flat_map (perturbed peaks i) (targets (length peaks) i))
           (Go.range 0 (length peaks) 4).

(** The number of tokens in [perturbed peaks i j]. *)
Definition perturbed_count (peaks : list fingerprint.Peak) (i j : nat) : nat :=
  match peaks !! i, peaks !! j with
  | Some anchor, Some target =>
      if fingerprint.rejected (fingerprint.TimeMS target - fingerprint.TimeMS anchor)%float
      then 0%nat
      else
        list_sum
          (map
             (fun tol : Z * Z =>
                let anchorBin := Go.add (fingerprint.FreqBin anchor) (fst tol) in
                let targetBin := Go.add (fingerprint.FreqBin target) (snd tol) in
                if (anchorBin <? 0) || (targetBin <? 0)
                   || (anchorBin >? 2048) || (targetBin >? 2048)
                then 0%nat else 1%nat)
             [(-1, 0); (1, 0); (0, -1); (0, 1)])
  | _, _ => 0%nat
  end.

(** The number of tokens in [tolerance_stream peaks]. *)
Definition tolerance_count (peaks : list fingerprint.Peak) : nat :=
  list_sum
    (map (fun i => list_sum (map (perturbed_count peaks i) (targets (length peaks) i)))
         (Go.range 0 (length peaks) 4)).

(** The state of a loop that appends to a slice and counts what it
    appended, leaving once the count is over [cap]. *)
Definition capped {B} (cap : nat) (out : list B) : Go.flow (list B * Z) :=
  if (length out <=? cap)%nat then Go.Next (out, Z.of_nat (length out))
  else Go.Return (take (S cap) out, Z.of_nat (S cap)).

(** Frame [t] of a spectrogram of 512 bins: a pure tone of magnitude
    [level] in each of the six bands at 44.1 kHz, at bins 4, 8, 12, 18,
    50 and 200 in the even frames and at bins 6, 10, 14, 22, 60 and 300
    in the odd ones, so that no tone has a neighbour as strong as it in
    its own frame or in the next. *)
Definition tone_frame (level : float) (t : nat) : list fingerprint.complex128 :=
  let bins := if Nat.even t then [4; 8; 12; 18; 50; 200]%nat
              else [6; 10; 14; 22; 60; 300]%nat in
  map (fun f : nat =>
         if existsb (Nat.eqb f) bins then (level, 0%float) else (0%float, 0%float))
      (seq 0 512).

(** A spectrogram of [n] such frames. *)
Definition tones (level : float) (n : nat) : list (list fingerprint.complex128) :=
  map (tone_frame level) (seq 0 n).

(** The spectrogram of a busy recording: 160 frames (3.7 seconds). *)
Definition busy_spectrogram : list (list fingerprint.complex128) :=
  tones 1 160.

(** ** Specification vocabulary: the capture buffer *)

(** The last [n] elements of a list: what a buffer bounded by [n] keeps
    of its history when only the oldest samples are evicted. *)
Definition most_recent {A} (n : nat) (l : list A) : list A :=
  drop (length l - n) l.

(** Three buffers delivered by the driver, the second one empty. *)
Definition example_capture : list (list float) :=
  [ [0.5; 0.25; -0.5]; []; [0.125] ]%float.

(** ** Specification vocabulary: recognition of a file *)

(** The decoder [dec] with another function in place of [ReadWavInfo]. *)
Definition with_ReadWavInfo (dec : eureka.Decoder)
    (read : string -> Go.fallible eureka.WavInfo) : eureka.Decoder :=
  {| eureka.ConvertToWAV := eureka.ConvertToWAV dec;
     eureka.ReadWavInfo := read;
     eureka.SamplesToSpectrogram := eureka.SamplesToSpectrogram dec;
     eureka.Abs := eureka.Abs dec |}.

(** The first thirty seconds of a decoded file. *)
Definition first_30_seconds (w : eureka.WavInfo) : list float :=
  take (Z.to_nat (eureka.SampleRate w * 30)) (eureka.Samples w).

(** Two results of reading a file that differ at most in the audio past
    the first thirty seconds; the sample rate is the 32-bit field of the
    WAV header. *)
Definition same_first_30_seconds (r r' : Go.fallible eureka.WavInfo) : Prop :=
  match r, r' with
  | Go.Ok w, Go.Ok w' =>
      eureka.SampleRate w = eureka.SampleRate w'
      /\ 0 <= eureka.SampleRate w < 2 ^ 32
      /\ first_30_seconds w = first_30_seconds w'
  | Go.Err e, Go.Err e' => e = e'
  | _, _ => False
  end.

(** A file cut to its first thirty seconds. *)
Definition truncated (r : Go.fallible eureka.WavInfo) : Go.fallible eureka.WavInfo :=
  match r with
  | Go.Ok w =>
      Go.Ok {| eureka.Samples := first_30_seconds w;
               eureka.SampleRate := eureka.SampleRate w |}
  | Go.Err e => Go.Err e
  end.

(** What [Recognize] does with the samples it keeps: the spectrogram of
    [samples], the peaks of the spectrogram, their fingerprints, and the
    matcher on the query they make. *)
Definition recognize_samples (rt : Go.Runtime) (dec : eureka.Decoder)
    (db : database.Database) (samples : list float) (sampleRate : Z)
    : option (Go.fallible (list eureka.Match) * list database.call) :=
  match eureka.SamplesToSpectrogram dec samples sampleRate with
  | Go.Err e => Some (Go.Err ("error creating spectrogram: " ++ e)%string, [])
  | Go.Ok spectrogram =>
      peaks ← fingerprint.PickPeaks (eureka.Abs dec) spectrogram sampleRate;
      fingerprints ← fingerprint.GenerateFingerprints peaks;
      if (length fingerprints =? 0)%nat then Some (Go.Ok [], [])
      else
        '(found, calls) ← eureka.findMatches rt db (eureka.fingerprintMap fingerprints) false;
        match found with
        | Go.Err e => Some (Go.Err ("error finding matches: " ++ e)%string, calls)
        | Go.Ok matches => Some (Go.Ok matches, calls)
        end
  end.

(** Every sample is at 0.5 or above. *)
Definition loud (samples : list float) : bool :=
  forallb (fun s => (0.5 <=? s)%float) samples.

(** A recording at 44.1 kHz: thirty seconds of loud audio, then ten
    quiet samples. *)
Definition tone_wav : eureka.WavInfo :=
  {| eureka.Samples := repeat 1%float (Z.to_nat 1323000) ++ repeat 0.25%float 10;
     eureka.SampleRate := 44100 |}.

(** A decoder that reads [tone_wav] and whose spectrogram routine finds
    the six tones, in four frames, in a signal that is loud throughout,
    and fails on any other. *)
Definition tone_decoder : eureka.Decoder :=
  {| eureka.ConvertToWAV := fun _ out => Go.Ok out;
     eureka.ReadWavInfo := fun _ => Go.Ok tone_wav;
     eureka.SamplesToSpectrogram := fun samples _ =>
       if loud samples then Go.Ok (tones 1 4) else Go.Err "signal too weak";
     eureka.Abs := fun c => abs (fst c) |}.

(** The same recording with other audio after the thirtieth second. *)
Definition tone_reader (path : string) : Go.fallible eureka.WavInfo :=
  Go.Ok {| eureka.Samples := repeat 1%float (Z.to_nat 1323000) ++ repeat 0.75%float 25;
           eureka.SampleRate := 44100 |}.

(** A decoder to try the recognition from the microphone on: a
    spectrogram routine that finds every signal too short. *)
Definition example_decoder : eureka.Decoder :=
  {| eureka.ConvertToWAV := fun _ out => Go.Ok out;
     eureka.ReadWavInfo := fun _ =>
       Go.Ok {| eureka.Samples := repeat 0.5%float 40; eureka.SampleRate := 1 |};
     eureka.SamplesToSpectrogram := fun _ _ => Go.Err "signal too short";
     eureka.Abs := fun c => abs (fst c) |}.


(** ** Specification vocabulary: the matcher *)

(** The consecutive batches of at most 1000 hashes. *)
Definition batches (hashes : list string) : list (list string) :=
  map (fun i => take 1000 (drop i hashes)) (Go.range 0 (length hashes) 1000).

(** Querying the store batch after batch up to the first error: the rows
    returned, concatenated; the error if there was one; the calls made. *)
Fixpoint query_all (db : database.Database) (bs : list (list string))
    : list mysql.FingerprintMatch * option string * list database.call :=
  match bs with
  | [] => ([], None, [])
  | b :: bs' =>
      match database.QueryFingerprints db b with
      | Go.Err e => ([], Some e, [database.Query b])
      | Go.Ok rows =>
          let '(rows', err, calls) := query_all db bs' in
          (rows ++ rows', err, database.Query b :: calls)
      end
  end.

(** The hash lists of the fingerprint lookups among the calls. *)
Definition queries (calls : list database.call) : list (list string) :=
  flat_map (fun c => match c with
                     | database.Query hashes => [hashes]
                     | database.GetSong _ => []
                     end) calls.

(** No match has a higher score than one before it. *)
Definition descending (matches : list eureka.Match) : Prop :=
  StronglySorted (fun a b => (eureka.Score b <=? eureka.Score a)%float = true) matches.

(** The threshold a score has to exceed. *)
Definition scoreThreshold (isFromMicrophone : bool) : float :=
  if isFromMicrophone then 0.05%float else 0.1%float.

(** A store to try the matcher on: every hash is found twice in song 7
    at 100 ms, once in song 8 at 100 ms, and in song 9 at 100 ms and at
    200 ms. *)
Definition example_store : database.Database :=
  {| database.QueryFingerprints := fun hashes =>
       Go.Ok (flat_map (fun h =>
                [ {| mysql.Hash := h; mysql.SongID := 7; mysql.Offset := 100 |};
                  {| mysql.Hash := h; mysql.SongID := 8; mysql.Offset := 100 |};
                  {| mysql.Hash := h; mysql.SongID := 7; mysql.Offset := 100 |};
                  {| mysql.Hash := h; mysql.SongID := 9; mysql.Offset := 100 |};
                  {| mysql.Hash := h; mysql.SongID := 9; mysql.Offset := 200 |} ])
              hashes);
     database.GetSongByID := fun songID =>
       Go.Ok {| mysql.Name := "song"; mysql.Artist := "artist" |} |}.

(** A query of five hashes, all at offset 0. *)
Definition example_query : gmap string Z :=
  list_to_map [("a", 0); ("b", 0); ("c", 0); ("d", 0); ("e", 0)]%string.

(** The hits of song [songID] among the rows the store returned, each
    with its time difference [db_offset - query_offset]. *)
Definition hits (sampleFingerprints : gmap string Z)
    (rows : list mysql.FingerprintMatch) (songID : Z) : list eureka.TimeMatch :=
  map (fun r =>
         let sampleOffset := default 0 (sampleFingerprints !! mysql.Hash r) in
         {| eureka.SampleTime := sampleOffset;
            eureka.DbTime := mysql.Offset r;
            eureka.TimeDiff := Go.sub (mysql.Offset r) sampleOffset |})
      (filter (fun r => mysql.SongID r = songID) rows).

(** The number of hits at the most frequent time difference. *)
Definition peak_count (timeMatches : list eureka.TimeMatch) : Z :=
  let diffs := map eureka.TimeDiff timeMatches in
  Z.of_nat (list_max (map (count_occ Z.eq_dec diffs) diffs)).

Definition minMatches (isFromMicrophone : bool) : Z :=
  if isFromMicrophone then 3 else 5.

Definition norm (isFromMicrophone : bool) : float :=
  if isFromMicrophone then 50%float else 100%float.

(** [min(1.0, peak_count * (peak_count / total) / norm)]. *)
Definition score_of (isFromMicrophone : bool) (peak total : Z) : float :=
  let raw :=
    (Go.float64 peak * (Go.float64 peak / Go.float64 total) / norm isFromMicrophone)%float in
  if (1 <? raw)%float then 1%float else raw.

(** Five hits at one time difference. *)
Definition five_hits (d : Z) : list eureka.TimeMatch :=
  repeat {| eureka.SampleTime := 0; eureka.DbTime := d; eureka.TimeDiff := d |} 5.

(** The rows [example_store] returns for the hashes of [example_query]. *)
Definition example_rows : list mysql.FingerprintMatch :=
  flat_map (fun h =>
     [ {| mysql.Hash := h; mysql.SongID := 7; mysql.Offset := 100 |};
       {| mysql.Hash := h; mysql.SongID := 8; mysql.Offset := 100 |};
       {| mysql.Hash := h; mysql.SongID := 7; mysql.Offset := 100 |};
       {| mysql.Hash := h; mysql.SongID := 9; mysql.Offset := 100 |};
       {| mysql.Hash := h; mysql.SongID := 9; mysql.Offset := 200 |} ])
    ["a"; "b"; "c"; "d"; "e"]%string.

(** ** Specification vocabulary: the peak picker *)

(** The cell [(t, f)] of a magnitude grid, if there is one. *)
Definition cell (magnitudes : list (list float)) (t f : Z) : option float :=
  row ← Go.index magnitudes t; Go.index row f.

(** The eight neighbours of a cell in its 3 x 3 neighbourhood. *)
Definition offsets : list (Z * Z) :=
  [(-1, -1); (-1, 0); (-1, 1); (0, -1); (0, 1); (1, -1); (1, 0); (1, 1)].

(** The cell [(t, f)] is strictly above each of its neighbours that lie
    on the grid. *)
Definition local_max (magnitudes : list (list float)) (t f : Z) : Prop :=
  exists v,
    cell magnitudes t f = Some v
    /\ forall dt df w,
         In (dt, df) offsets ->
         cell magnitudes (t + dt) (f + df) = Some w ->
         (w <? v)%float = true.

(** Every row is as long as the first. *)
Definition rectangular {A} (grid : list (list A)) : Prop :=
  forall row, In row grid -> length row = length (hd [] grid).

(** The grid and its rows are Go slices: their lengths are [int]s. *)
Definition slices {A} (grid : list (list A)) : Prop :=
  Z.of_nat (length grid) <= Go.max_int
  /\ Forall (fun row => Z.of_nat (length row) <= Go.max_int) grid.

(** Bin [f], of magnitude [v], is the peak of the band in frame [t]: a
    local maximum within the band that no local maximum of the band
    exceeds and that is strictly above those at lower bins. *)
Definition band_peak (magnitudes : list (list float)) (t : Z)
    (band : fingerprint.FrequencyBand) (f : Z) (v : float) : Prop :=
  fingerprint.Start band <= f <= fingerprint.End_ band
  /\ cell magnitudes t f = Some v
  /\ local_max magnitudes t f
  /\ forall f' v',
       fingerprint.Start band <= f' <= fingerprint.End_ band ->
       cell magnitudes t f' = Some v' ->
       local_max magnitudes t f' ->
       (v' <=? v)%float = true /\ (f' < f -> (v' <? v)%float = true).

(** The neighbour at [(dt, df)] of the cell [(t, f)] of value
    [peakValue] is on the grid and not below it. *)
Definition not_below (magnitudes : list (list float)) (t f : Z) (peakValue : float)
    (dt df : Z) : bool :=
  negb ((dt =? 0) && (df =? 0))
  && match cell magnitudes (t + dt) (f + df) with
     | Some w => (peakValue <=? w)%float
     | None => false
     end.

(** The scan of a band of frame [t]: the state [(maxMag, maxBin)] of the
    innermost loop of [PickPeaks] after the bins [fs]. *)
Definition scan (magnitudes : list (list float)) (t : Z) (frame : list float)
    (fs : list Z) : Go.flow (float * Z) :=
  Go.for_each fs
    (fun f '(maxMag, maxBin) =>
       match Go.index frame f with
       | None => Go.Panic
       | Some v =>
           if (maxMag <? v)%float then
             match fingerprint.isLocalPeak magnitudes t f with
             | None => Go.Panic
             | Some true => Go.Next (v, f)
             | Some false => Go.Next (maxMag, maxBin)
             end
           else Go.Next (maxMag, maxBin)
       end)
    (0%float, -1).

(** What the scan has found once the bins from [lo] up to [hi]
    (excluded) are done. *)
Definition scanned (magnitudes : list (list float)) (t lo hi : Z)
    (st : float * Z) : Prop :=
  let '(maxMag, maxBin) := st in
  ((maxBin = -1 /\ maxMag = 0%float)
   \/ (lo <= maxBin < hi
       /\ cell magnitudes t maxBin = Some maxMag
       /\ local_max magnitudes t maxBin
       /\ (0 <? maxMag)%float = true))
  /\ forall f' v',
       lo <= f' < hi ->
       cell magnitudes t f' = Some v' ->
       local_max magnitudes t f' ->
       (maxMag <? v')%float = false /\ (f' < maxBin -> (v' <? maxMag)%float = true).

(** What [PickPeaks] appends for frame [t] and a band. *)
Definition band_peaks (magnitudes : list (list float)) (sampleRate : Z) (t : nat)
    (band : fingerprint.FrequencyBand) : list fingerprint.Peak :=
  match magnitudes !! t with
  | None => []
  | Some frame =>
      if (fingerprint.Start band >=? Z.of_nat (length frame))
         || (fingerprint.End_ band >=? Z.of_nat (length frame))
      then []
      else
        match scan magnitudes (Z.of_nat t) frame
                (Go.range_incl (fingerprint.Start band) (fingerprint.End_ band)) with
        | Go.Next (maxMag, maxBin) =>
            if negb (maxBin =? -1) && (fingerprint.PEAK_THRESHOLD <? maxMag)%float
            then [ {| fingerprint.Time := Go.float64 (Z.of_nat t);
                      fingerprint.TimeMS :=
                        (Go.float64 (Z.of_nat t)
                         * Go.float64 (Go.div fingerprint.WINDOW_SIZE 4)
                         / Go.float64 sampleRate * 1000)%float;
                      fingerprint.FreqBin := maxBin;
                      fingerprint.Magnitude := maxMag |} ]
            else []
        | _ => []
        end
  end.

(** A grid to try the peak picker on: one frame of twelve bins, real
    values. *)
Definition example_grid : list (list fingerprint.complex128) :=
  [ map (fun x => (x, 0%float)) [0; 0; 0; 0; 1; 0.5; 0; 0.25; 0; 0; 0; 0]%float ].

(** ** Specification vocabulary: files, peaks and fingerprints *)

(** A file system with two files: an empty one and one whose reading
    fails. *)
Definition example_files : os.FileSystem :=
  fun path =>
    if String.eqb path "empty.wav" then Go.Ok {| os.contents := []; os.read_error := None |}
    else if String.eqb path "broken.wav"
    then Go.Ok {| os.contents := [82; 73]; os.read_error := Some "input/output error"%string |}
    else Go.Err "no such file or directory".

(** A grid of two frames and three bins. *)
Definition example_magnitudes : list (list float) :=
  [ [0.5; 1; 0.5]; [0.25; 1; 0.125] ]%float.

(** One frame of 512 bins, a pure tone in each of the six bands at
    44.1 kHz: bins 5, 9, 13, 20, 100 and 300. *)
Definition six_tones : list (list fingerprint.complex128) :=
  [ map (fun f : nat =>
           if existsb (Nat.eqb f) [5; 9; 13; 20; 100; 300]%nat
           then (1%float, 0%float) else (0%float, 0%float))
        (seq 0 512) ].

(** One frame of twelve bins, a pure tone in bin 7, the last bin of the
    first band and the first bin of the second at 44.1 kHz. *)
Definition boundary_tone : list (list fingerprint.complex128) :=
  [ map (fun x => (x, 0%float)) [0; 0; 0; 0; 0; 0; 0; 1; 0; 0; 0; 0]%float ].

(** The peak [PickPeaks] makes of bin [f] of frame [t], of magnitude
    [v]. *)
Definition peak_at (sampleRate : Z) (t : nat) (f : Z) (v : float) : fingerprint.Peak :=
  {| fingerprint.Time := Go.float64 (Z.of_nat t);
     fingerprint.TimeMS :=
       (Go.float64 (Z.of_nat t) * Go.float64 (Go.div fingerprint.WINDOW_SIZE 4)
        / Go.float64 sampleRate * 1000)%float;
     fingerprint.FreqBin := f;
     fingerprint.Magnitude := v |}.

(** ** Specification vocabulary: the recorder and its stream *)

(** A PortAudio whose default device opens and whose stream does not
    start. *)
Definition example_portaudio : portaudio.Library :=
  {| portaudio.DefaultInputDevice :=
       Go.Ok {| portaudio.DefaultLowInputLatency := 10 |};
     portaudio.OpenStream := fun _ => Go.Ok 1%nat;
     portaudio.Start := fun _ => Some "device unavailable"%string;
     portaudio.Stop := fun _ => None;
     portaudio.Close := fun _ => None;
     portaudio.Terminate := None |}.

(** The recorder [NewMicrophoneRecorder] returns: no stream yet. *)
Definition new_recorder : microphone.Recorder :=
  {| microphone.recorder := microphone.NewMicrophoneRecorder;
     microphone.stream := None |}.

(** ** Specification vocabulary: the candidates of the matcher *)

(** The rows the store returns for the hashes of a query, batch after
    batch. *)
Definition rows_of (rt : Go.Runtime) (db : database.Database) (q : gmap string Z)
    : list mysql.FingerprintMatch :=
  fst (fst (query_all db (batches (Go.map_keys rt _ q)))).

(** A song has hits enough and a score above the threshold. *)
Definition passes (rt : Go.Runtime) (mic : bool) (timeMatches : list eureka.TimeMatch)
    : bool :=
  negb (Z.of_nat (length timeMatches) <? minMatches mic)
  && (scoreThreshold mic <? eureka.calculateTemporalScore rt timeMatches mic)%float.

(** The match the third loop of [findMatches] appends for an entry of
    [songMatches], if it appends one. *)
Definition candidate (rt : Go.Runtime) (db : database.Database) (mic : bool)
    (entry : Z * list eureka.TimeMatch) : list eureka.Match :=
  if passes rt mic (snd entry) then
    match database.GetSongByID db (fst entry) with
    | Go.Ok songInfo =>
        [ {| eureka.SongID := fst entry;
             eureka.SongName := mysql.Name songInfo;
             eureka.Artist := mysql.Artist songInfo;
             eureka.Score := eureka.calculateTemporalScore rt (snd entry) mic;
             eureka.Offset := eureka.findMostCommonTimeDiff rt (snd entry);
             eureka.Timestamp := 0 |} ]
    | Go.Err _ => []
    end
  else [].

(** The song the loop asks the store about for an entry, if it asks. *)
Definition looked_up (rt : Go.Runtime) (mic : bool) (entry : Z * list eureka.TimeMatch)
    : list Z :=
  if passes rt mic (snd entry) then [fst entry] else [].

(** The matches of a query before they are sorted and cut to five. *)
Definition candidates (rt : Go.Runtime) (db : database.Database) (q : gmap string Z)
    (mic : bool) : list eureka.Match :=
  flat_map (candidate rt db mic)
           (Go.map_range rt _ (eureka.groupBySong q (rows_of rt db q))).

(** The songs asked about for a query. *)
Definition lookups (rt : Go.Runtime) (db : database.Database) (q : gmap string Z)
    (mic : bool) : list Z :=
  flat_map (looked_up rt mic)
           (Go.map_range rt _ (eureka.groupBySong q (rows_of rt db q))).

(** Seven songs with six to twelve hits each, all at one time
    difference. *)
Definition crowded_store : database.Database :=
  {| database.QueryFingerprints := fun hashes =>
       Go.Ok (flat_map (fun song : nat =>
                 repeat {| mysql.Hash := "a"; mysql.SongID := Z.of_nat song;
                           mysql.Offset := 100 |} (5 + song))
              (seq 1 7));
     database.GetSongByID := fun songID =>
       Go.Ok {| mysql.Name := "song"; mysql.Artist := "artist" |} |}.

(** ** Specification vocabulary: recognition from the microphone *)

(** The query [processRealtimeAudioWithMatch] puts to the matcher, when
    it gets that far: the fingerprints of the last five seconds of the
    buffer, if they give 20 peaks and 50 fingerprints at least. *)
Definition realtime_query (dec : eureka.Decoder) (audioBuffer : list float)
    : option (gmap string Z) :=
  if Z.of_nat (length audioBuffer) <? 220500 then None
  else
    match eureka.SamplesToSpectrogram dec
            (most_recent (Z.to_nat 220500) audioBuffer) 44100 with
    | Go.Err _ => None
    | Go.Ok spectrogram =>
        peaks ← fingerprint.PickPeaks (eureka.Abs dec) spectrogram 44100;
        if Z.of_nat (length peaks) <? 20 then None
        else
          fingerprints ← fingerprint.GenerateFingerprintsForMicrophone peaks;
          if Z.of_nat (length fingerprints) <? 50 then None
          else Some (eureka.fingerprintMap fingerprints)
    end.

(** The channel [RecognizeFromMicrophone] makes for the matches: room
    for one, empty. *)
Definition matchFoundChan : Go.chan eureka.Match :=
  {| Go.capacity := 1; Go.queue := [] |}.

(** What the microphone has delivered: one quiet sample, then five
    seconds of loud audio. *)
Definition quiet_then_loud : list float :=
  0.25%float :: repeat 1%float (Z.to_nat 220500).

(** A recorder at 44.1 kHz that holds four seconds of silence. *)
Definition four_seconds : microphone.MicrophoneRecorder :=
  microphone.set_audioBuffer microphone.NewMicrophoneRecorder
    (repeat 0%float (Z.to_nat 176400)).

(** ** Specification vocabulary: the sign of a binary64 value *)

(** Zero, a positive number or plus infinity; not a NaN. *)
Definition SFnonneg (x : spec_float) : Prop :=
  match x with
  | S754_zero _ => True
  | S754_infinity s | S754_finite s _ _ => s = false
  | S754_nan => False
  end.

(** ** Specification vocabulary: the command line *)

(** An application whose every command succeeds. *)
Definition example_app : cmd.App unit :=
  {| cmd.Delete := fun _ => None;
     cmd.Cleanup := None;
     cmd.List := Go.Ok [];
     cmd.RecognizeFromMicrophone := None;
     cmd.Recognize := fun _ => Go.Ok [];
     cmd.Save := fun _ => None |}.

(** [-delete 0 -file song.mp3]. *)
Definition example_flags : cmd.Flags :=
  {| cmd.audioFile := "song.mp3"; cmd.recognizeFile := ""; cmd.microphoneCmd := false;
     cmd.listCmd := false; cmd.cleanupCmd := false; cmd.deleteCmd := 0 |}.

(** ** Specification vocabulary: the text that is hashed *)

(** The string holds a ['|']. *)
Fixpoint has_bar (s : string) : bool :=
  match s with
  | EmptyString => false
  | String c s' => Ascii.eqb c "|"%char || has_bar s'
  end.

(** ** Specification vocabulary: the command line *)

(** The command a command line asks for: the first that is given of
    [-delete] (with an identifier from 0 on), [-cleanup], [-list],
    [-microphone], [-recognize] and [-file], in this order. *)
Definition command (flags : cmd.Flags) : option cmd.call :=
  head
    (flat_map (fun '(given, c) => if given : bool then [c] else [])
       [ (cmd.deleteCmd flags >=? 0, cmd.CallDelete (cmd.deleteCmd flags));
         (cmd.cleanupCmd flags, cmd.CallCleanup);
         (cmd.listCmd flags, cmd.CallList);
         (cmd.microphoneCmd flags, cmd.CallRecognizeFromMicrophone);
         (negb (String.eqb (cmd.recognizeFile flags) ""),
          cmd.CallRecognize (cmd.recognizeFile flags));
         (negb (String.eqb (cmd.audioFile flags) ""),
          cmd.CallSave (cmd.audioFile flags)) ]).

(* ================================================================== *)
(** * Part III: properties *)
(* ================================================================== *)

(** ** Binary64 comparisons *)

Ltac sf_compare :=
  repeat match goal with
    | H : context [Z.compare ?a ?b] |- _ => destruct (Z.compare_spec a b)
    | |- context [Z.compare ?a ?b] => destruct (Z.compare_spec a b)
    | H : context [Pos.compare_cont Eq ?a ?b] |- _ =>
        change (Pos.compare_cont Eq a b) with (Pos.compare a b) in *;
        destruct (Pos.compare_spec a b)
    | |- context [Pos.compare_cont Eq ?a ?b] =>
        change (Pos.compare_cont Eq a b) with (Pos.compare a b) in *;
        destruct (Pos.compare_spec a b)
    end;
  cbn in *; try congruence; try lia.

Ltac sf_cases :=
  repeat match goal with
    | x : spec_float |- _ => destruct x
    | s : bool |- _ => destruct s
    end;
  cbn in *; try congruence; sf_compare.

Lemma SFcompare_refl (x : spec_float) :
  x <> S754_nan -> SFcompare x x = Some Eq.
Proof. intros Hx. sf_cases. Qed.

Lemma SFltb_irrefl (x : spec_float) : SFltb x x = false.
Proof. unfold SFltb. sf_cases. Qed.

Lemma SFleb_SFltb (x y : spec_float) :
  x <> S754_nan -> y <> S754_nan -> SFleb x y = negb (SFltb y x).
Proof. unfold SFleb, SFltb. intros Hx Hy. sf_cases. Qed.

Lemma SFltb_not_nan (x y : spec_float) :
  SFltb x y = true -> x <> S754_nan /\ y <> S754_nan.
Proof. unfold SFltb. destruct x, y; cbn; intros H; split; congruence. Qed.

Lemma SFltb_trans (x y z : spec_float) :
  SFltb x y = true -> SFltb y z = true -> SFltb x z = true.
Proof. unfold SFltb. intros Hxy Hyz. sf_cases. Qed.

Lemma SFltb_incomparable (x y z : spec_float) :
  y <> S754_nan ->
  SFltb x y = false -> SFltb y z = false -> SFltb x z = false.
Proof. unfold SFltb. intros Hy Hxy Hyz. sf_cases. Qed.

Lemma SFleb_SFltb_false (x y : spec_float) : SFleb x y = true -> SFltb y x = false.
Proof. unfold SFleb, SFltb. intros H. sf_cases. Qed.

Lemma SFleb_SFltb_trans (x y z : spec_float) :
  SFleb x y = true -> SFltb y z = true -> SFltb x z = true.
Proof. unfold SFleb, SFltb. intros Hxy Hyz. sf_cases. Qed.



Lemma is_nan_Prim2SF (x : float) : is_nan x = true <-> Prim2SF x = S754_nan.
Proof.
  unfold is_nan. rewrite FloatAxioms.eqb_spec. unfold SFeqb.
  destruct (Prim2SF x) as [s| s| |s m e] eqn:Hx.
  - cbn. split; discriminate.
  - destruct s; cbn; split; discriminate.
  - cbn. split; reflexivity.
  - rewrite SFcompare_refl by discriminate. cbn. split; discriminate.
Qed.

Lemma numeric_Prim2SF (x : float) : numeric x <-> Prim2SF x <> S754_nan.
Proof.
  unfold numeric. rewrite <- is_nan_Prim2SF. destruct (is_nan x); split; congruence.
Qed.

Lemma ltb_irrefl (x : float) : (x <? x)%float = false.
Proof. rewrite FloatAxioms.ltb_spec. apply SFltb_irrefl. Qed.

Lemma ltb_numeric (x y : float) : (x <? y)%float = true -> numeric x /\ numeric y.
Proof.
  rewrite FloatAxioms.ltb_spec, !numeric_Prim2SF. apply SFltb_not_nan.
Qed.

Lemma leb_ltb (x y : float) :
  numeric x -> numeric y -> (x <=? y)%float = negb (y <? x)%float.
Proof.
  rewrite !numeric_Prim2SF, FloatAxioms.leb_spec, FloatAxioms.ltb_spec. apply SFleb_SFltb.
Qed.

Lemma ltb_trans (x y z : float) :
  (x <? y)%float = true -> (y <? z)%float = true -> (x <? z)%float = true.
Proof. rewrite !FloatAxioms.ltb_spec. apply SFltb_trans. Qed.

Lemma ltb_incomparable (x y z : float) :
  numeric y ->
  (x <? y)%float = false -> (y <? z)%float = false -> (x <? z)%float = false.
Proof. rewrite numeric_Prim2SF, !FloatAxioms.ltb_spec. apply SFltb_incomparable. Qed.

Lemma leb_ltb_false (x y : float) : (x <=? y)%float = true -> (y <? x)%float = false.
Proof. rewrite FloatAxioms.leb_spec, FloatAxioms.ltb_spec. apply SFleb_SFltb_false. Qed.

Lemma leb_ltb_trans (x y z : float) :
  (x <=? y)%float = true -> (y <? z)%float = true -> (x <? z)%float = true.
Proof. rewrite FloatAxioms.leb_spec, !FloatAxioms.ltb_spec. apply SFleb_SFltb_trans. Qed.

Lemma ltb_leb (x y : float) : (x <? y)%float = true -> (x <=? y)%float = true.
Proof.
  intros H. destruct (ltb_numeric x y H) as [Hx Hy].
  rewrite leb_ltb by assumption.
  destruct (y <? x)%float eqn:Hyx; [ | reflexivity ].
  pose proof (ltb_trans x y x H Hyx) as Hxx. rewrite ltb_irrefl in Hxx. discriminate.
Qed.

(** ** Rounding never produces a NaN *)

Lemma shr_1_nonneg (mrs : shr_record) : 0 <= shr_m mrs -> 0 <= shr_m (shr_1 mrs).
Proof.
  destruct mrs as [m r s]. cbn. intros Hm.
  destruct m as [|p|p]; [ | destruct p | lia ]; cbn; lia.
Qed.

Lemma iter_shr_1_nonneg (p : positive) (mrs : shr_record) :
  0 <= shr_m mrs -> 0 <= shr_m (SpecFloat.iter_pos shr_1 p mrs).
Proof.
  revert mrs. induction p as [p IH|p IH|]; intros mrs Hm; cbn.
  - apply IH, IH, shr_1_nonneg, Hm.
  - apply IH, IH, Hm.
  - apply shr_1_nonneg, Hm.
Qed.

Lemma shr_fexp_nonneg (m e : Z) (l : location) :
  0 <= m -> 0 <= shr_m (fst (shr_fexp prec emax m e l)).
Proof.
  intros Hm. unfold shr_fexp, shr.
  assert (H0 : 0 <= shr_m (shr_record_of_loc m l)).
  { destruct l as [|[]]; exact Hm. }
  destruct (_ - e) as [|p|p]; cbn [fst]; auto using iter_shr_1_nonneg.
Qed.

Lemma round_nearest_even_nonneg (m : Z) (l : location) :
  0 <= m -> 0 <= round_nearest_even m l.
Proof.
  intros Hm. destruct l as [|[]]; cbn; try lia. destruct (Z.even m); lia.
Qed.

Lemma binary_round_aux_not_nan (sx : bool) (mx ex : Z) (lx : location) :
  0 <= mx -> binary_round_aux prec emax sx mx ex lx <> S754_nan.
Proof.
  intros Hm. unfold binary_round_aux.
  pose proof (shr_fexp_nonneg mx ex lx Hm) as H1.
  destruct (shr_fexp prec emax mx ex lx) as [mrs' e']. cbn [fst] in H1.
  pose proof (shr_fexp_nonneg _ e' loc_Exact
                (round_nearest_even_nonneg _ (loc_of_shr_record mrs') H1)) as H2.
  destruct (shr_fexp prec emax _ e' loc_Exact) as [mrs'' e'']. cbn [fst] in H2.
  destruct (shr_m mrs'') as [|p|p]; [ discriminate | | lia ].
  destruct (e'' <=? emax - prec); discriminate.
Qed.

Lemma binary_normalize_not_nan (m e : Z) (szero : bool) :
  binary_normalize prec emax m e szero <> S754_nan.
Proof.
  unfold binary_normalize, binary_round.
  destruct m as [|p|p]; [ discriminate | | ];
    destruct (shl_align _ _ _) as [mz ez]; apply binary_round_aux_not_nan; lia.
Qed.

Lemma finite_Prim2SF (x : float) :
  finite x ->
  (exists s, Prim2SF x = S754_zero s) \/ (exists s m e, Prim2SF x = S754_finite s m e).
Proof.
  unfold finite, is_finite. intros H.
  apply negb_true_iff, orb_false_iff in H. destruct H as [Hnan Hinf].
  assert (Hn : Prim2SF x <> S754_nan) by (apply numeric_Prim2SF, Hnan).
  unfold is_infinity in Hinf. rewrite FloatAxioms.eqb_spec, FloatAxioms.abs_spec in Hinf.
  destruct (Prim2SF x) as [s| s| |s m e]; eauto; [ | congruence ].
  destruct s; discriminate Hinf.
Qed.

Lemma sub_finite_numeric (x y : float) :
  finite x -> finite y -> numeric (x - y)%float.
Proof.
  intros Hx Hy. apply numeric_Prim2SF. rewrite FloatAxioms.sub_spec.
  destruct (finite_Prim2SF x Hx) as [[sx ->]|(sx & mx & ex & ->)],
           (finite_Prim2SF y Hy) as [[sy ->]|(sy & my & ey & ->)]; cbn.
  - destruct sx, sy; discriminate.
  - discriminate.
  - discriminate.
  - apply binary_normalize_not_nan.
Qed.

(** ** Integers *)

Lemma wrap_small (z : Z) : Go.min_int <= z <= Go.max_int -> Go.wrap z = z.
Proof.
  unfold Go.wrap, Go.min_int, Go.max_int. intros H.
  change 0xFFFFFFFFFFFFFFFF with (Z.ones 64).
  rewrite Z.land_ones by lia.
  change (2 ^ 64) with 0x10000000000000000.
  rewrite Z.mod_small; lia.
Qed.

Lemma wrap_small' (z : Z) :
  -9223372036854775808 <= z <= 9223372036854775807 -> Go.wrap z = z.
Proof. apply wrap_small. Qed.

(** ** Loops *)

Section loops.
Context {A S : Type}.
Implicit Types (l : list A) (body : A -> S -> Go.flow S) (s : S).

Lemma for_each_app l1 l2 body s :
  Go.for_each (l1 ++ l2) body s =
  match Go.for_each l1 body s with
  | Go.Next s' => Go.for_each l2 body s'
  | r => r
  end.
Proof.
  revert s. induction l1 as [|x l1 IH]; intros s; cbn; [ reflexivity | ].
  destruct (body x s); auto.
Qed.

(** A loop whose body never leaves is a fold. *)
Lemma for_each_fold l body (step : A -> S -> S) s :
  (forall x s, In x l -> body x s = Go.Next (step x s)) ->
  Go.for_each l body s = Go.Next (fold_left (fun s x => step x s) l s).
Proof.
  revert s. induction l as [|x l IH]; intros s Hbody; cbn; [ reflexivity | ].
  rewrite Hbody by (left; reflexivity). apply IH.
  intros y s' Hy. apply Hbody. right. exact Hy.
Qed.

Lemma for_each_ext l body body' s :
  (forall x s, In x l -> body x s = body' x s) ->
  Go.for_each l body s = Go.for_each l body' s.
Proof.
  revert s. induction l as [|x l IH]; intros s Hbody; cbn; [ reflexivity | ].
  rewrite Hbody by (left; reflexivity).
  destruct (body' x s); auto. apply IH. intros y s' Hy. apply Hbody. right. exact Hy.
Qed.

End loops.

(** A loop that appends what [emit] gives for each element. *)
Lemma for_each_emit {A B} (l : list A) (body : A -> list B -> Go.flow (list B))
    (emit : A -> list B) (out : list B) :
  (forall x out, In x l -> body x out = Go.Next (out ++ emit x)) ->
  Go.for_each l body out = Go.Next (out ++ flat_map emit l).
Proof.
  revert out. induction l as [|x l IH]; intros out Hbody; cbn.
  - rewrite app_nil_r. reflexivity.
  - rewrite Hbody by (left; reflexivity). rewrite IH.
    + rewrite <- app_assoc. reflexivity.
    + intros y out' Hy. apply Hbody. right. exact Hy.
Qed.

Lemma counter_lt (n k hi step i : nat) :
  In i (Go.counter n k hi step) -> (i < hi)%nat.
Proof.
  revert k. induction n as [|n IH]; intros k; cbn [Go.counter]; [ intros [] | ].
  destruct (Nat.ltb_spec k hi); [ | intros [] ].
  intros [<-|Hin]; [ assumption | eapply IH; eassumption ].
Qed.

Lemma range_lt (lo hi step i : nat) : In i (Go.range lo hi step) -> (i < hi)%nat.
Proof. apply counter_lt. Qed.

Lemma counter_spec (step fuel i hi j : nat) :
  (0 < step)%nat -> (hi - i <= fuel)%nat ->
  In j (Go.counter fuel i hi step) <-> exists k, j = (i + k * step)%nat /\ (j < hi)%nat.
Proof.
  intros Hstep. revert i. induction fuel as [|fuel IH]; intros i Hfuel; cbn [Go.counter].
  - split; [ intros [] | intros (k & -> & Hlt); lia ].
  - destruct (Nat.ltb_spec i hi) as [Hlt|Hge].
    + cbn [In]. rewrite IH by lia. split.
      * intros [<-|(k & -> & Hk)]; [ exists 0%nat; lia | exists (S k); lia ].
      * intros ([|k] & -> & Hk); [ left; lia | right; exists k; lia ].
    + split; [ intros [] | intros (k & -> & Hlt); lia ].
Qed.

(** [for i := 0; i < n; i += step] visits the multiples of [step] below
    [n]. *)
Lemma range_stride (step n j : nat) :
  (0 < step)%nat ->
  In j (Go.range 0 n step) <-> exists k, j = (k * step)%nat /\ (j < n)%nat.
Proof. intros Hstep. unfold Go.range. rewrite counter_spec by lia. reflexivity. Qed.

Lemma counter_step1 (n i hi : nat) :
  (n = hi - i)%nat -> Go.counter n i hi 1 = seq i n.
Proof.
  revert i. induction n as [|n IH]; intros i Hn; cbn [Go.counter seq]; [ reflexivity | ].
  destruct (Nat.ltb_spec i hi); [ | lia ].
  rewrite Nat.add_1_r. f_equal. apply IH. lia.
Qed.

(** [for j := lo; j < hi; j++]. *)
Lemma range_step1 (lo hi : nat) : Go.range lo hi 1 = seq lo (hi - lo).
Proof. apply counter_step1. reflexivity. Qed.

Lemma enumerate_from_lookup {A} (l : list A) (k i : nat) (x : A) :
  In (i, x) (Go.enumerate_from k l) <-> (k <= i)%nat /\ l !! (i - k)%nat = Some x.
Proof.
  revert k. induction l as [|y l IH]; intros k; cbn.
  - split; [ tauto | intros [_ H]; discriminate ].
  - rewrite IH. split.
    + intros [Heq|[Hk Hl]].
      * injection Heq as -> ->. rewrite Nat.sub_diag. split; [ lia | reflexivity ].
      * split; [ lia | ]. replace (i - k)%nat with (S (i - S k)) by lia. exact Hl.
    + intros [Hk Hl]. destruct (decide (i = k)) as [->|Hne].
      * rewrite Nat.sub_diag in Hl. injection Hl as ->. left. reflexivity.
      * right. split; [ lia | ].
        replace (i - k)%nat with (S (i - S k)) in Hl by lia. exact Hl.
Qed.

Lemma enumerate_lookup {A} (l : list A) (i : nat) (x : A) :
  In (i, x) (Go.enumerate l) <-> l !! i = Some x.
Proof.
  unfold Go.enumerate. rewrite enumerate_from_lookup, Nat.sub_0_r.
  split; [ tauto | split; [ lia | assumption ] ].
Qed.

Lemma flat_map_ext_in {A B} (f g : A -> list B) (l : list A) :
  (forall x, In x l -> f x = g x) -> flat_map f l = flat_map g l.
Proof.
  induction l as [|x l IH]; intros H; cbn; [ reflexivity | ].
  rewrite H by (left; reflexivity). f_equal. apply IH.
  intros y Hy. apply H. right. exact Hy.
Qed.

Lemma flat_map_enumerate_from {A B} (l : list A) (k : nat) (f : nat -> A -> list B) :
  flat_map (fun '(i, x) => f i x) (Go.enumerate_from k l)
  = flat_map (fun i => match l !! (i - k)%nat with Some x => f i x | None => [] end)
             (seq k (length l)).
Proof.
  revert k. induction l as [|x l IH]; intros k; cbn [Go.enumerate_from length seq flat_map];
    [ reflexivity | ].
  rewrite Nat.sub_diag. cbn [lookup list_lookup]. f_equal. rewrite IH.
  apply flat_map_ext_in. intros i Hi. apply in_seq in Hi.
  replace (i - k)%nat with (S (i - S k)) by lia. reflexivity.
Qed.

Lemma flat_map_enumerate {A B} (l : list A) (f : nat -> A -> list B) :
  flat_map (fun '(i, x) => f i x) (Go.enumerate l)
  = flat_map (fun i => match l !! i with Some x => f i x | None => [] end)
             (seq 0 (length l)).
Proof.
  unfold Go.enumerate. rewrite flat_map_enumerate_from.
  apply flat_map_ext. intros i. rewrite Nat.sub_0_r. reflexivity.
Qed.

(** ** The frequency bands *)

Section bands.
Import fingerprint.

Lemma clamp_le (x maxBin : Z) : (if x >? maxBin then maxBin else x) <= maxBin.
Proof. destruct (Z.gtb_spec x maxBin); lia. Qed.

Lemma getFrequencyBands_clamped (sampleRate windowSize : Z) :
  Forall (fun b => Start b <= Go.sub (Go.div windowSize 2) 1
                   /\ End_ b <= Go.sub (Go.div windowSize 2) 1)
         (getFrequencyBands sampleRate windowSize).
Proof.
  unfold getFrequencyBands.
  apply List.Forall_forall. intros b Hb. apply in_map_iff in Hb.
  destruct Hb as (b0 & <- & _). cbn [Start End_]. split; apply clamp_le.
Qed.

(** C4, as the design document states it: at 44.1 kHz the last band
    would be the bins 186 to 464.  It is not. *)
Lemma band_2000_5000_not_186 :
  ~ (exists b, getFrequencyBands 44100 4096 !! 5%nat = Some b
               /\ Start b = 186 /\ End_ b = 464).
Proof.
  intros (b & Hb & Hs & _). vm_compute in Hb. injection Hb as <-. discriminate Hs.
Qed.

(** C4, amended: at 44.1 kHz with a window of 4096 samples the band
    [2000, 5000) Hz is the bins 185 to 464 ([int(2000 / binSize)] is
    [int(185.76)], and the conversion truncates); and whatever the sample
    rate, no band starts or ends past bin [4096/2 - 1 = 2047]. *)
Theorem band_2000_5000_bins :
  getFrequencyBands 44100 4096 !! 5%nat = Some {| Start := 185; End_ := 464 |}
  /\ Go.int (2000 / (Go.float64 22050 / Go.float64 2048)) = 185
  /\ forall sampleRate,
       Forall (fun b => Start b <= 2047 /\ End_ b <= 2047)
              (getFrequencyBands sampleRate 4096).
Proof.
  split; [ vm_compute; reflexivity | ].
  split; [ vm_compute; reflexivity | ].
  intros sampleRate. apply (getFrequencyBands_clamped sampleRate 4096).
Qed.

Example bands_44100 :
  getFrequencyBands 44100 4096
  = [ {| Start := 3; End_ := 7 |}; {| Start := 7; End_ := 11 |};
      {| Start := 11; End_ := 16 |}; {| Start := 16; End_ := 27 |};
      {| Start := 27; End_ := 185 |}; {| Start := 185; End_ := 464 |} ].
Proof. vm_compute. reflexivity. Qed.

End bands.

(** ** The base encoder *)

Section base_encoder.
Import fingerprint.

Lemma rejected_within_delta (dt : float) :
  numeric dt -> rejected dt = negb (within_delta dt).
Proof.
  intros Hdt. unfold rejected, within_delta.
  change (Go.float64 MIN_HASH_TIME_DELTA) with 0%float.
  change (Go.float64 MAX_HASH_TIME_DELTA) with 2000%float.
  assert (H0 : numeric 0) by reflexivity.
  assert (H2000 : numeric 2000) by reflexivity.
  rewrite (leb_ltb dt 0), (leb_ltb dt 2000) by assumption.
  destruct (0 <? dt)%float, (2000 <? dt)%float; reflexivity.
Qed.

Lemma generateFingerprintsWithTolerance_emitted (peaks : list Peak) (mt : bool) :
  generateFingerprintsWithTolerance peaks mt
  = Some (flat_map (fun i => flat_map (emitted peaks i) (targets (length peaks) i))
                   (seq 0 (length peaks))).
Proof.
  unfold generateFingerprintsWithTolerance.
  rewrite (for_each_emit _ _
             (fun '(i, _) => flat_map (emitted peaks i) (targets (length peaks) i))).
  - cbn [Go.result app]. f_equal.
    rewrite (flat_map_enumerate peaks (fun i _ => flat_map (emitted peaks i) _)).
    apply flat_map_ext_in. intros i Hi. apply in_seq in Hi.
    destruct (lookup_lt_is_Some_2 peaks i) as [x ->]; [ lia | reflexivity ].
  - intros [i anchor] out Hi. apply enumerate_lookup in Hi.
    rewrite range_step1. apply for_each_emit.
    intros j out' Hj. apply in_seq in Hj.
    destruct (lookup_lt_is_Some_2 peaks j) as [target Ht]; [ lia | ].
    unfold emitted. rewrite Hi, Ht.
    destruct (rejected _); [ rewrite app_nil_r | ]; reflexivity.
Qed.

Lemma emitted_pair_tokens (peaks : list Peak) (i j : nat) :
  Forall (fun p => finite (TimeMS p)) peaks ->
  emitted peaks i j = pair_tokens peaks i j.
Proof.
  intros Hfin. unfold emitted, pair_tokens.
  destruct (peaks !! i) as [anchor|] eqn:Hi; [ | reflexivity ].
  destruct (peaks !! j) as [target|] eqn:Hj; [ | reflexivity ].
  rewrite List.Forall_forall in Hfin.
  rewrite rejected_within_delta.
  - destruct (within_delta _); reflexivity.
  - apply sub_finite_numeric; apply Hfin; eapply list_elem_of_In, list_elem_of_lookup_2; eassumption.
Qed.

Lemma encode_spec_emitted (peaks : list Peak) :
  Forall (fun p => finite (TimeMS p)) peaks ->
  flat_map (fun i => flat_map (emitted peaks i) (targets (length peaks) i))
           (seq 0 (length peaks))
  = encode_spec peaks.
Proof.
  intros Hfin. unfold encode_spec, targets.
  apply flat_map_ext. intros i. apply flat_map_ext. intros j.
  apply emitted_pair_tokens, Hfin.
Qed.

End base_encoder.

(** ** The hash format *)

Lemma length_string_of_list_ascii (l : list ascii) :
  String.length (string_of_list_ascii l) = length l.
Proof. induction l as [|c l IH]; cbn; [ reflexivity | rewrite IH; reflexivity ]. Qed.

Lemma hexdigit_in_table (n : Z) : In (Go.hexdigit n) Go.hextable.
Proof.
  unfold Go.hexdigit.
  destruct (nth_in_or_default (Z.to_nat n) Go.hextable "0"%char) as [H| ->];
    [ exact H | left; reflexivity ].
Qed.

Lemma EncodeToString_length (bs : list Z) :
  String.length (Go.EncodeToString bs) = (2 * length bs)%nat.
Proof.
  unfold Go.EncodeToString. rewrite length_string_of_list_ascii.
  induction bs as [|b bs IH]; cbn [flat_map length app]; [ reflexivity | ].
  rewrite IH. lia.
Qed.

Lemma EncodeToString_lower_hex (bs : list Z) : lower_hex (Go.EncodeToString bs).
Proof.
  unfold lower_hex, Go.EncodeToString.
  rewrite list_ascii_of_string_of_list_ascii.
  induction bs as [|b bs IH]; cbn [flat_map app]; [ constructor | ].
  repeat (constructor; [ apply hexdigit_in_table | ]). exact IH.
Qed.

Lemma sha1_Sum_length (msg : list Z) : length (sha1.Sum msg) = 20%nat.
Proof.
  unfold sha1.Sum.
  destruct (fold_left sha1.block _ sha1.init) as [[[[h0 h1] h2] h3] h4].
  reflexivity.
Qed.

Lemma sha1_hex_length (s : string) : String.length (sha1.hex s) = 40%nat.
Proof. unfold sha1.hex. rewrite EncodeToString_length, sha1_Sum_length. reflexivity. Qed.

Lemma sha1_hex_lower_hex (s : string) : lower_hex (sha1.hex s).
Proof. apply EncodeToString_lower_hex. Qed.

(** The test vectors of FIPS 180: the empty message, one block, two
    blocks. *)
Example sha1_hex_empty : sha1.hex "" = "da39a3ee5e6b4b0d3255bfef95601890afd80709"%string.
Proof. vm_compute. reflexivity. Qed.

Example sha1_hex_abc : sha1.hex "abc" = "a9993e364706816aba3e25717850c26c9cd0d89d"%string.
Proof. vm_compute. reflexivity. Qed.

Example sha1_hex_two_blocks :
  sha1.hex "abcdbcdecdefdefgefghfghighijhijkijkljklmklmnlmnomnopnopq"
  = "84983e441c3bd26ebaae4aa1f95129e5e54670f1"%string.
Proof. vm_compute. reflexivity. Qed.

Example fmt_d_negative : Go.fmt_d (-12) = "-12"%string /\ Go.fmt_d 0 = "0"%string.
Proof. split; reflexivity. Qed.

Example int_truncates :
  Go.int 789.9 = 789 /\ Go.int (-3.7) = -3 /\ Go.int 0.5 = 0 /\ Go.int 2000 = 2000.
Proof. vm_compute. repeat split. Qed.

Section base_encoder_claims.
Import fingerprint.

Lemma in_emitted (peaks : list Peak) (i j : nat) (fp : Fingerprint) :
  In fp (emitted peaks i j) <->
  exists anchor target,
    peaks !! i = Some anchor /\ peaks !! j = Some target
    /\ rejected (TimeMS target - TimeMS anchor)%float = false
    /\ fp = token anchor target.
Proof.
  unfold emitted. split.
  - destruct (peaks !! i) as [anchor|]; [ | intros [] ].
    destruct (peaks !! j) as [target|]; [ | intros [] ].
    destruct (rejected _) eqn:Hr; [ intros [] | ].
    intros [<-|[]]. exists anchor, target. auto.
  - intros (anchor & target & -> & -> & -> & ->). left. reflexivity.
Qed.

Lemma in_targets (n i j : nat) :
  In j (targets n i) <-> (i < j)%nat /\ (j < Nat.min (i + 15) n)%nat.
Proof. unfold targets. rewrite in_seq. lia. Qed.

(** C1: the base encoder returns, and every token it returns comes from
    an anchor and a target of the peak list that passed the time test:
    its hash is the SHA-1 of the bytes of
    ["<anchor bin>|<target bin>|<int(dt)>"], forty lower-case hexadecimal
    digits, and its offset is [int(anchor.TimeMS)]; every pair the loops
    visit and the time test lets through has its token in the output; and
    for bins 123 and 456 with [int(dt) = 789] the hash is that of
    ["123|456|789"]. *)
Theorem base_encoder_hash (peaks : list Peak) (microphoneTolerance : bool) :
  exists fingerprints,
    generateFingerprintsWithTolerance peaks microphoneTolerance = Some fingerprints
    /\ (forall fp, In fp fingerprints ->
          exists anchor target,
            In anchor peaks /\ In target peaks
            /\ rejected (TimeMS target - TimeMS anchor)%float = false
            /\ Hash fp = Go.EncodeToString (sha1.Sum (Go.bytes
                 (Go.fmt_d (FreqBin anchor) ++ "|" ++ Go.fmt_d (FreqBin target) ++ "|"
                    ++ Go.fmt_d (Go.int (TimeMS target - TimeMS anchor)%float))%string))
            /\ Offset fp = Go.int (TimeMS anchor)
            /\ String.length (Hash fp) = 40%nat
            /\ lower_hex (Hash fp))
    /\ (forall i j anchor target,
          peaks !! i = Some anchor -> peaks !! j = Some target ->
          (i < j)%nat -> (j < Nat.min (i + FAN_VALUE) (length peaks))%nat ->
          rejected (TimeMS target - TimeMS anchor)%float = false ->
          In (token anchor target) fingerprints)
    /\ (forall anchor target,
          FreqBin anchor = 123 -> FreqBin target = 456 ->
          Go.int (TimeMS target - TimeMS anchor)%float = 789 ->
          Hash (token anchor target) = sha1.hex "123|456|789"
          /\ sha1.hex "123|456|789" = "55edacfdd455a9de649d0aa903569ebb79202426"%string).
Proof.
  eexists. split; [ apply generateFingerprintsWithTolerance_emitted | ].
  split; [ | split ].
  - intros fp Hfp. apply in_flat_map in Hfp. destruct Hfp as (i & _ & Hfp).
    apply in_flat_map in Hfp. destruct Hfp as (j & _ & Hfp).
    apply in_emitted in Hfp. destruct Hfp as (anchor & target & Hi & Hj & Hr & ->).
    exists anchor, target.
    split; [ eapply list_elem_of_In, list_elem_of_lookup_2; eassumption | ].
    split; [ eapply list_elem_of_In, list_elem_of_lookup_2; eassumption | ].
    split; [ exact Hr | ].
    split; [ reflexivity | ].
    split; [ reflexivity | ].
    split; [ apply sha1_hex_length | apply sha1_hex_lower_hex ].
  - intros i j anchor target Hi Hj Hij Hj' Hr.
    apply in_flat_map. exists i. split.
    { apply in_seq. apply lookup_lt_Some in Hi. lia. }
    apply in_flat_map. exists j. split.
    { apply in_targets. split; assumption. }
    apply in_emitted. exists anchor, target. auto.
  - intros anchor target Ha Ht Hdt. split; [ | vm_compute; reflexivity ].
    unfold token, hashInput. cbn [Hash]. rewrite Ha, Ht, Hdt. reflexivity.
Qed.

(** C6: on peaks with finite times the base encoder returns exactly the
    tokens of the pairs [(i, j)] with [i + 1 <= j <= min(i + 15, n) - 1]
    and [0 < dt <= 2000], in the order of the two loops; so every token
    returned comes from an anchor [peaks[i]] and a target [peaks[j]] with
    [i < j], [j] within that range and [0 < dt <= 2000]. *)
Theorem base_encoder_pairs (peaks : list Peak) (microphoneTolerance : bool) :
  Forall (fun p => finite (TimeMS p)) peaks ->
  generateFingerprintsWithTolerance peaks microphoneTolerance = Some (encode_spec peaks)
  /\ FAN_VALUE = 15%nat
  /\ forall fp, In fp (encode_spec peaks) ->
       exists i j anchor target,
         peaks !! i = Some anchor /\ peaks !! j = Some target
         /\ (i < j)%nat
         /\ (i + 1 <= j <= Nat.min (i + 15) (length peaks) - 1)%nat
         /\ (0 <? TimeMS target - TimeMS anchor)%float = true
         /\ (TimeMS target - TimeMS anchor <=? 2000)%float = true
         /\ fp = token anchor target.
Proof.
  intros Hfin. split; [ | split; [ reflexivity | ] ].
  - rewrite generateFingerprintsWithTolerance_emitted, encode_spec_emitted by exact Hfin.
    reflexivity.
  - intros fp Hfp. unfold encode_spec in Hfp.
    apply in_flat_map in Hfp. destruct Hfp as (i & _ & Hfp).
    apply in_flat_map in Hfp. destruct Hfp as (j & Hj & Hfp).
    apply in_seq in Hj. unfold pair_tokens in Hfp.
    destruct (peaks !! i) as [anchor|] eqn:Hi; [ | destruct Hfp ].
    destruct (peaks !! j) as [target|] eqn:Hj'; [ | destruct Hfp ].
    destruct (within_delta _) eqn:Hw; [ | destruct Hfp ].
    destruct Hfp as [<-|[]]. apply andb_true_iff in Hw. destruct Hw as [Hlo Hhi].
    exists i, j, anchor, target. repeat split; try assumption; lia.
Qed.

Lemma base_encoder_pairs_witness :
  generateFingerprintsWithTolerance example_peaks false
  = Some (encode_spec example_peaks)
  /\ encode_spec example_peaks
     = [ {| Hash := "55edacfdd455a9de649d0aa903569ebb79202426"; SongID := 0; Offset := 0 |} ].
Proof.
  split.
  - apply (base_encoder_pairs example_peaks false). repeat constructor.
  - vm_compute. reflexivity.
Defined.

End base_encoder_claims.

(** ** The tolerance encoder *)

Section tolerance_encoder.
Import fingerprint.

Lemma for_each_capped {A B} (cap : nat) (l : list A)
    (body : A -> list B * Z -> Go.flow (list B * Z)) (emit : A -> list B) :
  (forall x out, In x l -> (length out <= cap)%nat ->
     body x (out, Z.of_nat (length out)) = capped cap (out ++ emit x)) ->
  forall out, (length out <= cap)%nat ->
    Go.for_each l body (out, Z.of_nat (length out)) = capped cap (out ++ flat_map emit l).
Proof.
  induction l as [|x l IH]; intros Hbody out Hout; cbn [Go.for_each flat_map].
  - rewrite app_nil_r. unfold capped.
    destruct (Nat.leb_spec (length out) cap); [ reflexivity | lia ].
  - rewrite Hbody by (auto; left; reflexivity).
    unfold capped at 1.
    destruct (Nat.leb_spec (length (out ++ emit x)) cap) as [Hle|Hgt].
    + rewrite IH; auto.
      * rewrite <- app_assoc. reflexivity.
      * intros y out' Hy. apply Hbody. right. exact Hy.
    + unfold capped. rewrite app_assoc.
      destruct (Nat.leb_spec (length ((out ++ emit x) ++ flat_map emit l)) cap) as [Hle'|_].
      * rewrite length_app in Hle'. lia.
      * rewrite (take_app_le (out ++ emit x)) by lia. reflexivity.
Qed.

Lemma tolerance_body_capped (anchor target : Peak) (out : list Fingerprint) :
  (length out <= Z.to_nat 10000)%nat ->
  Go.for_each [(-1, 0); (1, 0); (0, -1); (0, 1)]
    (fun (tol : Z * Z) '(fingerprints, processed) =>
       let anchorBin := Go.add (FreqBin anchor) (fst tol) in
       let targetBin := Go.add (FreqBin target) (snd tol) in
       if (anchorBin <? 0) || (targetBin <? 0)
          || (anchorBin >? 2048) || (targetBin >? 2048)
       then Go.Next (fingerprints, processed)
       else
         let hashStr :=
           sha1.hex (hashInput anchorBin targetBin (TimeMS target - TimeMS anchor)%float) in
         let fingerprints :=
           fingerprints ++ [ {| Hash := hashStr; SongID := 0;
                                Offset := Go.int (TimeMS anchor) |} ] in
         let processed := Go.add processed 1 in
         if processed >? 10000
         then Go.Return (fingerprints, processed)
         else Go.Next (fingerprints, processed))
    (out, Z.of_nat (length out))
  = capped (Z.to_nat 10000) (out ++ perturbed_tokens anchor target).
Proof.
  intros Hout. unfold perturbed_tokens. apply for_each_capped; [ | exact Hout ].
  clear out Hout. intros tol out _ Hout. cbv zeta.
  destruct (_ || _).
  - rewrite app_nil_r. unfold capped.
    destruct (Nat.leb_spec (length out) (Z.to_nat 10000)); [ reflexivity | lia ].
  - assert (Hadd : Go.add (Z.of_nat (length out)) 1 = Z.of_nat (S (length out))).
    { unfold Go.add. rewrite wrap_small'; lia. }
    rewrite Hadd. unfold capped. rewrite length_app. cbn [length].
    rewrite Nat.add_1_r.
    destruct (Z.gtb_spec (Z.of_nat (S (length out))) 10000) as [Hgt|Hle].
    + destruct (Nat.leb_spec (S (length out)) (Z.to_nat 10000)); [ lia | ].
      assert (Hlen : length out = Z.to_nat 10000) by lia.
      rewrite take_ge by (rewrite length_app; cbn [length]; lia).
      rewrite Hlen. reflexivity.
    + destruct (Nat.leb_spec (S (length out)) (Z.to_nat 10000)); [ reflexivity | lia ].
Qed.

(** The encoder returns the first 10001 tokens of the uncapped stream. *)
Lemma generateFingerprintsWithMinimalTolerance_stream (peaks : list Peak) :
  generateFingerprintsWithMinimalTolerance peaks
  = Some (take (Z.to_nat 10001) (tolerance_stream peaks)).
Proof.
  unfold generateFingerprintsWithMinimalTolerance. cbv zeta.
  change (@nil Fingerprint, 0) with (@nil Fingerprint, Z.of_nat (length (@nil Fingerprint))).
  rewrite (for_each_capped (Z.to_nat 10000) _ _
             (fun i => flat_map (perturbed peaks i) (targets (length peaks) i))).
  - change ([] ++ ?l) with l. fold (tolerance_stream peaks). unfold capped.
    destruct (Nat.leb_spec (length (tolerance_stream peaks)) (Z.to_nat 10000)).
    + cbn. rewrite take_ge by lia. reflexivity.
    + reflexivity.
  - intros i out Hi Hout.
    assert (Hlt : (i < length peaks)%nat) by (eapply range_lt; eassumption).
    destruct (lookup_lt_is_Some_2 peaks i Hlt) as [anchor Ha]. rewrite Ha.
    rewrite range_step1. apply for_each_capped; [ | exact Hout ].
    intros j out' Hj Hout'. apply in_seq in Hj.
    destruct (lookup_lt_is_Some_2 peaks j) as [target Ht]; [ lia | ].
    rewrite Ht. unfold perturbed. rewrite Ha, Ht.
    destruct (rejected _).
    + rewrite app_nil_r. unfold capped.
      destruct (Nat.leb_spec (length out') (Z.to_nat 10000)); [ reflexivity | lia ].
    + apply tolerance_body_capped, Hout'.
  - cbn. lia.
Qed.

Lemma length_flat_map {A B} (f : A -> list B) (l : list A) :
  length (flat_map f l) = list_sum (map (fun x => length (f x)) l).
Proof.
  induction l as [|x l IH]; cbn; [ reflexivity | ].
  rewrite length_app, IH. reflexivity.
Qed.

Lemma tolerance_stream_length (peaks : list Peak) :
  length (tolerance_stream peaks) = tolerance_count peaks.
Proof.
  unfold tolerance_stream, tolerance_count. rewrite length_flat_map.
  f_equal. apply map_ext. intros i. rewrite length_flat_map.
  f_equal. apply map_ext. intros j. unfold perturbed, perturbed_count.
  destruct (peaks !! i) as [anchor|]; [ | reflexivity ].
  destruct (peaks !! j) as [target|]; [ | reflexivity ].
  destruct (rejected _); [ reflexivity | ].
  unfold perturbed_tokens. rewrite length_flat_map.
  f_equal. apply map_ext. intros tol. cbv zeta.
  destruct (_ || _); reflexivity.
Qed.

(** [PickPeaks] finds the 960 tones of the busy recording, and the
    three loops would append 10476 tokens for them. *)
Lemma tolerance_count_busy :
  (peaks ← PickPeaks fst busy_spectrogram 44100;
   Some (Z.of_nat (length peaks), Z.of_nat (tolerance_count peaks)))
  = Some (960, 10476).
Proof. vm_compute. reflexivity. Qed.

(** C3, the cap: the tolerance encoder returns the first 10001 tokens of
    what its three loops (anchors with stride 4, the targets of the
    window, the four perturbations within [0, 2048]) would append, and on
    the 960 peaks [PickPeaks] finds in a busy recording of 160 frames it
    does return 10001 tokens, one more than the 10 000 the design
    document allows: the count is compared with [processed > 10000]
    after the token has been appended. *)
Theorem tolerance_encoder_exceeds_cap :
  (forall peaks,
     generateFingerprintsWithMinimalTolerance peaks
     = Some (take (Z.to_nat 10001) (tolerance_stream peaks)))
  /\ exists peaks fingerprints,
       PickPeaks fst busy_spectrogram 44100 = Some peaks
       /\ length peaks = 960%nat
       /\ generateFingerprintsWithMinimalTolerance peaks = Some fingerprints
       /\ Z.of_nat (length fingerprints) = 10001.
Proof.
  split; [ apply generateFingerprintsWithMinimalTolerance_stream | ].
  pose proof tolerance_count_busy as Hbusy.
  destruct (PickPeaks fst busy_spectrogram 44100) as [peaks|]; [ | discriminate ].
  cbn [mbind option_bind] in Hbusy. injection Hbusy as Hpeaks Hcount.
  exists peaks. eexists. split; [ reflexivity | ]. split; [ lia | ].
  split; [ apply generateFingerprintsWithMinimalTolerance_stream | ].
  rewrite length_take, tolerance_stream_length. lia.
Qed.

End tolerance_encoder.

(** ** The capture buffer *)

Lemma slice_in_range {A} (l : list A) (lo hi : Z) :
  0 <= lo <= hi -> hi <= Z.of_nat (length l) ->
  Go.slice l lo hi = Some (take (Z.to_nat (hi - lo)) (drop (Z.to_nat lo) l)).
Proof.
  intros [Hlo Hhi] Hlen. unfold Go.slice.
  destruct (Z.leb_spec 0 lo); [ | lia ].
  destruct (Z.leb_spec lo hi); [ | lia ].
  destruct (Z.leb_spec hi (Z.of_nat (length l))); [ reflexivity | lia ].
Qed.

(** [if len(l) > n { l = l[:n] }]. *)
Lemma slice_prefix {A} (l : list A) (n : Z) :
  0 <= n ->
  (if Z.of_nat (length l) >? n then Go.slice l 0 n else Some l)
  = Some (take (Z.to_nat n) l).
Proof.
  intros Hn. destruct (Z.gtb_spec (Z.of_nat (length l)) n) as [Hgt|Hle].
  - rewrite slice_in_range by lia.
    rewrite Z.sub_0_r. change (Z.to_nat 0) with 0%nat. rewrite drop_0. reflexivity.
  - rewrite take_ge by lia. reflexivity.
Qed.

Lemma most_recent_app {A} (n : nat) (h l : list A) :
  most_recent n (most_recent n h ++ l) = most_recent n (h ++ l).
Proof.
  unfold most_recent. rewrite !length_app, length_drop.
  destruct (Nat.le_gt_cases (length h) n) as [Hle|Hgt].
  - replace (length h - n)%nat with 0%nat by lia. cbn [drop].
    rewrite Nat.sub_0_r. reflexivity.
  - replace (length h + length l - n)%nat
      with ((length h - n) + (length h - (length h - n) + length l - n))%nat by lia.
    rewrite <- drop_drop. rewrite (drop_app_le h) by lia. reflexivity.
Qed.

Lemma most_recent_length {A} (n : nat) (l : list A) :
  (length (most_recent n l) <= n)%nat.
Proof. unfold most_recent. rewrite length_drop. lia. Qed.

Section capture.
Import microphone.

Lemma audioCallback_most_recent (mr : MicrophoneRecorder) (in_ : list float) :
  sampleRate mr = 44100 ->
  in_ <> [] ->
  Z.of_nat (length in_) + Z.of_nat (length (audioBuffer mr)) <= Go.max_int ->
  exists segments,
    audioCallback mr in_
    = Some (set_audioBuffer mr (most_recent (Z.to_nat 441000) (audioBuffer mr ++ in_)),
            segments).
Proof.
  intros Hsr Hin Hlen. unfold audioCallback.
  destruct in_ as [|x in_]; [ congruence | ]. cbn [length Nat.eqb].
  set (buf := audioBuffer mr ++ x :: in_) in *.
  assert (Hbuf : 0 <= Z.of_nat (length buf) <= Go.max_int).
  { subst buf. rewrite length_app. cbn [length] in *. lia. }
  unfold Go.max_int in Hbuf.
  rewrite Hsr. change (Go.mul 44100 10) with 441000.
  assert (Hkeep :
    (if Z.of_nat (length buf) >? 441000
     then recent ← Go.slice buf (Go.sub (Z.of_nat (length buf)) 441000)
                     (Z.of_nat (length buf));
          Go.slice (Go.copy buf recent) 0 441000
     else Some buf)
    = Some (most_recent (Z.to_nat 441000) buf)).
  { unfold most_recent.
    destruct (Z.gtb_spec (Z.of_nat (length buf)) 441000) as [Hgt|Hle].
    - unfold Go.sub. rewrite wrap_small' by lia.
      rewrite slice_in_range by lia. cbn [mbind option_bind].
      replace (Z.to_nat (Z.of_nat (length buf) - (Z.of_nat (length buf) - 441000)))
        with (Z.to_nat 441000) by lia.
      replace (Z.to_nat (Z.of_nat (length buf) - 441000))
        with (length buf - Z.to_nat 441000)%nat by lia.
      set (recent := drop (length buf - Z.to_nat 441000) buf).
      assert (Hrecent : length recent = Z.to_nat 441000).
      { subst recent. rewrite length_drop. lia. }
      rewrite (take_ge recent) by lia.
      unfold Go.copy. rewrite Hrecent.
      replace (Nat.min (length buf) (Z.to_nat 441000)) with (length recent) by lia.
      rewrite take_ge by lia.
      rewrite slice_in_range by (rewrite ?length_app; lia).
      rewrite Z.sub_0_r. change (Z.to_nat 0) with 0%nat.
      rewrite drop_0, <- Hrecent, take_app_length. reflexivity.
    - replace (length buf - Z.to_nat 441000)%nat with 0%nat by lia. reflexivity. }
  rewrite Hkeep. cbn [mbind option_bind sampleRate set_audioBuffer].
  rewrite Hsr. change (Go.mul 44100 BUFFER_DURATION) with 220500.
  set (kept := most_recent (Z.to_nat 441000) buf).
  destruct (Z.of_nat (length kept) >=? 220500) eqn:Hreq; [ | eauto ].
  apply Z.geb_le in Hreq.
  assert (Hkept : Z.of_nat (length kept) <= Z.of_nat (length buf)).
  { subst kept. unfold most_recent. rewrite length_drop. lia. }
  unfold make. cbn [Z.ltb Z.compare mbind option_bind].
  unfold Go.sub. rewrite wrap_small' by lia.
  rewrite slice_in_range by lia. eauto.
Qed.

Lemma capture_most_recent (ins : list (list float)) (mr : MicrophoneRecorder)
    (history : list float) :
  Forall (fun in_ => Z.of_nat (length in_) <= Go.max_int - 441000) ins ->
  sampleRate mr = 44100 ->
  audioBuffer mr = most_recent (Z.to_nat 441000) history ->
  exists mr',
    capture mr ins = Some mr'
    /\ sampleRate mr' = 44100
    /\ audioBuffer mr' = most_recent (Z.to_nat 441000) (history ++ concat ins).
Proof.
  revert mr history. induction ins as [|in_ ins IH]; intros mr history Hins Hsr Hbuf.
  - exists mr. cbn [capture concat]. rewrite app_nil_r. auto.
  - apply Forall_cons in Hins. destruct Hins as [Hin Hins]. cbn [capture concat].
    destruct in_ as [|x in_].
    + cbn [audioCallback length Nat.eqb app]. apply IH; assumption.
    + destruct (audioCallback_most_recent mr (x :: in_)) as [segments ->];
        [ assumption | discriminate | | ].
      * pose proof (most_recent_length (Z.to_nat 441000) history) as Hlen.
        rewrite Hbuf. unfold Go.max_int in *. lia.
      * rewrite app_assoc. apply IH; [ assumption | assumption | ].
        cbn [audioBuffer set_audioBuffer]. rewrite Hbuf. apply most_recent_app.
Qed.

(** C9: whatever buffers the driver delivers, after the callbacks of a
    capture session the recorder's buffer is the most recent 441 000
    samples of all that was delivered (ten seconds at 44.1 kHz), or all of
    it when there is less: only the oldest samples are gone. *)
Theorem capture_buffer_bounded (ins : list (list float)) :
  Forall (fun in_ => Z.of_nat (length in_) <= Go.max_int - 441000) ins ->
  exists mr,
    capture NewMicrophoneRecorder ins = Some mr
    /\ audioBuffer mr = most_recent (Z.to_nat 441000) (concat ins)
    /\ Z.of_nat (length (audioBuffer mr)) <= 441000
    /\ 441000 = SAMPLE_RATE * RECORDING_DURATION.
Proof.
  intros Hins.
  destruct (capture_most_recent ins NewMicrophoneRecorder [] Hins)
    as (mr & Hmr & _ & Hbuf); [ reflexivity | reflexivity | ].
  exists mr. cbn [app] in Hbuf. repeat split; [ assumption | assumption | ].
  rewrite Hbuf. pose proof (most_recent_length (Z.to_nat 441000) (concat ins)). lia.
Qed.

Lemma capture_buffer_bounded_witness :
  exists mr,
    capture NewMicrophoneRecorder example_capture = Some mr
    /\ audioBuffer mr = most_recent (Z.to_nat 441000) (concat example_capture)
    /\ Z.of_nat (length (audioBuffer mr)) <= 441000
    /\ 441000 = SAMPLE_RATE * RECORDING_DURATION.
Proof.
  apply (capture_buffer_bounded example_capture).
  repeat constructor; vm_compute; discriminate.
Defined.

End capture.

(** ** Recognition of a file *)

Section recognize.
Import eureka.

Lemma kept_samples (w : WavInfo) :
  0 <= SampleRate w < 2 ^ 32 ->
  (if Z.of_nat (length (Samples w)) >? Go.mul (SampleRate w) 30
   then Go.slice (Samples w) 0 (Go.mul (SampleRate w) 30)
   else Some (Samples w))
  = Some (first_30_seconds w).
Proof.
  change (2 ^ 32) with 4294967296. intros Hsr. unfold first_30_seconds, Go.mul.
  rewrite wrap_small' by lia. apply slice_prefix. lia.
Qed.

Lemma Recognize_same_prefix (rt : Go.Runtime) (dec : Decoder)
    (db : database.Database) (audioPath : string)
    (read : string -> Go.fallible WavInfo) :
  (forall path, same_first_30_seconds (ReadWavInfo dec path) (read path)) ->
  Recognize rt dec db audioPath = Recognize rt (with_ReadWavInfo dec read) db audioPath.
Proof.
  intros Hread. unfold Recognize, with_ReadWavInfo.
  cbn [ConvertToWAV ReadWavInfo SamplesToSpectrogram Abs].
  destruct (ConvertToWAV dec audioPath _) as [filePath|e]; [ | reflexivity ].
  specialize (Hread filePath). unfold same_first_30_seconds in Hread.
  destruct (ReadWavInfo dec filePath) as [w|e], (read filePath) as [w'|e'];
    try contradiction; [ | congruence ].
  destruct Hread as (Hrate & Hrange & Hfirst).
  rewrite (kept_samples w) by assumption.
  rewrite (kept_samples w') by (rewrite <- Hrate; assumption).
  rewrite Hfirst, Hrate. reflexivity.
Qed.

(** The file may as well be cut to its first thirty seconds beforehand. *)
Lemma Recognize_truncated (rt : Go.Runtime) (dec : Decoder)
    (db : database.Database) (audioPath : string) :
  (forall path w, ReadWavInfo dec path = Go.Ok w -> 0 <= SampleRate w < 2 ^ 32) ->
  Recognize rt dec db audioPath
  = Recognize rt (with_ReadWavInfo dec (fun path => truncated (ReadWavInfo dec path)))
      db audioPath.
Proof.
  intros Hrate. apply Recognize_same_prefix. intros path.
  unfold same_first_30_seconds, truncated.
  destruct (ReadWavInfo dec path) as [w|e] eqn:Hw; [ | reflexivity ].
  cbn [SampleRate]. repeat split; try (eapply Hrate; eassumption).
  unfold first_30_seconds. cbn [Samples SampleRate].
  rewrite take_take, Nat.min_id. reflexivity.
Qed.

(** What reaches the spectrogram routine: the first thirty seconds. *)
Lemma Recognize_pipeline (rt : Go.Runtime) (dec : Decoder)
    (db : database.Database) (audioPath filePath : string) (w : WavInfo) :
  ConvertToWAV dec audioPath "recognize_output.wav" = Go.Ok filePath ->
  ReadWavInfo dec filePath = Go.Ok w ->
  0 <= SampleRate w < 2 ^ 32 ->
  Recognize rt dec db audioPath
  = recognize_samples rt dec db (first_30_seconds w) (SampleRate w).
Proof.
  intros Hconvert Hread Hrate. unfold Recognize. rewrite Hconvert, Hread.
  cbv zeta. rewrite (kept_samples w Hrate). reflexivity.
Qed.

Lemma first_30_seconds_length (w : WavInfo) :
  Z.of_nat (length (first_30_seconds w))
  = Z.min (Z.of_nat (length (Samples w))) (Z.max 0 (SampleRate w * 30)).
Proof. unfold first_30_seconds. rewrite length_take. lia. Qed.

(** C10: [Recognize] hands to the spectrogram routine the first
    [30 * SampleRate] samples of the decoded file and nothing else: its
    result is that of the rest of the pipeline (spectrogram, peaks,
    fingerprints, matcher) on those samples, which are all the samples
    of a file of thirty seconds or less and the first [30 * SampleRate]
    of a longer one.  So [Recognize] gives the same result (matches,
    error and calls to the store alike) on two decodings of a file that
    agree on the sample rate and on the first [30 * SampleRate] samples,
    and the same as on the file cut to those samples. *)
Theorem Recognize_first_30_seconds (rt : Go.Runtime) (dec : Decoder)
    (db : database.Database) (audioPath : string)
    (read : string -> Go.fallible WavInfo) :
  (forall path, same_first_30_seconds (ReadWavInfo dec path) (read path)) ->
  (forall filePath w,
     ConvertToWAV dec audioPath "recognize_output.wav" = Go.Ok filePath ->
     ReadWavInfo dec filePath = Go.Ok w ->
     Recognize rt dec db audioPath
     = recognize_samples rt dec db (first_30_seconds w) (SampleRate w)
     /\ (exists rest, Samples w = first_30_seconds w ++ rest)
     /\ Z.of_nat (length (first_30_seconds w))
        = Z.min (Z.of_nat (length (Samples w))) (SampleRate w * 30)
     /\ (Z.of_nat (length (Samples w)) <= SampleRate w * 30 ->
         first_30_seconds w = Samples w))
  /\ Recognize rt dec db audioPath = Recognize rt (with_ReadWavInfo dec read) db audioPath
  /\ Recognize rt dec db audioPath
     = Recognize rt (with_ReadWavInfo dec (fun path => truncated (ReadWavInfo dec path)))
         db audioPath.
Proof.
  intros Hread.
  assert (Hrate : forall path w,
            ReadWavInfo dec path = Go.Ok w -> 0 <= SampleRate w < 2 ^ 32).
  { intros path w Hw. specialize (Hread path). rewrite Hw in Hread.
    unfold same_first_30_seconds in Hread.
    destruct (read path); [ apply Hread | contradiction ]. }
  split; [ | split; [ apply Recognize_same_prefix, Hread | apply Recognize_truncated, Hrate ] ].
  intros filePath w Hconvert Hw. pose proof (Hrate filePath w Hw) as Hw32.
  split; [ apply (Recognize_pipeline rt dec db audioPath filePath w); assumption | ].
  split.
  { exists (drop (Z.to_nat (SampleRate w * 30)) (Samples w)).
    unfold first_30_seconds. symmetry. apply take_drop. }
  split; [ rewrite first_30_seconds_length; lia | ].
  intros Hshort. unfold first_30_seconds. apply take_ge. lia.
Qed.

Lemma tone_wav_first_30_seconds :
  first_30_seconds tone_wav = repeat 1%float (Z.to_nat 1323000).
Proof.
  unfold first_30_seconds, tone_wav. cbn [Samples SampleRate].
  change (44100 * 30) with 1323000.
  apply take_app_length'. rewrite repeat_length. reflexivity.
Qed.

Lemma Recognize_first_30_seconds_witness :
  (forall filePath w,
     ConvertToWAV tone_decoder "song.mp3" "recognize_output.wav" = Go.Ok filePath ->
     ReadWavInfo tone_decoder filePath = Go.Ok w ->
     Recognize Go.reference tone_decoder example_store "song.mp3"
     = recognize_samples Go.reference tone_decoder example_store
         (first_30_seconds w) (SampleRate w)
     /\ (exists rest, Samples w = first_30_seconds w ++ rest)
     /\ Z.of_nat (length (first_30_seconds w))
        = Z.min (Z.of_nat (length (Samples w))) (SampleRate w * 30)
     /\ (Z.of_nat (length (Samples w)) <= SampleRate w * 30 ->
         first_30_seconds w = Samples w))
  /\ Recognize Go.reference tone_decoder example_store "song.mp3"
     = Recognize Go.reference (with_ReadWavInfo tone_decoder tone_reader)
         example_store "song.mp3"
  /\ Recognize Go.reference tone_decoder example_store "song.mp3"
     = Recognize Go.reference
         (with_ReadWavInfo tone_decoder
            (fun path => truncated (eureka.ReadWavInfo tone_decoder path)))
         example_store "song.mp3".
Proof.
  apply (Recognize_first_30_seconds Go.reference tone_decoder example_store
           "song.mp3" tone_reader).
  intros path. unfold same_first_30_seconds.
  cbn [ReadWavInfo tone_decoder tone_reader SampleRate tone_wav].
  split; [ reflexivity | ]. split; [ split; [ discriminate | reflexivity ] | ].
  rewrite tone_wav_first_30_seconds. unfold first_30_seconds. cbn [Samples SampleRate].
  change (44100 * 30) with 1323000.
  symmetry. apply take_app_length'. rewrite repeat_length. reflexivity.
Defined.

Lemma loud_repeat (s : float) (n : nat) :
  (0.5 <=? s)%float = true -> loud (repeat s n) = true.
Proof.
  intros Hs. unfold loud. induction n as [|n IH]; [ reflexivity | ].
  cbn [repeat forallb]. rewrite Hs. exact IH.
Qed.

(** The four frames of tones of [tone_decoder] are recognised as songs
    7, 8 and 9 of [example_store]. *)
Lemma tones_recognised :
  (peaks ← fingerprint.PickPeaks (Abs tone_decoder) (tones 1 4) 44100;
   fingerprints ← fingerprint.GenerateFingerprints peaks;
   if (length fingerprints =? 0)%nat then None
   else
     '(found, calls) ← findMatches Go.reference example_store
                          (fingerprintMap fingerprints) false;
     match found with
     | Go.Ok matches => Some (map SongID matches, length calls)
     | Go.Err _ => None
     end)
  = Some ([7; 8; 9], 4%nat).
Proof. vm_compute. reflexivity. Qed.

(** The recording is recognised by its first thirty seconds, which are
    loud; were the ten samples after them handed on as well, the
    spectrogram routine would fail. *)
Example Recognize_tone_wav :
  (exists matches calls,
     Recognize Go.reference tone_decoder example_store "song.mp3"
     = Some (Go.Ok matches, calls)
     /\ map SongID matches = [7; 8; 9] /\ length calls = 4%nat)
  /\ recognize_samples Go.reference tone_decoder example_store (Samples tone_wav) 44100
     = Some (Go.Err "error creating spectrogram: signal too weak"%string, []).
Proof.
  split.
  - rewrite (Recognize_pipeline Go.reference tone_decoder example_store "song.mp3"
               "recognize_output.wav" tone_wav)
      by (reflexivity || (split; [ discriminate | reflexivity ])).
    rewrite tone_wav_first_30_seconds. unfold recognize_samples.
    cbn [SamplesToSpectrogram tone_decoder SampleRate tone_wav].
    rewrite loud_repeat by reflexivity.
    pose proof tones_recognised as Hrun.
    cbn [Abs tone_decoder] in Hrun |- *.
    destruct (fingerprint.PickPeaks _ (tones 1 4) 44100) as [peaks|];
      [ | discriminate ].
    cbn [mbind option_bind] in Hrun |- *.
    destruct (fingerprint.GenerateFingerprints peaks) as [fingerprints|];
      [ | discriminate ].
    cbn [mbind option_bind] in Hrun |- *.
    destruct (length fingerprints =? 0)%nat; [ discriminate | ].
    destruct (findMatches _ _ _ _) as [[[matches|e] calls]|];
      cbn [mbind option_bind] in Hrun |- *; try discriminate.
    injection Hrun as Hsongs Hcalls. eauto.
  - unfold recognize_samples. cbn [SamplesToSpectrogram tone_decoder Samples tone_wav].
    assert (Hquiet : loud (repeat 1%float (Z.to_nat 1323000) ++ repeat 0.25%float 10)
                     = false).
    { unfold loud. rewrite forallb_app. apply andb_false_r. }
    rewrite Hquiet. reflexivity.
Qed.

End recognize.

(** ** The matcher: batches *)

Lemma for_each_invariant {A S} (P : S -> Prop) (l : list A)
    (body : A -> S -> Go.flow S) (s : S) :
  P s ->
  (forall x s, In x l -> P s -> exists s', body x s = Go.Next s' /\ P s') ->
  exists s', Go.for_each l body s = Go.Next s' /\ P s'.
Proof.
  revert s. induction l as [|x l IH]; intros s Hs Hbody; cbn [Go.for_each].
  - eauto.
  - destruct (Hbody x s) as (s1 & -> & Hs1); [ left; reflexivity | assumption | ].
    apply IH; [ assumption | ]. intros y s2 Hy. apply Hbody. right. exact Hy.
Qed.

Section matcher_batches.
Import database eureka.

Lemma concat_batches_from (step : nat) (l : list string) (fuel i : nat) :
  (0 < step)%nat -> (length l - i <= fuel)%nat ->
  concat (map (fun j => take step (drop j l)) (Go.counter fuel i (length l) step))
  = drop i l.
Proof.
  intros Hstep. revert i. induction fuel as [|fuel IH]; intros i Hfuel; cbn [Go.counter].
  - rewrite drop_ge by lia. reflexivity.
  - destruct (Nat.ltb_spec i (length l)) as [Hlt|Hge].
    + cbn [map concat]. rewrite IH by lia.
      rewrite <- (take_drop step (drop i l)) at 2. rewrite drop_drop. reflexivity.
    + rewrite drop_ge by lia. reflexivity.
Qed.

Lemma concat_batches (hashes : list string) : concat (batches hashes) = hashes.
Proof.
  unfold batches, Go.range. rewrite concat_batches_from by lia. apply drop_0.
Qed.

Lemma batches_length (hashes b : list string) :
  In b (batches hashes) -> (0 < length b <= 1000)%nat.
Proof.
  unfold batches. intros Hb. apply in_map_iff in Hb. destruct Hb as (i & <- & Hi).
  apply range_lt in Hi. rewrite length_take, length_drop. lia.
Qed.

Lemma batch_slice (hashes : list string) (i : nat) :
  (i < length hashes)%nat ->
  Go.slice hashes (Z.of_nat i)
    (Z.of_nat (if (length hashes <? i + 1000)%nat then length hashes else (i + 1000)%nat))
  = Some (take 1000 (drop i hashes)).
Proof.
  intros Hi. destruct (Nat.ltb_spec (length hashes) (i + 1000)) as [Hlt|Hge].
  - rewrite slice_in_range by lia. rewrite Nat2Z.id. f_equal.
    rewrite !take_ge; [ reflexivity | | ]; rewrite length_drop; lia.
  - rewrite slice_in_range by lia. rewrite Nat2Z.id. f_equal. f_equal. lia.
Qed.

Lemma query_loop (db : Database) (hashes : list string) (l : list nat)
    (rows0 : list mysql.FingerprintMatch) (calls0 : list call) :
  (forall i, In i l -> (i < length hashes)%nat) ->
  Go.result
    (Go.for_each l
       (fun i '(allDbMatches, err, calls) =>
          let end_ := (i + 1000)%nat in
          let end_ := if (length hashes <? end_)%nat then length hashes else end_ in
          match Go.slice hashes (Z.of_nat i) (Z.of_nat end_) with
          | None => Go.Panic
          | Some batchHashes =>
              match QueryFingerprints db batchHashes with
              | Go.Err e => Go.Return (allDbMatches, Some e, calls ++ [Query batchHashes])
              | Go.Ok dbMatches =>
                  Go.Next (allDbMatches ++ dbMatches, err, calls ++ [Query batchHashes])
              end
          end)
       (rows0, None, calls0))
  = Some (let '(rows, err, calls) :=
            query_all db (map (fun i => take 1000 (drop i hashes)) l) in
          (rows0 ++ rows, err, calls0 ++ calls)).
Proof.
  revert rows0 calls0. induction l as [|i l IH]; intros rows0 calls0 Hl;
    cbn [Go.for_each map query_all].
  - cbn. rewrite !app_nil_r. reflexivity.
  - cbv zeta. rewrite batch_slice by (apply Hl; left; reflexivity).
    destruct (QueryFingerprints db _) as [rows|e].
    + specialize (IH (rows0 ++ rows) (calls0 ++ [Query (take 1000 (drop i hashes))])).
      destruct (Go.for_each l _ _) eqn:Hloop;
        rewrite IH by (intros j Hj; apply Hl; right; exact Hj);
        destruct (query_all db _) as [[rows' err] calls];
        rewrite <- !app_assoc; reflexivity.
    + cbn. rewrite app_nil_r. reflexivity.
Qed.

Lemma queryBatches_query_all (db : Database) (hashes : list string) :
  Go.result (queryBatches db hashes) = Some (query_all db (batches hashes)).
Proof.
  unfold queryBatches. cbv zeta. rewrite query_loop.
  - fold (batches hashes). destruct (query_all db _) as [[rows err] calls]. reflexivity.
  - intros i. apply range_lt.
Qed.

(** The calls of [query_all] are lookups of a prefix of the batches, all
    of them when there is no error. *)
Lemma query_all_calls (db : Database) (bs : list (list string)) :
  let '(rows, err, calls) := query_all db bs in
  exists k, calls = map Query (take k bs) /\ (err = None -> calls = map Query bs).
Proof.
  induction bs as [|b bs IH]; cbn [query_all].
  - exists 0%nat. split; reflexivity.
  - destruct (QueryFingerprints db b) as [rows|e].
    + destruct (query_all db bs) as [[rows' err] calls].
      destruct IH as (k & Hk & Hall). exists (S k). cbn [take map].
      split; [ rewrite Hk; reflexivity | ]. intros Herr. rewrite Hall by exact Herr.
      reflexivity.
    + exists 1%nat. cbn [take map]. rewrite take_0. split; [ reflexivity | discriminate ].
Qed.

Lemma queries_app (c1 c2 : list call) : queries (c1 ++ c2) = queries c1 ++ queries c2.
Proof. apply flat_map_app. Qed.

Lemma queries_Query (bs : list (list string)) : queries (map Query bs) = bs.
Proof.
  unfold queries. induction bs as [|b bs IH]; cbn [map flat_map app];
    [ reflexivity | f_equal; exact IH ].
Qed.

Lemma queries_GetSong (ids : list Z) : queries (map GetSong ids) = [].
Proof.
  unfold queries. induction ids as [|i ids IH]; cbn [map flat_map app];
    [ reflexivity | exact IH ].
Qed.

Lemma scoreSong_next (rt : Go.Runtime) (db : Database) (mic : bool)
    (entry : Z * list TimeMatch) (matches : list Match) (calls : list call) :
  exists matches' ids,
    scoreSong rt db mic entry (matches, calls)
    = Go.Next (matches ++ matches', calls ++ map GetSong ids)
    /\ Forall (fun m => (scoreThreshold mic <? Score m)%float = true) matches'.
Proof.
  destruct entry as [songID timeMatches]. unfold scoreSong.
  destruct (_ <? _).
  { exists [], []. cbn. rewrite !app_nil_r. auto. }
  cbv zeta. fold (scoreThreshold mic).
  destruct (scoreThreshold mic <? _)%float eqn:Hscore.
  - destruct (GetSongByID db songID) as [songInfo|e].
    + eexists [_], [songID]. split; [ reflexivity | ].
      repeat constructor. exact Hscore.
    + exists [], [songID]. rewrite app_nil_r. split; [ reflexivity | constructor ].
  - exists [], []. cbn. rewrite !app_nil_r. auto.
Qed.

Lemma scoreSongs_next (rt : Go.Runtime) (db : Database) (mic : bool)
    (entries : list (Z * list TimeMatch)) (calls : list call) :
  exists matches ids,
    Go.for_each entries (scoreSong rt db mic) ([], calls)
    = Go.Next (matches, calls ++ map GetSong ids)
    /\ Forall (fun m => (scoreThreshold mic <? Score m)%float = true) matches.
Proof.
  destruct (for_each_invariant
              (fun st : list Match * list call =>
                 Forall (fun m => (scoreThreshold mic <? Score m)%float = true) (fst st)
                 /\ exists ids, snd st = calls ++ map GetSong ids)
              entries (scoreSong rt db mic) ([], calls)) as ([matches calls'] & Hloop & Hm & ids & Hc).
  - split; [ constructor | ]. exists []. cbn. rewrite app_nil_r. reflexivity.
  - intros entry [matches calls'] _ [Hm (ids & Hc)]. cbn [fst snd] in *.
    destruct (scoreSong_next rt db mic entry matches calls') as (matches' & ids' & -> & Hm').
    eexists. split; [ reflexivity | ]. cbn [fst snd]. split.
    + apply Forall_app. auto.
    + exists (ids ++ ids'). rewrite Hc, map_app, app_assoc. reflexivity.
  - cbn [fst snd] in *. subst calls'. eauto.
Qed.

End matcher_batches.

(** ** The matcher: the shape of a run *)

Section matcher_shape.
Import database eureka.

Lemma findMatches_shape (rt : Go.Runtime) (db : Database)
    (sampleFingerprints : gmap string Z) (mic : bool) :
  let hashes := Go.map_keys rt _ sampleFingerprints in
  exists found calls k ids,
    findMatches rt db sampleFingerprints mic = Some (found, calls)
    /\ calls = map Query (take k (batches hashes)) ++ map GetSong ids
    /\ forall matches, found = Go.Ok matches ->
         map Query (take k (batches hashes)) = map Query (batches hashes)
         /\ (matches = []
             \/ exists scored,
                  Forall (fun m => (scoreThreshold mic <? Score m)%float = true) scored
                  /\ matches
                     = take 5 (Go.sort_Slice rt _ (fun a b => (Score b <? Score a)%float)
                                 scored)).
Proof.
  intros hashes. unfold findMatches. fold hashes.
  destruct (Nat.eqb_spec (length hashes) 0) as [Hnil|Hcons].
  { apply length_zero_iff_nil in Hnil. rewrite Hnil.
    exists (Go.Ok []), [], 0%nat, []. split; [ reflexivity | ]. split; [ reflexivity | ].
    intros matches [= <-]. split; [ reflexivity | left; reflexivity ]. }
  rewrite queryBatches_query_all. cbn [mbind option_bind].
  pose proof (query_all_calls db (batches hashes)) as Hcalls.
  destruct (query_all db (batches hashes)) as [[rows err] calls].
  destruct Hcalls as (k & Hk & Hall).
  destruct err as [e|].
  { exists (Go.Err e), calls, k, []. cbn [map]. rewrite app_nil_r.
    split; [ reflexivity | ]. split; [ assumption | discriminate ]. }
  specialize (Hall eq_refl).
  destruct (length rows =? 0)%nat.
  { exists (Go.Ok []), calls, k, []. cbn [map]. rewrite app_nil_r.
    split; [ reflexivity | ]. split; [ assumption | ]. intros matches [= <-].
    split; [ congruence | left; reflexivity ]. }
  destruct (scoreSongs_next rt db mic
              (Go.map_range rt _ (groupBySong sampleFingerprints rows)) calls)
    as (scored & ids & -> & Hscored).
  cbn [Go.result mbind option_bind].
  rewrite (slice_prefix _ 5) by lia. cbn [mbind option_bind].
  eexists _, _, k, ids. split; [ reflexivity | ]. split; [ rewrite Hk; reflexivity | ].
  intros matches [= <-]. split; [ congruence | ]. right. exists scored. auto.
Qed.

End matcher_shape.

(** ** The reference run time is one the language allows *)

Section insertion_sort.
Context {A : Type} (less : A -> A -> bool).

Lemma insert_perm (x : A) (l : list A) : Permutation (Go.insert less x l) (x :: l).
Proof.
  induction l as [|y l IH]; cbn [Go.insert]; [ reflexivity | ].
  destruct (less x y); [ reflexivity | ].
  rewrite IH. apply perm_swap.
Qed.

Lemma insertion_sort_perm (l : list A) : Permutation (Go.insertion_sort less l) l.
Proof.
  induction l as [|x l IH]; cbn; [ reflexivity | ].
  unfold Go.insertion_sort in IH. rewrite insert_perm, IH. reflexivity.
Qed.

Lemma insert_sorted (x : A) (l : list A) :
  Go.ordering less (x :: l) ->
  StronglySorted (fun a b => less b a = false) l ->
  StronglySorted (fun a b => less b a = false) (Go.insert less x l).
Proof.
  intros [Hirr Htrans Hinc]. induction 1 as [|y l Hsorted IH Hy]; cbn [Go.insert].
  - repeat constructor.
  - destruct (less x y) eqn:Hxy.
    + assert (Hyx : less y x = false).
      { destruct (less y x) eqn:Hyx; [ | reflexivity ].
        rewrite <- (Hirr x) by (left; reflexivity). symmetry.
        apply (Htrans x y x); cbn; auto. }
      constructor; [ constructor; assumption | ].
      constructor; [ exact Hyx | ].
      rewrite List.Forall_forall in Hy |- *. intros z Hz.
      apply (Hinc z y x); cbn; auto.
    + constructor.
      * apply IH.
        -- intros a Ha. apply Hirr. destruct Ha; cbn; auto.
        -- intros a b c Ha Hb Hc. apply Htrans; [ destruct Ha | destruct Hb | destruct Hc ]; cbn; auto.
        -- intros a b c Ha Hb Hc. apply Hinc; [ destruct Ha | destruct Hb | destruct Hc ]; cbn; auto.
      * rewrite List.Forall_forall in Hy |- *. intros z Hz.
        apply (Permutation_in _ (insert_perm x l)) in Hz.
        destruct Hz as [<-|Hz]; [ exact Hxy | apply Hy, Hz ].
Qed.

Lemma insertion_sort_sorted (l : list A) :
  Go.ordering less l ->
  StronglySorted (fun a b => less b a = false) (Go.insertion_sort less l).
Proof.
  induction l as [|x l IH]; intros Hord; cbn; [ constructor | ].
  destruct Hord as [Hirr Htrans Hinc].
  apply insert_sorted.
  - split.
    + intros a Ha. apply Hirr.
      destruct Ha as [<-|Ha]; [ left; reflexivity | right ].
      apply (Permutation_in _ (insertion_sort_perm l)), Ha.
    + intros a b c Ha Hb Hc. apply Htrans.
      * destruct Ha as [<-|Ha]; [ left; reflexivity | right ].
        apply (Permutation_in _ (insertion_sort_perm l)), Ha.
      * destruct Hb as [<-|Hb]; [ left; reflexivity | right ].
        apply (Permutation_in _ (insertion_sort_perm l)), Hb.
      * destruct Hc as [<-|Hc]; [ left; reflexivity | right ].
        apply (Permutation_in _ (insertion_sort_perm l)), Hc.
    + intros a b c Ha Hb Hc. apply Hinc.
      * destruct Ha as [<-|Ha]; [ left; reflexivity | right ].
        apply (Permutation_in _ (insertion_sort_perm l)), Ha.
      * destruct Hb as [<-|Hb]; [ left; reflexivity | right ].
        apply (Permutation_in _ (insertion_sort_perm l)), Hb.
      * destruct Hc as [<-|Hc]; [ left; reflexivity | right ].
        apply (Permutation_in _ (insertion_sort_perm l)), Hc.
  - apply IH. split.
    + intros a Ha. apply Hirr. right. exact Ha.
    + intros a b c Ha Hb Hc. apply Htrans; right; assumption.
    + intros a b c Ha Hb Hc. apply Hinc; right; assumption.
Qed.

End insertion_sort.

Lemma reference_ok : Go.runtime_ok Go.reference.
Proof.
  split; cbn [Go.reference Go.map_keys Go.map_range Go.sort_Slice].
  - reflexivity.
  - reflexivity.
  - intros A less l. apply insertion_sort_perm.
  - intros A less l. apply insertion_sort_sorted.
Qed.

(** ** The matcher: batches, order and number of the matches *)

Section matcher_claims.
Import database eureka.

(** C7: the hashes of the query are split into consecutive batches of at
    most 1000, the store is asked for one batch at a time (no further
    batch once a lookup fails) and the rows it returns are concatenated;
    whatever the store and the query, [findMatches] returns and none of
    its calls to the store carries more than 1000 hashes. *)
Theorem matcher_batches (rt : Go.Runtime) (db : Database)
    (sampleFingerprints : gmap string Z) (isFromMicrophone : bool) :
  let hashes := Go.map_keys rt _ sampleFingerprints in
  concat (batches hashes) = hashes
  /\ Forall (fun b => (0 < length b <= 1000)%nat) (batches hashes)
  /\ Go.result (queryBatches db hashes) = Some (query_all db (batches hashes))
  /\ exists found calls,
       findMatches rt db sampleFingerprints isFromMicrophone = Some (found, calls)
       /\ (exists k, queries calls = take k (batches hashes))
       /\ (forall batch, In (Query batch) calls -> (length batch <= 1000)%nat)
       /\ (forall matches, found = Go.Ok matches -> queries calls = batches hashes).
Proof.
  intros hashes.
  split; [ apply concat_batches | ].
  split; [ apply List.Forall_forall; intros b; apply batches_length | ].
  split; [ apply queryBatches_query_all | ].
  destruct (findMatches_shape rt db sampleFingerprints isFromMicrophone)
    as (found & calls & k & ids & Hrun & Hcalls & Hok).
  fold hashes in Hcalls, Hok.
  assert (Hq : queries calls = take k (batches hashes)).
  { rewrite Hcalls, queries_app, queries_Query, queries_GetSong. apply app_nil_r. }
  exists found, calls. split; [ exact Hrun | ]. split; [ eauto | ]. split.
  - intros batch Hb.
    assert (Hin : In batch (queries calls)).
    { unfold queries. apply in_flat_map. exists (Query batch). split; [ exact Hb | left; reflexivity ]. }
    rewrite Hq in Hin. apply list_elem_of_In, elem_of_take in Hin.
    destruct Hin as (i & Hi & _). apply list_elem_of_lookup_2, list_elem_of_In in Hi.
    apply batches_length in Hi. lia.
  - intros matches Hm. destruct (Hok matches Hm) as [Hall _].
    rewrite Hcalls, Hall, queries_app, queries_Query, queries_GetSong. apply app_nil_r.
Qed.

Lemma StronglySorted_impl_in {A} (R R' : A -> A -> Prop) (l : list A) :
  (forall a b, In a l -> In b l -> R a b -> R' a b) ->
  StronglySorted R l -> StronglySorted R' l.
Proof.
  intros Himpl Hs. induction Hs as [|x l Hs IH Hx]; constructor.
  - apply IH. intros a b Ha Hb. apply Himpl; right; assumption.
  - rewrite List.Forall_forall in Hx |- *. intros b Hb.
    apply Himpl; [ left; reflexivity | right; exact Hb | apply Hx, Hb ].
Qed.

Lemma StronglySorted_take {A} (R : A -> A -> Prop) (n : nat) (l : list A) :
  StronglySorted R l -> StronglySorted R (take n l).
Proof.
  intros Hs. revert n. induction Hs as [|x l Hs IH Hx]; intros [|n]; cbn [take];
    try constructor.
  - apply IH.
  - rewrite List.Forall_forall in Hx |- *. intros b Hb. apply Hx.
    apply list_elem_of_In, elem_of_take in Hb. destruct Hb as (i & Hi & _).
    eapply list_elem_of_In, list_elem_of_lookup_2, Hi.
Qed.

Lemma score_ordering (threshold : float) (scored : list Match) :
  Forall (fun m => (threshold <? Score m)%float = true) scored ->
  Go.ordering (fun a b => (Score b <? Score a)%float) scored.
Proof.
  rewrite List.Forall_forall. intros Hscored. split.
  - intros a _. apply ltb_irrefl.
  - intros a b c _ _ _ Hab Hbc. eapply ltb_trans; eassumption.
  - intros a b c _ Hb _ Hab Hbc. apply (ltb_incomparable _ (Score b)); try assumption.
    apply Hscored, ltb_numeric in Hb. apply Hb.
Qed.

(** C8: with a run time that keeps the language's promises, the matches
    [findMatches] returns are at most five and in descending order of
    score. *)
Theorem matches_sorted_top5 (rt : Go.Runtime) (db : Database)
    (sampleFingerprints : gmap string Z) (isFromMicrophone : bool) :
  Go.runtime_ok rt ->
  exists found calls,
    findMatches rt db sampleFingerprints isFromMicrophone = Some (found, calls)
    /\ forall matches, found = Go.Ok matches ->
         (length matches <= 5)%nat /\ descending matches.
Proof.
  intros Hrt.
  destruct (findMatches_shape rt db sampleFingerprints isFromMicrophone)
    as (found & calls & k & ids & Hrun & _ & Hok).
  exists found, calls. split; [ exact Hrun | ]. intros matches Hm.
  destruct (Hok matches Hm) as [_ [->|(scored & Hscored & ->)]].
  { split; [ cbn; lia | constructor ]. }
  split; [ rewrite length_take; lia | ].
  apply StronglySorted_take.
  pose proof (Go.sort_Slice_sorted rt Hrt _ _ _ (score_ordering _ _ Hscored)) as Hsorted.
  pose proof (Go.sort_Slice_perm rt Hrt _ (fun a b => (Score b <? Score a)%float) scored)
    as Hperm.
  revert Hsorted. apply StronglySorted_impl_in. intros a b Ha Hb Hab.
  rewrite List.Forall_forall in Hscored.
  apply (Permutation_in _ Hperm), Hscored, ltb_numeric in Ha.
  apply (Permutation_in _ Hperm), Hscored, ltb_numeric in Hb.
  rewrite leb_ltb by tauto. rewrite Hab. reflexivity.
Qed.

Lemma matches_sorted_top5_witness :
  exists found calls,
    findMatches Go.reference example_store example_query true = Some (found, calls)
    /\ forall matches, found = Go.Ok matches ->
         (length matches <= 5)%nat /\ descending matches.
Proof.
  apply (matches_sorted_top5 Go.reference example_store example_query true).
  exact reference_ok.
Defined.

Example findMatches_example :
  fst <$> findMatches Go.reference example_store example_query true
  = Some (Go.Ok [ {| SongID := 7; SongName := "song"; Artist := "artist";
                     Score := 0.2; Offset := 100; Timestamp := 0 |};
                  {| SongID := 8; SongName := "song"; Artist := "artist";
                     Score := 0.1; Offset := 100; Timestamp := 0 |} ]).
Proof. vm_compute. reflexivity. Qed.

End matcher_claims.

(** ** The matcher: scores *)

Section matcher_scores.
Import database eureka.

Lemma groupBySong_snoc (q : gmap string Z) (rows : list mysql.FingerprintMatch)
    (r : mysql.FingerprintMatch) :
  groupBySong q (rows ++ [r])
  = <[mysql.SongID r :=
        default [] (groupBySong q rows !! mysql.SongID r)
          ++ [ {| SampleTime := default 0 (q !! mysql.Hash r);
                  DbTime := mysql.Offset r;
                  TimeDiff := Go.sub (mysql.Offset r) (default 0 (q !! mysql.Hash r)) |} ]]>
      (groupBySong q rows).
Proof. unfold groupBySong. rewrite fold_left_app. reflexivity. Qed.

Lemma groupBySong_lookup (q : gmap string Z) (rows : list mysql.FingerprintMatch)
    (songID : Z) :
  groupBySong q rows !! songID
  = match hits q rows songID with [] => None | tms => Some tms end.
Proof.
  induction rows as [|r rows IH] using rev_ind; [ reflexivity | ].
  rewrite groupBySong_snoc. unfold hits in *. rewrite filter_app, map_app.
  destruct (decide (mysql.SongID r = songID)) as [<-|Hne].
  - rewrite lookup_insert_eq, IH. rewrite filter_cons_True by reflexivity.
    cbn [filter list_filter map].
    destruct (map _ (filter _ rows)) as [|tm tms]; reflexivity.
  - rewrite lookup_insert_ne by exact Hne. rewrite IH.
    rewrite filter_cons_False by exact Hne. cbn [filter list_filter map].
    rewrite app_nil_r. reflexivity.
Qed.

Lemma timeDiffCounts_snoc (tms : list TimeMatch) (tm : TimeMatch) :
  timeDiffCounts (tms ++ [tm])
  = <[TimeDiff tm := Go.add (default 0 (timeDiffCounts tms !! TimeDiff tm)) 1]>
      (timeDiffCounts tms).
Proof. unfold timeDiffCounts. rewrite fold_left_app. reflexivity. Qed.

Lemma timeDiffCounts_lookup (tms : list TimeMatch) (d : Z) :
  Z.of_nat (length tms) <= Go.max_int ->
  timeDiffCounts tms !! d
  = match count_occ Z.eq_dec (map TimeDiff tms) d with
    | O => None
    | n => Some (Z.of_nat n)
    end.
Proof.
  unfold Go.max_int.
  induction tms as [|tm tms IH] using rev_ind; intros Hlen; [ reflexivity | ].
  rewrite length_app in Hlen. cbn [length] in Hlen.
  rewrite timeDiffCounts_snoc, map_app, count_occ_app. cbn [map count_occ].
  pose proof (count_occ_bound Z.eq_dec (TimeDiff tm) (map TimeDiff tms)) as Hbound.
  rewrite length_map in Hbound.
  destruct (Z.eq_dec (TimeDiff tm) d) as [<-|Hne].
  - rewrite lookup_insert_eq, IH by lia.
    destruct (count_occ _ _ _) as [|n] eqn:Hn; cbn [default from_option]; unfold id.
    + reflexivity.
    + unfold Go.add. rewrite wrap_small' by lia.
      replace (S n + 1)%nat with (S (S n)) by lia. f_equal. lia.
  - rewrite lookup_insert_ne by exact Hne. rewrite IH by lia.
    rewrite Nat.add_0_r. reflexivity.
Qed.

Lemma Permutation_in_iff {A} (l l' : list A) (x : A) :
  Permutation l l' -> In x l <-> In x l'.
Proof.
  intros Hp. split; apply Permutation_in; [ exact Hp | symmetry; exact Hp ].
Qed.

(** The loop that finds the largest count. *)
Lemma max_loop (l : list (Z * Z)) (m0 : Z) :
  let m := fold_left (fun maxCount '(_, count) =>
                        if count >? maxCount then count else maxCount) l m0 in
  m0 <= m
  /\ (forall k c, In (k, c) l -> c <= m)
  /\ (m = m0 \/ exists k, In (k, m) l).
Proof.
  revert m0. induction l as [|[k c] l IH]; intros m0; cbn [fold_left].
  - split; [ lia | ]. split; [ intros k c [] | left; reflexivity ].
  - specialize (IH (if c >? m0 then c else m0)). cbv zeta in IH.
    destruct IH as (Hge & Hall & Hin).
    destruct (Z.gtb_spec c m0) as [Hgt|Hle].
    + split; [ lia | ]. split.
      * intros k' c' [[= <- <-]|Hin']; [ exact Hge | eapply Hall, Hin' ].
      * right. destruct Hin as [->|(k' & Hk')]; [ exists k; left; reflexivity | ].
        exists k'. right. exact Hk'.
    + split; [ exact Hge | ]. split.
      * intros k' c' [[= <- <-]|Hin']; [ lia | eapply Hall, Hin' ].
      * destruct Hin as [->|(k' & Hk')]; [ left; reflexivity | ].
        right. exists k'. right. exact Hk'.
Qed.

Lemma list_max_attained (l : list nat) : l <> [] -> In (list_max l) l.
Proof.
  induction l as [|x l IH]; [ congruence | ]. intros _. cbn [list_max fold_right].
  destruct l as [|y l].
  - left. cbn. lia.
  - specialize (IH ltac:(discriminate)). fold (list_max (y :: l)).
    destruct (Nat.max_spec x (list_max (y :: l))) as [[_ ->]|[_ ->]];
      [ right; exact IH | left; reflexivity ].
Qed.

Lemma maxCount_peak_count (rt : Go.Runtime) (tms : list TimeMatch) :
  Go.runtime_ok rt ->
  Z.of_nat (length tms) <= Go.max_int ->
  fold_left (fun maxCount '(_, count) => if count >? maxCount then count else maxCount)
            (Go.map_range rt _ (timeDiffCounts tms)) 0
  = peak_count tms.
Proof.
  intros Hrt Hlen.
  pose proof (max_loop (Go.map_range rt _ (timeDiffCounts tms)) 0) as Hmax.
  cbv zeta in Hmax. set (m := fold_left _ _ 0) in *.
  destruct Hmax as (Hm0 & Hall & Hin).
  assert (Hentry : forall d c, In (d, c) (Go.map_range rt _ (timeDiffCounts tms))
            <-> (c = Z.of_nat (count_occ Z.eq_dec (map TimeDiff tms) d)
                 /\ (0 < count_occ Z.eq_dec (map TimeDiff tms) d)%nat)).
  { intros d c.
    rewrite (Permutation_in_iff _ _ _ (Go.map_range_ok rt Hrt _ (timeDiffCounts tms))).
    rewrite <- list_elem_of_In, elem_of_map_to_list, timeDiffCounts_lookup by exact Hlen.
    destruct (count_occ _ _ d) as [|n];
      [ split; [ discriminate | lia ] | split; [ intros [= <-]; split; [ reflexivity | lia ] | intros [-> _]; reflexivity ] ]. }
  unfold peak_count. cbv zeta.
  generalize dependent (map TimeDiff tms). intros diffs Hentry.
  apply Z.le_antisymm.
  - destruct Hin as [->|(d & Hd)]; [ lia | ].
    apply Hentry in Hd. destruct Hd as [-> Hpos]. apply Nat2Z.inj_le.
    assert (Hle : (list_max (map (count_occ Z.eq_dec diffs) diffs)
                   <= list_max (map (count_occ Z.eq_dec diffs) diffs))%nat) by lia.
    apply list_max_le in Hle. rewrite List.Forall_forall in Hle. apply Hle.
    apply in_map. apply (count_occ_In Z.eq_dec). lia.
  - destruct (decide (diffs = [])) as [->|Hne]; [ cbn; lia | ].
    pose proof (list_max_attained (map (count_occ Z.eq_dec diffs) diffs)) as Hatt.
    assert (Hmap : map (count_occ Z.eq_dec diffs) diffs <> []).
    { intros H. apply map_eq_nil in H. contradiction. }
    specialize (Hatt Hmap).
    apply in_map_iff in Hatt. destruct Hatt as (d & Hd & Hdin).
    rewrite <- Hd. apply (Hall d). apply Hentry. split; [ reflexivity | ].
    apply (count_occ_In Z.eq_dec) in Hdin. lia.
Qed.

Lemma calculateTemporalScore_score_of (rt : Go.Runtime) (tms : list TimeMatch)
    (mic : bool) :
  Go.runtime_ok rt ->
  Z.of_nat (length tms) <= Go.max_int ->
  minMatches mic <= Z.of_nat (length tms) ->
  calculateTemporalScore rt tms mic
  = score_of mic (peak_count tms) (Z.of_nat (length tms)).
Proof.
  intros Hrt Hlen Hmin. unfold calculateTemporalScore. fold (minMatches mic).
  destruct (Z.ltb_spec (Z.of_nat (length tms)) (minMatches mic)); [ lia | ].
  cbv zeta. rewrite maxCount_peak_count by assumption.
  unfold score_of, norm. destruct mic; reflexivity.
Qed.

End matcher_scores.

Section matcher_score_claim.
Import database eureka.

Lemma candidate_hits (rt : Go.Runtime) (q : gmap string Z)
    (rows : list mysql.FingerprintMatch) (songID : Z) (timeMatches : list TimeMatch) :
  Go.runtime_ok rt ->
  In (songID, timeMatches) (Go.map_range rt _ (groupBySong q rows)) ->
  timeMatches = hits q rows songID.
Proof.
  intros Hrt Hin.
  apply (Permutation_in _ (Go.map_range_ok rt Hrt _ _)) in Hin.
  apply list_elem_of_In, elem_of_map_to_list in Hin.
  rewrite groupBySong_lookup in Hin.
  destruct (hits q rows songID); congruence.
Qed.

Lemma hits_length (q : gmap string Z) (rows : list mysql.FingerprintMatch) (songID : Z) :
  (length (hits q rows songID) <= length rows)%nat.
Proof. unfold hits. rewrite length_map. apply length_filter. Qed.

Lemma peak_count_five_hits (d : Z) : peak_count (five_hits d) = 5.
Proof.
  unfold peak_count, five_hits. cbn [repeat map TimeDiff count_occ].
  destruct (Z.eq_dec d d) as [_|Hne]; [ reflexivity | congruence ].
Qed.

(** C2: a candidate song of the matcher is an entry of the map built
    from the rows the store returned; its hits are the rows of that song,
    each with the time difference [db_offset - query_offset].  With
    [total] the number of hits and [peak_count] the number of them at the
    most frequent difference: below 5 hits (3 for the microphone) the
    song is dropped; otherwise its score is
    [min(1, peak_count * (peak_count / total) / norm)] with [norm] 100
    (50 for the microphone), and it is looked up in the store and added
    to the matches exactly when the score exceeds 0.1 (0.05 for the
    microphone).  Five hits at one difference score 0.05 for a file
    (dropped) and 0.1 for the microphone (kept). *)
Theorem song_score (rt : Go.Runtime) (db : Database) (isFromMicrophone : bool)
    (sampleFingerprints : gmap string Z) (rows : list mysql.FingerprintMatch)
    (songID : Z) (timeMatches : list TimeMatch)
    (matches : list Match) (calls : list call) :
  Go.runtime_ok rt ->
  Z.of_nat (length rows) <= Go.max_int ->
  In (songID, timeMatches) (Go.map_range rt _ (groupBySong sampleFingerprints rows)) ->
  let total := Z.of_nat (length timeMatches) in
  let score := score_of isFromMicrophone (peak_count timeMatches) total in
  let scored := scoreSong rt db isFromMicrophone (songID, timeMatches) (matches, calls) in
  timeMatches = hits sampleFingerprints rows songID
  /\ (total < minMatches isFromMicrophone -> scored = Go.Next (matches, calls))
  /\ (minMatches isFromMicrophone <= total ->
        calculateTemporalScore rt timeMatches isFromMicrophone = score
        /\ ((scoreThreshold isFromMicrophone <? score)%float = false ->
              scored = Go.Next (matches, calls))
        /\ ((scoreThreshold isFromMicrophone <? score)%float = true ->
              scored
              = Go.Next
                  (match GetSongByID db songID with
                   | Go.Ok songInfo =>
                       matches ++ [ {| SongID := songID;
                                       SongName := mysql.Name songInfo;
                                       Artist := mysql.Artist songInfo;
                                       Score := score;
                                       Offset := findMostCommonTimeDiff rt timeMatches;
                                       Timestamp := 0 |} ]
                   | Go.Err _ => matches
                   end,
                   calls ++ [GetSong songID])))
  /\ (minMatches false = 5 /\ minMatches true = 3
      /\ norm false = 100%float /\ norm true = 50%float
      /\ scoreThreshold false = 0.1%float /\ scoreThreshold true = 0.05%float)
  /\ (forall d,
        peak_count (five_hits d) = 5
        /\ calculateTemporalScore rt (five_hits d) false = 0.05%float
        /\ (scoreThreshold false <? 0.05)%float = false
        /\ calculateTemporalScore rt (five_hits d) true = 0.1%float
        /\ (scoreThreshold true <? 0.1)%float = true).
Proof.
  intros Hrt Hrows Hin total score scored.
  assert (Hhits : timeMatches = hits sampleFingerprints rows songID)
    by (eapply candidate_hits; eassumption).
  assert (Hlen : Z.of_nat (length timeMatches) <= Go.max_int).
  { rewrite Hhits. pose proof (hits_length sampleFingerprints rows songID). lia. }
  split; [ exact Hhits | ].
  split; [ | split; [ | split ] ].
  - intros Hlt. subst scored. unfold scoreSong. fold (minMatches isFromMicrophone).
    fold total. destruct (Z.ltb_spec total (minMatches isFromMicrophone)); [ reflexivity | lia ].
  - intros Hge.
    assert (Hscore : calculateTemporalScore rt timeMatches isFromMicrophone = score)
      by (apply calculateTemporalScore_score_of; assumption).
    split; [ exact Hscore | ].
    subst scored. unfold scoreSong. fold (minMatches isFromMicrophone). fold total.
    destruct (Z.ltb_spec total (minMatches isFromMicrophone)); [ lia | ].
    cbv zeta. fold (scoreThreshold isFromMicrophone). rewrite Hscore.
    split; intros Hthr; rewrite Hthr; [ reflexivity | ].
    destruct (GetSongByID db songID); reflexivity.
  - repeat split.
  - intros d.
    assert (H5 : Z.of_nat (length (five_hits d)) = 5) by reflexivity.
    split; [ apply peak_count_five_hits | ].
    rewrite !calculateTemporalScore_score_of, peak_count_five_hits, H5
      by (try assumption; rewrite H5; unfold Go.max_int, minMatches; lia).
    vm_compute. repeat split.
Qed.

Lemma song_score_witness :
  hits example_query example_rows 7 = hits example_query example_rows 7
  /\ calculateTemporalScore Go.reference (hits example_query example_rows 7) true
     = 0.2%float
  /\ scoreSong Go.reference example_store true
       (7, hits example_query example_rows 7) ([], [])
     = Go.Next ([ {| SongID := 7; SongName := "song"; Artist := "artist";
                     Score := 0.2; Offset := 100; Timestamp := 0 |} ],
                [GetSong 7]).
Proof.
  destruct (song_score Go.reference example_store true example_query example_rows 7
              (hits example_query example_rows 7) [] [])
    as (Hhits & _ & Hscore & _).
  - exact reference_ok.
  - vm_compute. discriminate.
  - vm_compute. tauto.
  - split; [ exact Hhits | ].
    destruct Hscore as (Hcalc & _ & Hkept); [ vm_compute; discriminate | ].
    split; [ rewrite Hcalc; vm_compute; reflexivity | ].
    rewrite Hkept by (vm_compute; reflexivity). vm_compute. reflexivity.
Defined.

End matcher_score_claim.

(** ** The peak picker: local maxima *)

(** A loop that leaves with [false] at the first element that fails a
    test, and otherwise keeps its state. *)
Lemma for_each_check {A} (l : list A) (bad : A -> bool)
    (body : A -> bool -> Go.flow bool) (r : bool) :
  (forall x r, In x l -> body x r = if bad x then Go.Return false else Go.Next r) ->
  Go.for_each l body r = if existsb bad l then Go.Return false else Go.Next r.
Proof.
  induction l as [|x l IH]; intros Hbody; cbn [Go.for_each existsb]; [ reflexivity | ].
  rewrite Hbody by (left; reflexivity).
  destruct (bad x); cbn [orb]; [ reflexivity | ].
  apply IH. intros y r' Hy. apply Hbody. right. exact Hy.
Qed.

Lemma index_Some {A} (l : list A) (i : Z) :
  0 <= i < Z.of_nat (length l) -> exists x, Go.index l i = Some x.
Proof.
  intros Hi. unfold Go.index. destruct (Z.ltb_spec i 0); [ lia | ].
  apply lookup_lt_is_Some_2. lia.
Qed.

Lemma index_None {A} (l : list A) (i : Z) :
  ~ 0 <= i < Z.of_nat (length l) -> Go.index l i = None.
Proof.
  intros Hi. unfold Go.index. destruct (Z.ltb_spec i 0); [ reflexivity | ].
  apply lookup_ge_None_2. lia.
Qed.

Lemma index_In {A} (l : list A) (i : Z) (x : A) : Go.index l i = Some x -> In x l.
Proof.
  unfold Go.index. destruct (i <? 0); [ discriminate | ].
  intros H. eapply list_elem_of_In, list_elem_of_lookup_2, H.
Qed.

Lemma width_hd (magnitudes : list (list float)) :
  fingerprint.width magnitudes = Z.of_nat (length (hd [] magnitudes)).
Proof. destruct magnitudes; reflexivity. Qed.

Section local_peaks.
Import fingerprint.
Variable magnitudes : list (list float).
Hypothesis Hrect : rectangular magnitudes.
Hypothesis Hheight : Z.of_nat (length magnitudes) <= Go.max_int.
Hypothesis Hwidth : width magnitudes <= Go.max_int.

Lemma row_length (row : list float) :
  In row magnitudes -> Z.of_nat (length row) = width magnitudes.
Proof.
  intros Hrow. rewrite (Hrect row Hrow), width_hd. reflexivity.
Qed.

(** On a rectangular grid the test of [isLocalPeak] says whether the
    cell exists. *)
Lemma in_range_cell (tt ff : Z) :
  (tt >=? 0) && (tt <? Z.of_nat (length magnitudes))
  && (ff >=? 0) && (ff <? width magnitudes)
  = match cell magnitudes tt ff with Some _ => true | None => false end.
Proof.
  unfold cell.
  destruct (Z.geb_spec tt 0) as [Ht0|Ht0]; cbn [andb];
    [ | rewrite index_None by lia; reflexivity ].
  destruct (Z.ltb_spec tt (Z.of_nat (length magnitudes))) as [Ht1|Ht1]; cbn [andb];
    [ | rewrite index_None by lia; reflexivity ].
  destruct (index_Some magnitudes tt) as [row Hrow]; [ lia | ].
  rewrite Hrow. cbn [mbind option_bind].
  pose proof (row_length row (index_In _ _ _ Hrow)) as Hlen.
  destruct (Z.geb_spec ff 0) as [Hf0|Hf0]; cbn [andb];
    [ | rewrite index_None by lia; reflexivity ].
  destruct (Z.ltb_spec ff (width magnitudes)) as [Hf1|Hf1];
    [ | rewrite index_None by lia; reflexivity ].
  destruct (index_Some row ff) as [w ->]; [ lia | reflexivity ].
Qed.

Lemma cell_range (t f : Z) (v : float) :
  cell magnitudes t f = Some v ->
  0 <= t < Z.of_nat (length magnitudes) /\ 0 <= f < width magnitudes.
Proof.
  intros Hcell. pose proof (in_range_cell t f) as Hr. rewrite Hcell in Hr.
  repeat (apply andb_true_iff in Hr; destruct Hr as [Hr ?]). lia.
Qed.

Lemma isLocalPeak_not_below (t f : Z) (v : float) :
  cell magnitudes t f = Some v ->
  isLocalPeak magnitudes t f
  = Some (negb (existsb (fun dt => existsb (not_below magnitudes t f v dt) [-1; 0; 1])
                        [-1; 0; 1])).
Proof.
  intros Hcell. pose proof (cell_range t f v Hcell) as [Ht Hf].
  unfold Go.max_int in *.
  unfold isLocalPeak. unfold cell in Hcell.
  destruct (Go.index magnitudes t) as [row|]; [ | discriminate ].
  cbn [mbind option_bind] in Hcell |- *. rewrite Hcell. cbn [mbind option_bind].
  rewrite (for_each_check _
             (fun dt => existsb (not_below magnitudes t f v dt) [-1; 0; 1])).
  { destruct (existsb _ _); reflexivity. }
  intros dt r Hdt. apply for_each_check. intros df r' Hdf.
  unfold not_below.
  assert (Hadd_t : Go.add t dt = t + dt).
  { unfold Go.add. apply wrap_small'. cbn in Hdt. lia. }
  assert (Hadd_f : Go.add f df = f + df).
  { unfold Go.add. apply wrap_small'. cbn in Hdf. lia. }
  rewrite Hadd_t, Hadd_f.
  destruct ((dt =? 0) && (df =? 0)); cbn [negb andb]; [ reflexivity | ].
  rewrite in_range_cell. fold (cell magnitudes (t + dt) (f + df)).
  destruct (cell magnitudes (t + dt) (f + df)) as [w|]; [ | reflexivity ].
  destruct (v <=? w)%float; reflexivity.
Qed.

Lemma no_not_below_local_max (t f : Z) (v : float) :
  cell magnitudes t f = Some v ->
  (forall tt ff w, cell magnitudes tt ff = Some w -> numeric w) ->
  numeric v ->
  existsb (fun dt => existsb (not_below magnitudes t f v dt) [-1; 0; 1]) [-1; 0; 1] = false
  <-> local_max magnitudes t f.
Proof.
  intros Hcell Hnum Hv. cbn [existsb]. rewrite !orb_false_r.
  unfold local_max. rewrite Hcell. split.
  - intros Hall. exists v. split; [ reflexivity | ]. intros dt df w Hin Hw.
    assert (Hnb : not_below magnitudes t f v dt df = false).
    { repeat match goal with
             | H : _ || _ = false |- _ => apply orb_false_iff in H; destruct H
             end.
      cbn in Hin. repeat (destruct Hin as [[= <- <-]|Hin]; [ assumption | ]).
      destruct Hin. }
    unfold not_below in Hnb. rewrite Hw in Hnb.
    assert (Hne : (dt =? 0) && (df =? 0) = false).
    { cbn in Hin. repeat (destruct Hin as [[= <- <-]|Hin]; [ reflexivity | ]).
      destruct Hin. }
    rewrite Hne in Hnb. cbn [negb andb] in Hnb.
    rewrite leb_ltb in Hnb by eauto. apply negb_false_iff in Hnb. exact Hnb.
  - intros (v' & [= <-] & Hall).
    assert (Hnb : forall dt df, In (dt, df) offsets ->
                    not_below magnitudes t f v dt df = false).
    { intros dt df Hin. unfold not_below.
      destruct (cell magnitudes (t + dt) (f + df)) as [w|] eqn:Hw;
        [ | apply andb_false_r ].
      specialize (Hall dt df w Hin Hw).
      rewrite leb_ltb by (apply ltb_numeric in Hall; tauto).
      rewrite Hall. apply andb_false_r. }
    rewrite (Hnb (-1) (-1)), (Hnb (-1) 0), (Hnb (-1) 1), (Hnb 0 (-1)), (Hnb 0 1),
      (Hnb 1 (-1)), (Hnb 1 0), (Hnb 1 1) by (cbn; tauto).
    unfold not_below. reflexivity.
Qed.

Hypothesis Hnumeric : forall tt ff w, cell magnitudes tt ff = Some w -> numeric w.

Lemma isLocalPeak_local_max (t f : Z) (v : float) :
  cell magnitudes t f = Some v ->
  exists b, isLocalPeak magnitudes t f = Some b
            /\ (b = true <-> local_max magnitudes t f).
Proof.
  intros Hcell. eexists. split; [ apply isLocalPeak_not_below, Hcell | ].
  rewrite <- (no_not_below_local_max t f v Hcell Hnumeric) by eauto.
  destruct (existsb _ _); cbn; split; congruence.
Qed.

Lemma cell_frame (t f : Z) (frame : list float) :
  Go.index magnitudes t = Some frame -> cell magnitudes t f = Go.index frame f.
Proof. unfold cell. intros ->. reflexivity. Qed.

Lemma scan_scanned (t lo : Z) (frame : list float) (n : nat) :
  Go.index magnitudes t = Some frame ->
  0 <= lo -> lo + Z.of_nat n <= Z.of_nat (length frame) ->
  exists st,
    scan magnitudes t frame (map (fun k => lo + Z.of_nat k) (seq 0 n)) = Go.Next st
    /\ scanned magnitudes t lo (lo + Z.of_nat n) st.
Proof.
  intros Hframe Hlo. induction n as [|n IH]; intros Hhi.
  - exists (0%float, -1). split; [ reflexivity | ]. split; [ left; auto | ].
    intros f' v' Hf'. lia.
  - destruct IH as ([maxMag maxBin] & Hscan & Hdisj & Hall); [ lia | ].
    unfold scan in *. rewrite seq_S, map_app, for_each_app, Hscan.
    cbn [map Go.for_each Nat.add].
    set (f := lo + Z.of_nat n) in *.
    destruct (index_Some frame f) as [v Hv]; [ lia | ]. rewrite Hv.
    assert (Hcell : cell magnitudes t f = Some v) by (rewrite (cell_frame _ _ _ Hframe); exact Hv).
    assert (Hnum_v : numeric v) by eauto.
    assert (Hnum_max : numeric maxMag).
    { destruct Hdisj as [[_ ->]|(_ & Hc & _)]; [ reflexivity | eauto ]. }
    replace (lo + Z.of_nat (S n)) with (f + 1) by lia.
    destruct (maxMag <? v)%float eqn:Hlt.
    + destruct (isLocalPeak_local_max t f v Hcell) as (b & -> & Hb).
      destruct b.
      * eexists. split; [ reflexivity | ]. split.
        -- right. split; [ lia | ]. split; [ exact Hcell | ].
           split; [ apply Hb; reflexivity | ].
           destruct Hdisj as [[_ ->]|(_ & _ & _ & Hpos)]; [ exact Hlt | ].
           eapply ltb_trans; eassumption.
        -- intros f' v' Hf' Hc' Hl'.
           destruct (Z.eq_dec f' f) as [->|Hne].
           ++ assert (v' = v) by congruence. subst v'.
              split; [ apply ltb_irrefl | lia ].
           ++ destruct (Hall f' v') as [Hle _]; [ lia | assumption | assumption | ].
              assert (Hlt' : (v' <? v)%float = true).
              { apply (leb_ltb_trans _ maxMag); [ | exact Hlt ].
                rewrite leb_ltb by eauto. rewrite Hle. reflexivity. }
              split; [ apply leb_ltb_false, ltb_leb, Hlt' | intros _; exact Hlt' ].
      * eexists. split; [ reflexivity | ]. split.
        -- destruct Hdisj as [Hd|(Hr & Hd)]; [ left; exact Hd | right ].
           split; [ lia | exact Hd ].
        -- intros f' v' Hf' Hc' Hl'.
           destruct (Z.eq_dec f' f) as [->|Hne].
           ++ apply Hb in Hl'. discriminate.
           ++ apply Hall; [ lia | assumption | assumption ].
    + eexists. split; [ reflexivity | ]. split.
      * destruct Hdisj as [Hd|(Hr & Hd)]; [ left; exact Hd | right ].
        split; [ lia | exact Hd ].
      * intros f' v' Hf' Hc' Hl'.
        destruct (Z.eq_dec f' f) as [->|Hne].
        -- assert (v' = v) by congruence. subst v'. split; [ exact Hlt | ].
           destruct Hdisj as [[-> _]|(Hr & _)]; lia.
        -- apply Hall; [ lia | assumption | assumption ].
Qed.

End local_peaks.

(** ** The peak picker: one peak per frame and band *)

Section pick_peaks.
Import fingerprint.
Variable Abs : complex128 -> float.
Variable spectrogram : list (list complex128).
Variable sampleRate : Z.
Hypothesis Hrect : rectangular spectrogram.
Hypothesis Hslices : slices spectrogram.
Hypothesis Hnumeric : forall row c, In row spectrogram -> In c row -> numeric (Abs c).
Hypothesis Hbands :
  Forall (fun b => 0 <= Start b) (getFrequencyBands sampleRate WINDOW_SIZE).

Let magnitudes := getMagnitudes Abs spectrogram.
Let bands := getFrequencyBands sampleRate WINDOW_SIZE.

Lemma magnitudes_rectangular : rectangular magnitudes.
Proof.
  unfold rectangular, magnitudes, getMagnitudes. intros row Hrow.
  apply in_map_iff in Hrow. destruct Hrow as (row0 & <- & Hrow0).
  rewrite length_map, (Hrect row0 Hrow0).
  destruct spectrogram; cbn; [ reflexivity | rewrite length_map; reflexivity ].
Qed.

Lemma magnitudes_height : Z.of_nat (length magnitudes) <= Go.max_int.
Proof. unfold magnitudes, getMagnitudes. rewrite length_map. apply Hslices. Qed.

Lemma magnitudes_width : width magnitudes <= Go.max_int.
Proof.
  destruct Hslices as [_ Hrows]. unfold magnitudes, getMagnitudes, width.
  destruct spectrogram as [|row rows]; cbn [map]; [ unfold Go.max_int; lia | ].
  rewrite length_map. apply Forall_cons in Hrows. apply Hrows.
Qed.

Lemma magnitudes_numeric (tt ff : Z) (w : float) :
  cell magnitudes tt ff = Some w -> numeric w.
Proof.
  unfold cell. destruct (Go.index magnitudes tt) as [row|] eqn:Hrow; [ | discriminate ].
  cbn [mbind option_bind]. intros Hw.
  apply index_In in Hrow. apply index_In in Hw.
  unfold magnitudes, getMagnitudes in Hrow.
  apply in_map_iff in Hrow. destruct Hrow as (row0 & <- & Hrow0).
  apply in_map_iff in Hw. destruct Hw as (c & <- & Hc). eauto.
Qed.

Lemma frame_index (t : nat) (frame : list float) :
  magnitudes !! t = Some frame -> Go.index magnitudes (Z.of_nat t) = Some frame.
Proof.
  intros Ht. unfold Go.index. destruct (Z.ltb_spec (Z.of_nat t) 0); [ lia | ].
  rewrite Nat2Z.id. exact Ht.
Qed.

Lemma frame_width (t : nat) (frame : list float) :
  magnitudes !! t = Some frame -> Z.of_nat (length frame) = width magnitudes.
Proof.
  intros Ht. apply (row_length magnitudes magnitudes_rectangular).
  eapply index_In, frame_index, Ht.
Qed.

Lemma band_scan (t : nat) (frame : list float) (band : FrequencyBand) :
  magnitudes !! t = Some frame ->
  In band bands ->
  Start band < Z.of_nat (length frame) -> End_ band < Z.of_nat (length frame) ->
  exists st,
    scan magnitudes (Z.of_nat t) frame (Go.range_incl (Start band) (End_ band))
    = Go.Next st
    /\ scanned magnitudes (Z.of_nat t) (Start band)
         (Start band + Z.of_nat (Z.to_nat (End_ band - Start band + 1))) st.
Proof.
  intros Ht Hband Hs He. unfold Go.range_incl.
  apply (scan_scanned magnitudes magnitudes_rectangular magnitudes_height
           magnitudes_width magnitudes_numeric).
  - apply frame_index, Ht.
  - unfold bands in Hband. rewrite List.Forall_forall in Hbands. apply Hbands, Hband.
  - lia.
Qed.

(** The body of the loop over the bands appends [band_peaks]. *)
Lemma band_body (t : nat) (frame : list float) (band : FrequencyBand)
    (peaks : list Peak) :
  magnitudes !! t = Some frame ->
  In band bands ->
  (if (Start band >=? Z.of_nat (length frame)) || (End_ band >=? Z.of_nat (length frame))
   then Go.Next peaks
   else
     match scan magnitudes (Z.of_nat t) frame (Go.range_incl (Start band) (End_ band)) with
     | Go.Next (maxMag, maxBin) =>
         if negb (maxBin =? -1) && (PEAK_THRESHOLD <? maxMag)%float
         then Go.Next (peaks ++ [ {| Time := Go.float64 (Z.of_nat t);
                                     TimeMS :=
                                       (Go.float64 (Z.of_nat t)
                                        * Go.float64 (Go.div WINDOW_SIZE 4)
                                        / Go.float64 sampleRate * 1000)%float;
                                     FreqBin := maxBin;
                                     Magnitude := maxMag |} ])
         else Go.Next peaks
     | _ => Go.Panic
     end)
  = Go.Next (peaks ++ band_peaks magnitudes sampleRate t band).
Proof.
  intros Ht Hband. unfold band_peaks. rewrite Ht.
  destruct (Z.geb_spec (Start band) (Z.of_nat (length frame))) as [Hs|Hs]; cbn [orb].
  { rewrite app_nil_r. reflexivity. }
  destruct (Z.geb_spec (End_ band) (Z.of_nat (length frame))) as [He|He].
  { rewrite app_nil_r. reflexivity. }
  destruct (band_scan t frame band Ht Hband Hs He) as ([maxMag maxBin] & -> & _).
  destruct (negb _ && _); [ reflexivity | rewrite app_nil_r; reflexivity ].
Qed.

Lemma PickPeaks_band_peaks :
  PickPeaks Abs spectrogram sampleRate
  = Some (if (length spectrogram =? 0)%nat
             || match spectrogram with
                | [] => true
                | row :: _ => (length row =? 0)%nat
                end
          then []
          else flat_map (fun t => flat_map (band_peaks magnitudes sampleRate t) bands)
                        (seq 0 (length spectrogram))).
Proof.
  unfold PickPeaks. destruct (_ || _); [ reflexivity | ].
  cbv zeta. fold magnitudes bands.
  rewrite (for_each_emit _ _
             (fun '(t, _) => flat_map (band_peaks magnitudes sampleRate t) bands)).
  - cbn [Go.result app]. f_equal.
    rewrite (flat_map_enumerate magnitudes
               (fun t _ => flat_map (band_peaks magnitudes sampleRate t) bands)).
    unfold magnitudes at 3, getMagnitudes. rewrite length_map.
    apply flat_map_ext_in. intros t Ht. apply in_seq in Ht.
    destruct (lookup_lt_is_Some_2 magnitudes t) as [frame ->]; [ | reflexivity ].
    unfold magnitudes, getMagnitudes. rewrite length_map. lia.
  - intros [t frame] out Ht. apply enumerate_lookup in Ht.
    apply for_each_emit. intros band peaks Hband.
    apply (band_body t frame band peaks Ht Hband).
Qed.

Lemma band_peaks_at_most_one (t : nat) (band : FrequencyBand) :
  (length (band_peaks magnitudes sampleRate t band) <= 1)%nat.
Proof.
  unfold band_peaks. destruct (magnitudes !! t); [ | cbn; lia ].
  destruct (_ || _); [ cbn; lia | ].
  destruct (scan _ _ _ _) as [[maxMag maxBin]| |]; try (cbn; lia).
  destruct (negb _ && _); cbn; lia.
Qed.

Lemma band_peaks_band_peak (t : nat) (band : FrequencyBand) (p : Peak) :
  In band bands ->
  In p (band_peaks magnitudes sampleRate t band) ->
  Time p = Go.float64 (Z.of_nat t)
  /\ TimeMS p = (Go.float64 (Z.of_nat t) * Go.float64 1024
                 / Go.float64 sampleRate * 1000)%float
  /\ (PEAK_THRESHOLD <? Magnitude p)%float = true
  /\ band_peak magnitudes (Z.of_nat t) band (FreqBin p) (Magnitude p).
Proof.
  intros Hband. unfold band_peaks.
  destruct (magnitudes !! t) as [frame|] eqn:Ht; [ | intros [] ].
  destruct (Z.geb_spec (Start band) (Z.of_nat (length frame))) as [Hs|Hs]; cbn [orb];
    [ intros [] | ].
  destruct (Z.geb_spec (End_ band) (Z.of_nat (length frame))) as [He|He];
    [ intros [] | ].
  destruct (band_scan t frame band Ht Hband Hs He) as ([maxMag maxBin] & -> & Hdisj & Hall).
  destruct (Z.eqb_spec maxBin (-1)) as [Heq|Hne]; cbn [negb andb]; [ intros [] | ].
  destruct (PEAK_THRESHOLD <? maxMag)%float eqn:Hthr; [ | intros [] ].
  intros [<-|[]]. cbn [Time TimeMS Magnitude FreqBin].
  split; [ reflexivity | ]. split; [ reflexivity | ]. split; [ exact Hthr | ].
  destruct Hdisj as [[Hd _]|(Hr & Hc & Hl & _)]; [ contradiction | ].
  split; [ lia | ]. split; [ exact Hc | ]. split; [ exact Hl | ].
  intros f' v' Hf' Hc' Hl'.
  destruct (Hall f' v') as [Hle Hlow]; [ lia | assumption | assumption | ].
  split; [ | exact Hlow ].
  rewrite leb_ltb by (eapply magnitudes_numeric; eassumption).
  rewrite Hle. reflexivity.
Qed.

Lemma band_peaks_none (t : nat) (band : FrequencyBand) (f : Z) (v : float) :
  (t < length spectrogram)%nat ->
  In band bands ->
  band_peaks magnitudes sampleRate t band = [] ->
  End_ band < width magnitudes ->
  Start band <= f <= End_ band ->
  cell magnitudes (Z.of_nat t) f = Some v ->
  local_max magnitudes (Z.of_nat t) f ->
  (PEAK_THRESHOLD <? v)%float = false.
Proof.
  intros Ht Hband Hnone Hfit Hf Hc Hl. unfold band_peaks in Hnone.
  destruct (lookup_lt_is_Some_2 magnitudes t) as [frame Hframe].
  { unfold magnitudes, getMagnitudes. rewrite length_map. exact Ht. }
  rewrite Hframe in Hnone. pose proof (frame_width t frame Hframe) as Hw.
  destruct (Z.geb_spec (Start band) (Z.of_nat (length frame))) as [Hs|Hs]; [ lia | ].
  destruct (Z.geb_spec (End_ band) (Z.of_nat (length frame))) as [He|He]; [ lia | ].
  cbn [orb] in Hnone.
  destruct (band_scan t frame band Hframe Hband Hs He)
    as ([maxMag maxBin] & Hscan & Hdisj & Hall).
  rewrite Hscan in Hnone.
  destruct (Hall f v) as [Hle _]; [ lia | assumption | assumption | ].
  destruct Hdisj as [[-> ->]|(Hr & Hcm & _ & _)].
  - apply (ltb_incomparable _ 0); [ reflexivity | reflexivity | exact Hle ].
  - assert (Hstart : 0 <= Start band).
    { unfold bands in Hband. rewrite List.Forall_forall in Hbands. apply Hbands, Hband. }
    destruct (Z.eqb_spec maxBin (-1)) as [Heq|Hne]; [ lia | ]. cbn [negb andb] in Hnone.
    destruct (PEAK_THRESHOLD <? maxMag)%float eqn:Hthr; [ discriminate | ].
    apply (ltb_incomparable _ maxMag); [ | exact Hthr | exact Hle ].
    eapply magnitudes_numeric, Hcm.
Qed.

End pick_peaks.

Section pick_peaks_claim.
Import fingerprint.

Lemma flat_map_nil {A B} (l : list A) : flat_map (fun _ : A => @nil B) l = [].
Proof. induction l as [|x l IH]; [ reflexivity | exact IH ]. Qed.

(** C5: on a rectangular grid of numeric magnitudes, with bands that
    start at a non-negative bin, [PickPeaks] returns, frame after frame
    and band after band, at most one peak per frame and band.  A peak
    taken for frame [t] and a band has a magnitude above 0.02; its bin
    lies in the band and is a strict local maximum (it is strictly above
    each of its eight neighbours that lie on the grid); no local maximum
    of the band has a larger magnitude, and those at lower bins are
    strictly smaller.  When no peak is taken for a band that fits the
    frame, no local maximum of the band exceeds 0.02. *)
Theorem peaks_are_band_maxima (Abs : complex128 -> float)
    (spectrogram : list (list complex128)) (sampleRate : Z) :
  rectangular spectrogram ->
  slices spectrogram ->
  (forall row c, In row spectrogram -> In c row -> numeric (Abs c)) ->
  Forall (fun b => 0 <= Start b) (getFrequencyBands sampleRate WINDOW_SIZE) ->
  let magnitudes := getMagnitudes Abs spectrogram in
  let bands := getFrequencyBands sampleRate WINDOW_SIZE in
  exists chosen : nat -> FrequencyBand -> list Peak,
    PickPeaks Abs spectrogram sampleRate
    = Some (flat_map (fun t => flat_map (chosen t) bands) (seq 0 (length spectrogram)))
    /\ PEAK_THRESHOLD = 0.02%float
    /\ forall t band,
         (t < length spectrogram)%nat -> In band bands ->
         (length (chosen t band) <= 1)%nat
         /\ (forall p, In p (chosen t band) ->
               Time p = Go.float64 (Z.of_nat t)
               /\ TimeMS p = (Go.float64 (Z.of_nat t) * Go.float64 1024
                              / Go.float64 sampleRate * 1000)%float
               /\ (0.02 <? Magnitude p)%float = true
               /\ band_peak magnitudes (Z.of_nat t) band (FreqBin p) (Magnitude p))
         /\ (chosen t band = [] ->
             End_ band < width magnitudes ->
             forall f v,
               Start band <= f <= End_ band ->
               cell magnitudes (Z.of_nat t) f = Some v ->
               local_max magnitudes (Z.of_nat t) f ->
               (0.02 <? v)%float = false).
Proof.
  intros Hrect Hslices Hnumeric Hbands magnitudes bands.
  pose proof (PickPeaks_band_peaks Abs spectrogram sampleRate Hrect Hslices Hnumeric Hbands)
    as Hpick.
  destruct ((length spectrogram =? 0)%nat
            || match spectrogram with
               | [] => true
               | row :: _ => (length row =? 0)%nat
               end) eqn:Hempty.
  - exists (fun _ _ => []). split; [ | split; [ reflexivity | ] ].
    + rewrite Hpick. f_equal. symmetry.
      induction (seq 0 (length spectrogram)) as [|t l IH]; [ reflexivity | ].
      cbn [flat_map]. rewrite flat_map_nil. exact IH.
    + intros t band Ht Hband. split; [ cbn; lia | ]. split; [ intros p [] | ].
      intros _ Hfit f v Hf Hc _. exfalso.
      assert (Hstart : 0 <= Start band).
      { rewrite List.Forall_forall in Hbands. apply Hbands, Hband. }
      assert (Hwidth : width magnitudes = 0).
      { subst magnitudes. unfold getMagnitudes.
        destruct spectrogram as [|row rows]; [ cbn in Ht; lia | ].
        cbn [length Nat.eqb orb] in Hempty. apply Nat.eqb_eq in Hempty.
        cbn [map width]. rewrite length_map, Hempty. reflexivity. }
      lia.
  - exists (band_peaks magnitudes sampleRate).
    split; [ exact Hpick | ]. split; [ reflexivity | ].
    intros t band Ht Hband.
    split; [ apply band_peaks_at_most_one | ]. split.
    + intros p Hp.
      apply (band_peaks_band_peak Abs spectrogram sampleRate Hrect Hslices Hnumeric
               Hbands t band p Hband Hp).
    + intros Hnone Hfit f v Hf Hc Hl.
      apply (band_peaks_none Abs spectrogram sampleRate Hrect Hslices Hnumeric
               Hbands t band f v Ht Hband Hnone Hfit Hf Hc Hl).
Qed.

Lemma bands_44100_start :
  Forall (fun b => 0 <= Start b) (getFrequencyBands 44100 WINDOW_SIZE).
Proof. vm_compute. repeat constructor; discriminate. Qed.

Example PickPeaks_example :
  PickPeaks fst example_grid 44100
  = Some [ {| Time := 0; TimeMS := 0; Magnitude := 1; FreqBin := 4 |};
           {| Time := 0; TimeMS := 0; Magnitude := 0.25; FreqBin := 7 |} ].
Proof. vm_compute. reflexivity. Qed.

Lemma peaks_are_band_maxima_witness :
  exists peaks,
    PickPeaks fst example_grid 44100 = Some peaks
    /\ forall p, In p peaks -> (0.02 <? Magnitude p)%float = true.
Proof.
  destruct (peaks_are_band_maxima fst example_grid 44100) as (chosen & Hpick & _ & Hchosen).
  - intros row [<-|[]]. reflexivity.
  - split; [ vm_compute; discriminate | ].
    repeat constructor. vm_compute. discriminate.
  - intros row c [<-|[]] Hc. cbn in Hc.
    repeat (destruct Hc as [<-|Hc]; [ reflexivity | ]). destruct Hc.
  - exact bands_44100_start.
  - eexists. split; [ exact Hpick | ]. intros p Hp.
    apply in_flat_map in Hp. destruct Hp as (t & Ht & Hp).
    apply in_flat_map in Hp. destruct Hp as (band & Hband & Hp).
    apply in_seq in Ht. apply (Hchosen t band); [ lia | exact Hband | exact Hp ].
Defined.

End pick_peaks_claim.

(* ================================================================== *)
(** * Part IV: further properties of the code *)
(* ================================================================== *)

(** ** The hash of a file *)

Section file_hash.
Import fingerprint.

(** X1: [CalculateFileHash] returns the empty string exactly when the
    file cannot be opened or read to its end; otherwise it returns the
    SHA-1 of the bytes of the file, forty lower-case hexadecimal digits.
    An empty file has the hash [da39a3ee...], not the empty string. *)
Theorem CalculateFileHash_empty_iff_unreadable (fs : os.FileSystem) (filePath : string) :
  (CalculateFileHash fs filePath = ""%string
   <-> (exists err, fs filePath = Go.Err err)
       \/ (exists f err, fs filePath = Go.Ok f /\ os.read_error f = Some err))
  /\ (forall f,
        fs filePath = Go.Ok f -> os.read_error f = None ->
        CalculateFileHash fs filePath = Go.EncodeToString (sha1.Sum (os.contents f))
        /\ String.length (CalculateFileHash fs filePath) = 40%nat
        /\ lower_hex (CalculateFileHash fs filePath)
        /\ (os.contents f = [] ->
            CalculateFileHash fs filePath
            = "da39a3ee5e6b4b0d3255bfef95601890afd80709"%string)).
Proof.
  unfold CalculateFileHash. split.
  - destruct (fs filePath) as [f|err] eqn:Hfs.
    + destruct (os.read_error f) as [err|] eqn:Hread.
      * split; [ intros _; right; eauto | reflexivity ].
      * split.
        -- intros Hempty. apply (f_equal String.length) in Hempty.
           rewrite EncodeToString_length, sha1_Sum_length in Hempty. discriminate.
        -- intros [[err Herr] | (f' & err & Hf & Herr)]; [ discriminate | ].
           injection Hf as <-. congruence.
    + split; [ intros _; left; eauto | reflexivity ].
  - intros f -> ->. repeat split.
    + rewrite EncodeToString_length, sha1_Sum_length. reflexivity.
    + apply EncodeToString_lower_hex.
    + intros ->. vm_compute. reflexivity.
Qed.

End file_hash.

(** ** The width of the fan *)

Section encoder_sizes.
Import fingerprint.

Lemma length_flat_map_le {A B} (f : A -> list B) (l : list A) (k : nat) :
  (forall x, In x l -> (length (f x) <= k)%nat) ->
  (length (flat_map f l) <= k * length l)%nat.
Proof.
  intros Hk. induction l as [|x l IH]; cbn [flat_map length]; [ lia | ].
  rewrite length_app.
  specialize (Hk x (or_introl eq_refl)) as Hx.
  specialize (IH (fun y Hy => Hk y (or_intror Hy))). lia.
Qed.

Lemma emitted_at_most_one (peaks : list Peak) (i j : nat) :
  (length (emitted peaks i j) <= 1)%nat.
Proof.
  unfold emitted. destruct (peaks !! i), (peaks !! j); cbn; try lia.
  destruct (rejected _); cbn; lia.
Qed.

Lemma targets_length (n i : nat) : (length (targets n i) <= 14)%nat.
Proof. unfold targets. rewrite length_seq. lia. Qed.

Lemma anchor_tokens_length (peaks : list Peak) (i : nat) :
  (length (flat_map (emitted peaks i) (targets (length peaks) i)) <= 14)%nat.
Proof.
  pose proof (length_flat_map_le (emitted peaks i) (targets (length peaks) i) 1
                (fun j _ => emitted_at_most_one peaks i j)) as H.
  pose proof (targets_length (length peaks) i). lia.
Qed.

(** X2: the base encoder returns at most 14 fingerprints for each peak
    (an anchor is paired with the [FAN_VALUE - 1] peaks that follow it at
    most), and none when there are fewer than two peaks. *)
Theorem base_encoder_size (peaks : list Peak) (microphoneTolerance : bool) :
  exists fingerprints,
    generateFingerprintsWithTolerance peaks microphoneTolerance = Some fingerprints
    /\ Z.of_nat (length fingerprints)
       <= (Z.of_nat FAN_VALUE - 1) * Z.of_nat (length peaks)
    /\ ((length peaks <= 1)%nat -> fingerprints = []).
Proof.
  rewrite generateFingerprintsWithTolerance_emitted.
  eexists. split; [ reflexivity | ]. split.
  - pose proof (length_flat_map_le
                  (fun i => flat_map (emitted peaks i) (targets (length peaks) i))
                  (seq 0 (length peaks)) 14
                  (fun i _ => anchor_tokens_length peaks i)) as H.
    rewrite length_seq in H. change (Z.of_nat FAN_VALUE - 1) with 14. lia.
  - intros Hlen. destruct peaks as [|p [|q peaks]]; cbn in Hlen; try lia; reflexivity.
Qed.

(** X3: the fingerprints of a microphone sample are those of a file
    with the same peaks, followed by the tolerance fingerprints, of which
    there are at most 10001: whatever the peaks,
    [GenerateFingerprintsForMicrophone] returns, its result starts with
    the result of [GenerateFingerprints], and it is longer by 10001 at
    most. *)
Theorem microphone_fingerprints_extend_base (peaks : list Peak) :
  exists base tolerance,
    GenerateFingerprints peaks = Some base
    /\ generateFingerprintsWithMinimalTolerance peaks = Some tolerance
    /\ GenerateFingerprintsForMicrophone peaks = Some (base ++ tolerance)
    /\ Z.of_nat (length tolerance) <= 10001
    /\ Z.of_nat (length (base ++ tolerance)) <= 14 * Z.of_nat (length peaks) + 10001.
Proof.
  unfold GenerateFingerprintsForMicrophone, GenerateFingerprints.
  rewrite generateFingerprintsWithMinimalTolerance_stream.
  rewrite generateFingerprintsWithTolerance_emitted.
  eexists _, _. split; [ reflexivity | ]. split; [ reflexivity | ].
  split; [ reflexivity | ].
  assert (Htol : Z.of_nat (length (take (Z.to_nat 10001) (tolerance_stream peaks))) <= 10001).
  { rewrite length_take. lia. }
  split; [ exact Htol | ].
  rewrite length_app.
  pose proof (length_flat_map_le
                (fun i => flat_map (emitted peaks i) (targets (length peaks) i))
                (seq 0 (length peaks)) 14
                (fun i _ => anchor_tokens_length peaks i)) as H.
  rewrite length_seq in H. lia.
Qed.

End encoder_sizes.

(** ** Local peaks and the number of peaks *)

Section local_peak_test.
Import fingerprint.

Lemma slices_width {A} (grid : list (list A)) :
  slices grid -> Z.of_nat (length (hd [] grid)) <= Go.max_int.
Proof.
  intros [_ Hrows]. destruct grid as [|row grid]; cbn [hd length].
  - unfold Go.max_int. lia.
  - apply Forall_cons in Hrows. tauto.
Qed.

Lemma not_below_neighbours (magnitudes : list (list float)) (t f : Z) (v : float) :
  existsb (fun dt => existsb (not_below magnitudes t f v dt) [-1; 0; 1]) [-1; 0; 1] = false
  <-> forall dt df w,
        In (dt, df) offsets ->
        cell magnitudes (t + dt) (f + df) = Some w -> (v <=? w)%float = false.
Proof.
  cbn [existsb]. rewrite !orb_false_r. split.
  - intros Hall dt df w Hin Hw.
    assert (Hnb : not_below magnitudes t f v dt df = false).
    { repeat match goal with
             | H : _ || _ = false |- _ => apply orb_false_iff in H; destruct H
             end.
      cbn in Hin. repeat (destruct Hin as [[= <- <-]|Hin]; [ assumption | ]).
      destruct Hin. }
    unfold not_below in Hnb. rewrite Hw in Hnb.
    assert (Hne : (dt =? 0) && (df =? 0) = false).
    { cbn in Hin. repeat (destruct Hin as [[= <- <-]|Hin]; [ reflexivity | ]).
      destruct Hin. }
    rewrite Hne in Hnb. exact Hnb.
  - intros Hall.
    assert (Hnb : forall dt df, In (dt, df) offsets ->
                    not_below magnitudes t f v dt df = false).
    { intros dt df Hin. unfold not_below.
      destruct (cell magnitudes (t + dt) (f + df)) as [w|] eqn:Hw;
        [ | apply andb_false_r ].
      rewrite (Hall dt df w Hin Hw). apply andb_false_r. }
    rewrite (Hnb (-1) (-1)), (Hnb (-1) 0), (Hnb (-1) 1), (Hnb 0 (-1)), (Hnb 0 1),
      (Hnb 1 (-1)), (Hnb 1 0), (Hnb 1 1) by (cbn; tauto).
    unfold not_below. reflexivity.
Qed.

(** X4: on a rectangular grid [isLocalPeak] panics exactly when the
    cell [(t, f)] is off the grid; for a cell of the grid it answers
    [true] exactly when [peak <= neighbour] fails for each of the eight
    neighbours that lie on the grid: neighbours off the grid are passed
    over, and an equal neighbour (a plateau) makes the answer [false]. *)
Theorem isLocalPeak_neighbours (magnitudes : list (list float)) (t f : Z) :
  rectangular magnitudes ->
  slices magnitudes ->
  match cell magnitudes t f with
  | None => isLocalPeak magnitudes t f = None
  | Some v =>
      exists b,
        isLocalPeak magnitudes t f = Some b
        /\ (b = true <->
            forall dt df w,
              In (dt, df) offsets ->
              cell magnitudes (t + dt) (f + df) = Some w ->
              (v <=? w)%float = false)
  end.
Proof.
  intros Hrect Hslices.
  destruct (cell magnitudes t f) as [v|] eqn:Hcell.
  - assert (Hwidth : width magnitudes <= Go.max_int).
    { rewrite width_hd. apply slices_width, Hslices. }
    eexists. split.
    + exact (isLocalPeak_not_below magnitudes Hrect (proj1 Hslices) Hwidth t f v Hcell).
    + rewrite <- not_below_neighbours.
      destruct (existsb _ _); cbn; split; congruence.
  - unfold isLocalPeak. unfold cell in Hcell.
    destruct (Go.index magnitudes t) as [row|]; [ | reflexivity ].
    cbn [mbind option_bind] in Hcell |- *. rewrite Hcell. reflexivity.
Qed.

Lemma example_magnitudes_rectangular : rectangular example_magnitudes.
Proof.
  intros row Hrow. cbn in Hrow. destruct Hrow as [<-|[<-|[]]]; reflexivity.
Qed.

Lemma example_magnitudes_slices : slices example_magnitudes.
Proof.
  split; [ | repeat constructor ]; cbn; unfold Go.max_int; lia.
Qed.

Lemma isLocalPeak_neighbours_witness :
  match cell example_magnitudes 0 1 with
  | None => isLocalPeak example_magnitudes 0 1 = None
  | Some v =>
      exists b,
        isLocalPeak example_magnitudes 0 1 = Some b
        /\ (b = true <->
            forall dt df w,
              In (dt, df) offsets ->
              cell example_magnitudes (0 + dt) (1 + df) = Some w ->
              (v <=? w)%float = false)
  end.
Proof.
  apply (isLocalPeak_neighbours example_magnitudes 0 1).
  - exact example_magnitudes_rectangular.
  - exact example_magnitudes_slices.
Defined.

(** The peak of the first frame has an equal neighbour in the second:
    neither is a local peak; the corner cell is below its neighbours. *)
Example isLocalPeak_plateau :
  isLocalPeak example_magnitudes 0 1 = Some false
  /\ isLocalPeak example_magnitudes 1 1 = Some false
  /\ isLocalPeak example_magnitudes 0 0 = Some false
  /\ isLocalPeak example_magnitudes 2 1 = None
  /\ isLocalPeak [[0.5%float]] 0 0 = Some true.
Proof. repeat split. Qed.

End local_peak_test.

Section peak_count.
Import fingerprint.

Lemma length_concat_le {A} (ls : list (list A)) (k : nat) :
  Forall (fun l => (length l <= k)%nat) ls ->
  (length (concat ls) <= k * length ls)%nat.
Proof.
  induction 1 as [|l ls Hl _ IH]; cbn [concat length]; [ lia | ].
  rewrite length_app. lia.
Qed.

Lemma getFrequencyBands_length (sampleRate windowSize : Z) :
  length (getFrequencyBands sampleRate windowSize) = 6%nat.
Proof. reflexivity. Qed.

(** X5: [PickPeaks] returns the peaks frame after frame, at most six for
    a frame (one for each band), so at most six times as many as there
    are frames.  The constant [MAX_PEAKS_PER_FRAME] (3) plays no part: a
    frame with a tone in each of the six bands gives six peaks. *)
Theorem PickPeaks_six_per_frame (Abs : complex128 -> float)
    (spectrogram : list (list complex128)) (sampleRate : Z) :
  rectangular spectrogram ->
  slices spectrogram ->
  (forall row c, In row spectrogram -> In c row -> numeric (Abs c)) ->
  Forall (fun b => 0 <= Start b) (getFrequencyBands sampleRate WINDOW_SIZE) ->
  (exists frames : list (list Peak),
     PickPeaks Abs spectrogram sampleRate = Some (concat frames)
     /\ (length frames <= length spectrogram)%nat
     /\ (forall t ps, frames !! t = Some ps ->
           (length ps <= 6)%nat
           /\ Forall (fun p => Time p = Go.float64 (Z.of_nat t)) ps)
     /\ Z.of_nat (length (concat frames)) <= 6 * Z.of_nat (length spectrogram))
  /\ (length <$> PickPeaks fst six_tones 44100 = Some 6%nat
      /\ MAX_PEAKS_PER_FRAME = 3).
Proof.
  intros Hrect Hslices Hnumeric Hbands.
  split; [ | split; [ vm_compute | ]; reflexivity ].
  rewrite (PickPeaks_band_peaks Abs spectrogram sampleRate) by assumption.
  set (magnitudes := getMagnitudes Abs spectrogram).
  set (bands := getFrequencyBands sampleRate WINDOW_SIZE).
  set (frame := fun t : nat => flat_map (band_peaks magnitudes sampleRate t) bands).
  assert (Hframe : forall t, (length (frame t) <= 6)%nat).
  { intros t. unfold frame.
    pose proof (length_flat_map_le (band_peaks magnitudes sampleRate t) bands 1
                  (fun band _ => band_peaks_at_most_one Abs spectrogram sampleRate t band))
      as H.
    unfold bands in H at 2. rewrite getFrequencyBands_length in H. lia. }
  assert (Htime : forall t p, In p (frame t) -> Time p = Go.float64 (Z.of_nat t)).
  { intros t p Hp. unfold frame in Hp. apply in_flat_map in Hp as (band & _ & Hp).
    unfold band_peaks in Hp.
    destruct (magnitudes !! t) as [row|]; [ | destruct Hp ].
    destruct (_ || _); [ destruct Hp | ].
    destruct (scan _ _ _ _) as [[maxMag maxBin]| |]; try destruct Hp.
    destruct (_ && _); [ | destruct Hp ].
    destruct Hp as [<-|[]]. reflexivity. }
  destruct ((length spectrogram =? 0)%nat || _).
  - exists []. cbn [concat length]. repeat split; try lia.
    + rewrite lookup_nil in H. discriminate.
    + rewrite lookup_nil in H. discriminate.
  - exists (map frame (seq 0 (length spectrogram))).
    rewrite <- flat_map_concat_map. split; [ reflexivity | ].
    rewrite length_map, length_seq. split; [ lia | ]. split.
    + intros t ps Hps. rewrite list_lookup_fmap in Hps.
      destruct (seq 0 (length spectrogram) !! t) as [t'|] eqn:Ht; [ | discriminate ].
      apply lookup_seq in Ht as [-> _]. injection Hps as <-. cbn [Nat.add].
      split; [ apply Hframe | ]. apply List.Forall_forall. apply Htime.
    + rewrite flat_map_concat_map.
      pose proof (length_concat_le (map frame (seq 0 (length spectrogram))) 6) as H.
      rewrite length_map, length_seq in H.
      assert (Hall : Forall (fun l => (length l <= 6)%nat)
                       (map frame (seq 0 (length spectrogram)))).
      { apply List.Forall_forall. intros l Hl. apply in_map_iff in Hl as (t & <- & _).
        apply Hframe. }
      specialize (H Hall). lia.
Qed.

Lemma six_tones_rectangular : rectangular six_tones.
Proof. intros row Hrow. destruct Hrow as [<-|[]]. reflexivity. Qed.

Lemma six_tones_slices : slices six_tones.
Proof.
  split; [ | repeat constructor ]; cbn [length six_tones]; rewrite ?length_map, ?length_seq;
    unfold Go.max_int; lia.
Qed.

Lemma six_tones_numeric (row : list complex128) (c : complex128) :
  In row six_tones -> In c row -> numeric (fst c).
Proof.
  intros [<-|[]] Hc. apply in_map_iff in Hc as (f & <- & _).
  destruct (existsb _ _); reflexivity.
Qed.

Lemma PickPeaks_six_per_frame_witness :
  (exists frames : list (list Peak),
     PickPeaks fst six_tones 44100 = Some (concat frames)
     /\ (length frames <= length six_tones)%nat
     /\ (forall t ps, frames !! t = Some ps ->
           (length ps <= 6)%nat
           /\ Forall (fun p => Time p = Go.float64 (Z.of_nat t)) ps)
     /\ Z.of_nat (length (concat frames)) <= 6 * Z.of_nat (length six_tones))
  /\ (length <$> PickPeaks fst six_tones 44100 = Some 6%nat
      /\ MAX_PEAKS_PER_FRAME = 3).
Proof.
  apply (PickPeaks_six_per_frame fst six_tones 44100).
  - exact six_tones_rectangular.
  - exact six_tones_slices.
  - exact six_tones_numeric.
  - exact bands_44100_start.
Defined.

End peak_count.

(** ** The recorder: what it hands out of its buffer *)

Lemma fill_from {A} (src done rest : list A) :
  (length src <= length rest)%nat ->
  Go.for_each (Go.enumerate_from (length done) src)
    (fun '(i, x) dst =>
       match Go.store dst i x with
       | Some dst' => Go.Next dst'
       | None => Go.Panic
       end)
    (done ++ rest)
  = Go.Next (done ++ src ++ drop (length src) rest).
Proof.
  revert done rest. induction src as [|x src IH]; intros done rest Hlen.
  - cbn [Go.enumerate_from Go.for_each length app]. rewrite drop_0. reflexivity.
  - destruct rest as [|y rest]; cbn [length] in Hlen; [ lia | ].
    cbn [Go.enumerate_from Go.for_each].
    unfold Go.store. rewrite length_app. cbn [length].
    destruct (Nat.ltb_spec (length done) (length done + S (length rest))); [ | lia ].
    rewrite insert_app_r_alt by lia. rewrite Nat.sub_diag. cbn [insert list_insert].
    replace (done ++ x :: rest) with ((done ++ [x]) ++ rest)
      by (rewrite <- app_assoc; reflexivity).
    replace (S (length done)) with (length (done ++ [x]))
      by (rewrite length_app; cbn [length]; lia).
    rewrite IH by lia. rewrite <- app_assoc. reflexivity.
Qed.

(** [for i, x := range src { dst[i] = x }] on a [dst] that is long
    enough. *)
Lemma fill_prefix {A} (dst src : list A) :
  (length src <= length dst)%nat ->
  Go.fill dst src = Some (src ++ drop (length src) dst).
Proof.
  intros Hlen. unfold Go.fill, Go.enumerate.
  pose proof (fill_from src [] dst Hlen) as H. cbn [length app] in H.
  rewrite H. reflexivity.
Qed.

Lemma fill_exact {A} (dst src : list A) :
  length src = length dst -> Go.fill dst src = Some src.
Proof.
  intros Hlen. rewrite fill_prefix by lia.
  rewrite drop_ge by lia. rewrite app_nil_r. reflexivity.
Qed.

Lemma most_recent_most_recent {A} (n m : nat) (l : list A) :
  (n <= m)%nat -> most_recent n (most_recent m l) = most_recent n l.
Proof.
  intros Hnm. unfold most_recent. rewrite length_drop, drop_drop. f_equal. lia.
Qed.

Lemma most_recent_all {A} (n : nat) (l : list A) :
  (length l <= n)%nat -> most_recent n l = l.
Proof.
  intros Hlen. unfold most_recent.
  replace (length l - n)%nat with 0%nat by lia. apply drop_0.
Qed.

Section recorder_buffer.
Import microphone.

(** What [GetAudioBuffer] returns at 44.1 kHz. *)
Lemma GetAudioBuffer_most_recent (mr : MicrophoneRecorder) :
  sampleRate mr = 44100 ->
  Z.of_nat (length (audioBuffer mr)) <= Go.max_int ->
  GetAudioBuffer mr = Some (most_recent (Z.to_nat 220500) (audioBuffer mr)).
Proof.
  intros Hsr Hlen. unfold Go.max_int in Hlen. unfold GetAudioBuffer.
  rewrite Hsr. change (Go.mul 44100 5) with 220500.
  set (buf := audioBuffer mr) in *.
  destruct (Z.ltb_spec (Z.of_nat (length buf)) 220500) as [Hlt|Hge].
  - unfold make. destruct (Z.ltb_spec (Z.of_nat (length buf)) 0); [ lia | ].
    cbn [mbind option_bind]. rewrite Nat2Z.id.
    rewrite fill_exact by (rewrite repeat_length; reflexivity).
    rewrite most_recent_all by lia. reflexivity.
  - unfold make. cbn [Z.ltb Z.compare mbind option_bind].
    unfold Go.sub. rewrite wrap_small' by lia.
    rewrite slice_in_range by lia. cbn [mbind option_bind].
    replace (Z.to_nat (Z.of_nat (length buf) - (Z.of_nat (length buf) - 220500)))
      with (Z.to_nat 220500) by lia.
    replace (Z.to_nat (Z.of_nat (length buf) - 220500))
      with (length buf - Z.to_nat 220500)%nat by lia.
    fold (most_recent (Z.to_nat 220500) buf).
    assert (Hrecent : length (most_recent (Z.to_nat 220500) buf) = Z.to_nat 220500).
    { unfold most_recent. rewrite length_drop. lia. }
    rewrite take_ge by lia.
    apply fill_exact. rewrite repeat_length. exact Hrecent.
Qed.

(** X6: after the callbacks of a capture session, [GetAudioBuffer]
    returns the most recent 220 500 samples (five seconds at 44.1 kHz) of
    all that the driver delivered, or all of it when there is less; it
    does not panic. *)
Theorem GetAudioBuffer_after_capture (ins : list (list float)) :
  Forall (fun in_ => Z.of_nat (length in_) <= Go.max_int - 441000) ins ->
  exists mr buffer,
    capture NewMicrophoneRecorder ins = Some mr
    /\ GetAudioBuffer mr = Some buffer
    /\ buffer = most_recent (Z.to_nat 220500) (concat ins)
    /\ Z.of_nat (length buffer) <= 220500
    /\ 220500 = SAMPLE_RATE * 5.
Proof.
  intros Hins.
  destruct (capture_most_recent ins NewMicrophoneRecorder [] Hins)
    as (mr & Hmr & Hsr & Hbuf); [ reflexivity | reflexivity | ].
  cbn [app] in Hbuf.
  exists mr, (most_recent (Z.to_nat 220500) (concat ins)).
  split; [ exact Hmr | ]. split.
  - rewrite GetAudioBuffer_most_recent.
    + rewrite Hbuf. rewrite most_recent_most_recent by lia. reflexivity.
    + exact Hsr.
    + rewrite Hbuf. pose proof (most_recent_length (Z.to_nat 441000) (concat ins)).
      unfold Go.max_int. lia.
  - split; [ reflexivity | ]. split; [ | reflexivity ].
    pose proof (most_recent_length (Z.to_nat 220500) (concat ins)). lia.
Qed.

Lemma GetAudioBuffer_after_capture_witness :
  exists mr buffer,
    capture NewMicrophoneRecorder example_capture = Some mr
    /\ GetAudioBuffer mr = Some buffer
    /\ buffer = most_recent (Z.to_nat 220500) (concat example_capture)
    /\ Z.of_nat (length buffer) <= 220500
    /\ 220500 = SAMPLE_RATE * 5.
Proof.
  apply (GetAudioBuffer_after_capture example_capture).
  repeat constructor; cbn [length]; unfold Go.max_int; lia.
Defined.

(** The buffer after a callback that delivers samples. *)
Lemma audioCallback_segments (mr : MicrophoneRecorder) (in_ : list float) :
  sampleRate mr = 44100 ->
  in_ <> [] ->
  Z.of_nat (length in_) + Z.of_nat (length (audioBuffer mr)) <= Go.max_int ->
  audioCallback mr in_
  = Some (set_audioBuffer mr (most_recent (Z.to_nat 441000) (audioBuffer mr ++ in_)),
          if 220500 <=? Z.of_nat (length (audioBuffer mr ++ in_))
          then [most_recent (Z.to_nat 220500) (audioBuffer mr ++ in_)]
          else []).
Proof.
  intros Hsr Hin Hlen.
  destruct (audioCallback_most_recent mr in_ Hsr Hin Hlen) as [segments Hcall].
  rewrite Hcall. f_equal. f_equal.
  unfold audioCallback in Hcall.
  destruct in_ as [|x in_]; [ congruence | ]. cbn [length Nat.eqb] in Hcall.
  set (buf := audioBuffer mr ++ x :: in_) in *.
  assert (Hbuf : 0 <= Z.of_nat (length buf) <= Go.max_int).
  { subst buf. rewrite length_app. cbn [length] in *. lia. }
  unfold Go.max_int in Hbuf.
  destruct (if Z.of_nat (length buf) >? Go.mul (sampleRate mr) 10 then _ else _)
    as [kept|] eqn:Hkept; [ | discriminate ].
  cbn [mbind option_bind sampleRate set_audioBuffer] in Hcall.
  rewrite Hsr in Hcall. change (Go.mul 44100 BUFFER_DURATION) with 220500 in Hcall.
  assert (Hkept' : kept = most_recent (Z.to_nat 441000) buf).
  { destruct (Z.of_nat (length kept) >=? 220500).
    - destruct (make 220500); [ | discriminate ].
      cbn [mbind option_bind] in Hcall.
      destruct (Go.slice kept _ _); [ | discriminate ].
      cbn [mbind option_bind] in Hcall. injection Hcall as Hcall _. exact Hcall.
    - injection Hcall as Hcall _. exact Hcall. }
  subst kept.
  set (kept := most_recent (Z.to_nat 441000) buf) in *.
  assert (Hlen_kept : length kept = Nat.min (length buf) (Z.to_nat 441000)).
  { subst kept. unfold most_recent. rewrite length_drop. lia. }
  destruct (Z.geb_spec (Z.of_nat (length kept)) 220500) as [Hge|Hlt].
  - destruct (Z.leb_spec 220500 (Z.of_nat (length buf))) as [_|]; [ | lia ].
    unfold make in Hcall. cbn [Z.ltb Z.compare mbind option_bind] in Hcall.
    unfold Go.sub in Hcall. rewrite wrap_small' in Hcall by lia.
    rewrite slice_in_range in Hcall by lia. cbn [mbind option_bind] in Hcall.
    apply (f_equal (fun o : option (MicrophoneRecorder * list (list float)) =>
                      match o with Some p => snd p | None => [] end)) in Hcall.
    cbv beta iota in Hcall. cbn [snd] in Hcall. rewrite <- Hcall.
    apply (f_equal (fun x => [x])).
    replace (Z.to_nat (Z.of_nat (length kept) - (Z.of_nat (length kept) - 220500)))
      with (Z.to_nat 220500) by lia.
    replace (Z.to_nat (Z.of_nat (length kept) - 220500))
      with (length kept - Z.to_nat 220500)%nat by lia.
    fold (most_recent (Z.to_nat 220500) kept).
    subst kept. rewrite most_recent_most_recent by lia.
    set (recent := most_recent (Z.to_nat 220500) buf).
    assert (Hrecent : length recent = Z.to_nat 220500).
    { subst recent. unfold most_recent. rewrite length_drop. lia. }
    rewrite take_ge by lia. unfold Go.copy. rewrite repeat_length, Hrecent.
    rewrite Nat.min_id. rewrite take_ge by lia.
    rewrite drop_ge by (rewrite repeat_length; lia). apply app_nil_r.
  - destruct (Z.leb_spec 220500 (Z.of_nat (length buf))) as [|_]; [ lia | ].
    injection Hcall as <-. reflexivity.
Qed.

(** X7: a callback without samples changes nothing and starts nothing.
    A callback with samples hands a segment to [processAudioSegment]
    exactly when at least five seconds (220 500 samples) are then at
    hand, and the segment is those last five seconds: 220 500 samples,
    the very ones [GetAudioBuffer] returns after the callback. *)
Theorem audioCallback_segment (mr : MicrophoneRecorder) (in_ : list float) :
  sampleRate mr = 44100 ->
  Z.of_nat (length in_) + Z.of_nat (length (audioBuffer mr)) <= Go.max_int ->
  exists mr' segments recent,
    audioCallback mr in_ = Some (mr', segments)
    /\ GetAudioBuffer mr' = Some recent
    /\ (in_ = [] -> mr' = mr /\ segments = [])
    /\ (in_ <> [] ->
        recent = most_recent (Z.to_nat 220500) (audioBuffer mr ++ in_)
        /\ (Z.of_nat (length (audioBuffer mr ++ in_)) < 220500 -> segments = [])
        /\ (220500 <= Z.of_nat (length (audioBuffer mr ++ in_)) ->
            segments = [recent] /\ Z.of_nat (length recent) = 220500)).
Proof.
  intros Hsr Hlen. destruct in_ as [|x in_].
  - exists mr, [], (most_recent (Z.to_nat 220500) (audioBuffer mr)).
    split; [ reflexivity | ]. split.
    + apply GetAudioBuffer_most_recent; [ exact Hsr | cbn [length] in Hlen; lia ].
    + split; [ auto | congruence ].
  - set (in_' := x :: in_) in *.
    assert (Hin : in_' <> []) by discriminate.
    rewrite (audioCallback_segments mr in_' Hsr Hin Hlen).
    eexists _, _, (most_recent (Z.to_nat 220500) (audioBuffer mr ++ in_')).
    split; [ reflexivity | ]. split.
    + rewrite GetAudioBuffer_most_recent.
      * cbn [audioBuffer set_audioBuffer].
        rewrite most_recent_most_recent by lia. reflexivity.
      * exact Hsr.
      * cbn [audioBuffer set_audioBuffer].
        pose proof (most_recent_length (Z.to_nat 441000) (audioBuffer mr ++ in_')).
        unfold Go.max_int. lia.
    + split; [ congruence | ]. intros _. split; [ reflexivity | ].
      destruct (Z.leb_spec 220500 (Z.of_nat (length (audioBuffer mr ++ in_')))).
      * split; [ lia | ]. intros _. split; [ reflexivity | ].
        unfold most_recent. rewrite length_drop. lia.
      * split; [ reflexivity | lia ].
Qed.

Lemma audioCallback_segment_witness :
  exists mr' segments recent,
    audioCallback NewMicrophoneRecorder [0.5; 0.25]%float = Some (mr', segments)
    /\ GetAudioBuffer mr' = Some recent
    /\ ([0.5; 0.25]%float = [] -> mr' = NewMicrophoneRecorder /\ segments = [])
    /\ ([0.5; 0.25]%float <> [] ->
        recent = most_recent (Z.to_nat 220500)
                   (audioBuffer NewMicrophoneRecorder ++ [0.5; 0.25]%float)
        /\ (Z.of_nat (length (audioBuffer NewMicrophoneRecorder ++ [0.5; 0.25]%float))
            < 220500 -> segments = [])
        /\ (220500
            <= Z.of_nat (length (audioBuffer NewMicrophoneRecorder ++ [0.5; 0.25]%float)) ->
            segments = [recent] /\ Z.of_nat (length recent) = 220500)).
Proof.
  apply (audioCallback_segment NewMicrophoneRecorder [0.5; 0.25]%float).
  - reflexivity.
  - cbn [length audioBuffer NewMicrophoneRecorder]. unfold Go.max_int. lia.
Defined.

End recorder_buffer.

(** ** The recorder: recognition of a segment *)

Section segment_recognition.
Import microphone.

(** X8: [processAudioSegment] sends at most one result for a segment
    and never one that reports a song ([Found] is always [false]).  A
    result without error is sent only when the segment gave a
    spectrogram, at least 10 peaks and at least 50 fingerprints; with
    fewer peaks or fingerprints nothing is sent at all. *)
Theorem processAudioSegment_never_finds
    (SamplesToSpectrogram :
       list float -> Z -> Go.fallible (list (list fingerprint.complex128)))
    (Abs : fingerprint.complex128 -> float)
    (mr : MicrophoneRecorder) (audioData : list float) :
  let sent := processAudioSegment SamplesToSpectrogram Abs mr audioData in
  (length sent <= 1)%nat
  /\ Forall (fun r => Found r = false) sent
  /\ (forall r, In r sent -> Error r = None ->
        exists spectrogram peaks fingerprints,
          SamplesToSpectrogram audioData (sampleRate mr) = Go.Ok spectrogram
          /\ fingerprint.PickPeaks Abs spectrogram (sampleRate mr) = Some peaks
          /\ 10 <= Z.of_nat (length peaks)
          /\ fingerprint.GenerateFingerprints peaks = Some fingerprints
          /\ 50 <= Z.of_nat (length fingerprints))
  /\ (forall spectrogram peaks,
        SamplesToSpectrogram audioData (sampleRate mr) = Go.Ok spectrogram ->
        fingerprint.PickPeaks Abs spectrogram (sampleRate mr) = Some peaks ->
        Z.of_nat (length peaks) < 10 \/
        (exists fingerprints,
           fingerprint.GenerateFingerprints peaks = Some fingerprints
           /\ Z.of_nat (length fingerprints) < 50) ->
        sent = []).
Proof.
  cbv zeta. unfold processAudioSegment.
  destruct (SamplesToSpectrogram audioData (sampleRate mr)) as [spectrogram|err] eqn:Hs.
  - destruct (fingerprint.PickPeaks Abs spectrogram (sampleRate mr)) as [peaks|] eqn:Hpk;
      cbn [mbind option_bind].
    + destruct (Z.ltb_spec (Z.of_nat (length peaks)) 10) as [Hp|Hp].
      { split; [ cbn; lia | ]. split; [ constructor | ].
        split; [ intros r [] | reflexivity ]. }
      destruct (fingerprint.GenerateFingerprints peaks) as [fingerprints|] eqn:Hfp;
        cbn [mbind option_bind].
      * destruct (Z.ltb_spec (Z.of_nat (length fingerprints)) 50) as [Hf|Hf].
        { split; [ cbn; lia | ]. split; [ constructor | ].
          split; [ intros r [] | reflexivity ]. }
        split; [ cbn; lia | ]. split; [ repeat constructor | ]. split.
        -- intros r _ _. exists spectrogram, peaks, fingerprints.
           repeat split; try assumption; lia.
        -- intros s p [= <-] Hp' [Hlt | (fps & Hfps & Hlt)];
             rewrite Hpk in Hp'; injection Hp' as <-; [ lia | ].
           rewrite Hfp in Hfps. injection Hfps as <-. lia.
      * split; [ cbn; lia | ]. split; [ repeat constructor | ]. split.
        -- intros r [<-|[]]. discriminate.
        -- intros s p [= <-] Hp' [Hlt | (fps & Hfps & Hlt)];
             rewrite Hpk in Hp'; injection Hp' as <-; [ lia | congruence ].
    + split; [ cbn; lia | ]. split; [ repeat constructor | ]. split.
      * intros r [<-|[]]. discriminate.
      * intros s p [= <-] Hp'. congruence.
  - split; [ cbn; lia | ]. split; [ repeat constructor | ]. split.
    + intros r [<-|[]]. discriminate.
    + intros s p [=].
Qed.

End segment_recognition.

(** ** The recorder: starting and stopping *)

Section recorder_stream.
Import microphone.

Ltac in_calls :=
  repeat match goal with
    | H : In _ [] |- _ => destruct H
    | H : In _ (_ :: _) |- _ =>
        destruct H as [H|H]; [ try discriminate H; try (injection H as ->) | ]
    | H : exists s, In _ _ |- _ => destruct H as [? H]
    end.

(** X9: [StartRecording] marks the recorder as recording as soon as the
    stream is open, before it starts it.  So after the call the recorder
    is recording exactly when it was before or [stream.Start] was called,
    whether that call succeeded or not: when the stream fails to start,
    the error is returned and the recorder is left recording.  A recorder
    that is recording refuses to start: it returns
    ["recording is already in progress"] and makes no call to PortAudio.
    The audio buffer is never touched. *)
Theorem StartRecording_marks_recording (pa : portaudio.Library) (r r' : Recorder)
    (err : option string) (calls : list portaudio.call) :
  StartRecording pa r = (r', err, calls) ->
  (IsRecording (recorder r') = true
   <-> IsRecording (recorder r) = true \/ exists s, In (portaudio.CallStart s) calls)
  /\ (err = None -> IsRecording (recorder r') = true)
  /\ (forall s e,
        In (portaudio.CallStart s) calls -> portaudio.Start pa s = Some e ->
        err = Some ("failed to start audio stream: " ++ e)%string
        /\ IsRecording (recorder r') = true
        /\ stream r' = Some s)
  /\ (IsRecording (recorder r') = true ->
      StartRecording pa r'
      = (r', Some "recording is already in progress"%string, []))
  /\ audioBuffer (recorder r') = audioBuffer (recorder r).
Proof.
  unfold StartRecording, IsRecording. intros Hstart.
  destruct (isRecording (recorder r)) eqn:Hrec.
  - injection Hstart as <- <- <-. rewrite Hrec.
    repeat split; intros; in_calls; auto; discriminate.
  - destruct (portaudio.DefaultInputDevice pa) as [device|e0].
    + destruct (portaudio.OpenStream pa _) as [s|e1].
      * destruct (portaudio.Start pa s) as [e|] eqn:He;
          injection Hstart as <- <- <-;
          cbn [recorder stream set_isRecording isRecording audioBuffer];
          repeat split; intros; in_calls; auto; try discriminate; try congruence;
          right; exists s; cbn; tauto.
      * injection Hstart as <- <- <-. rewrite Hrec.
        repeat split; intros; in_calls; auto; try discriminate;
          match goal with H : _ \/ _ |- _ => destruct H; in_calls; discriminate end.
    + injection Hstart as <- <- <-. rewrite Hrec.
      repeat split; intros; in_calls; auto; try discriminate;
        match goal with H : _ \/ _ |- _ => destruct H; in_calls; discriminate end.
Qed.

Lemma StartRecording_marks_recording_witness :
  let r' := {| recorder := set_isRecording NewMicrophoneRecorder true;
               stream := Some 1%nat |} in
  IsRecording (recorder r') = true
  /\ StartRecording example_portaudio new_recorder
     = (r', Some "failed to start audio stream: device unavailable"%string,
        [portaudio.CallDefaultInputDevice;
         portaudio.CallOpenStream
           {| portaudio.Device := {| portaudio.DefaultLowInputLatency := 10 |};
              portaudio.Channels := 1;
              portaudio.Latency := 10;
              portaudio.SampleRate := 44100;
              portaudio.FramesPerBuffer := 1024 |};
         portaudio.CallStart 1%nat])
  /\ StartRecording example_portaudio r'
     = (r', Some "recording is already in progress"%string, []).
Proof.
  cbv zeta.
  pose proof (StartRecording_marks_recording example_portaudio new_recorder _ _ _ eq_refl)
    as (Hrec & _ & _ & Hagain & _).
  split; [ reflexivity | ]. split; [ reflexivity | ].
  apply Hagain. reflexivity.
Defined.

(** X10: [StopRecording] sends on [stopChannel], which has no buffer,
    before anything else: on a recorder that is recording it returns only
    if a goroutine receives from that channel, and waits for ever
    otherwise.  Whenever it returns, the recorder is not recording.  On a
    recorder that is not recording it returns
    ["no recording in progress"] and makes no call to PortAudio.  The
    stream is closed only once it has been stopped without error, and the
    recorder keeps its stream and its audio buffer. *)
Theorem StopRecording_returns_stopped (pa : portaudio.Library) (receiving : bool)
    (r : Recorder) :
  match StopRecording pa receiving r with
  | Go.Blocked => IsRecording (recorder r) = true /\ receiving = false
  | Go.Done (r', err, calls) =>
      IsRecording (recorder r') = false
      /\ (IsRecording (recorder r) = true -> receiving = true)
      /\ (IsRecording (recorder r) = false ->
          r' = r /\ err = Some "no recording in progress"%string /\ calls = [])
      /\ (forall s, In (portaudio.CallClose s) calls ->
            stream r = Some s /\ portaudio.Stop pa s = None
            /\ calls = [portaudio.CallStop s; portaudio.CallClose s])
      /\ (forall s, In (portaudio.CallStop s) calls -> stream r = Some s)
      /\ (err = None ->
          IsRecording (recorder r) = true
          /\ forall s, stream r = Some s ->
               calls = [portaudio.CallStop s; portaudio.CallClose s])
      /\ stream r' = stream r
      /\ audioBuffer (recorder r') = audioBuffer (recorder r)
  end.
Proof.
  unfold StopRecording, IsRecording.
  destruct (isRecording (recorder r)) eqn:Hrec; cbn [negb].
  - destruct receiving; cbn [negb]; [ | auto ].
    cbn [recorder stream set_isRecording isRecording audioBuffer].
    destruct (stream r) as [s|] eqn:Hs.
    + destruct (portaudio.Stop pa s) as [e|] eqn:Hstop;
        [ | destruct (portaudio.Close pa s) as [e|] eqn:Hclose ];
        repeat split; intros; in_calls; auto; try discriminate; congruence.
    + repeat split; intros; in_calls; auto; discriminate.
  - repeat split; intros; in_calls; auto; discriminate.
Qed.

(** [StopRecording] waits or leaves the recorder stopped, and it does
    not terminate PortAudio. *)
Lemma StopRecording_outcome (pa : portaudio.Library) (receiving : bool) (r : Recorder) :
  match StopRecording pa receiving r with
  | Go.Blocked => isRecording (recorder r) = true /\ receiving = false
  | Go.Done (r', _, calls) =>
      isRecording (recorder r') = false /\ ~ In portaudio.CallTerminate calls
  end.
Proof.
  unfold StopRecording.
  destruct (isRecording (recorder r)) eqn:Hrec; cbn [negb].
  - destruct receiving; cbn [negb]; [ | auto ].
    cbn [recorder stream set_isRecording isRecording].
    destruct (stream r) as [s|]; [ | split; [ reflexivity | intros [] ] ].
    destruct (portaudio.Stop pa s);
      [ split; [ reflexivity | intros [|[]]; discriminate ] | ].
    destruct (portaudio.Close pa s);
      (split; [ reflexivity | intros [|[|[]]]; discriminate ]).
  - split; [ exact Hrec | intros [] ].
Qed.

(** X11: [Cleanup] stops a recorder that is recording and then, whether
    or not the stream stopped without error, terminates PortAudio: the
    error it returns is that of [Terminate] alone, and [Terminate] is its
    last call.  It waits for ever exactly when [StopRecording] does: the
    recorder is recording and no goroutine receives from [stopChannel].
    When it returns, the recorder is not recording. *)
Theorem Cleanup_terminates (pa : portaudio.Library) (receiving : bool) (r : Recorder) :
  match Cleanup pa receiving r with
  | Go.Blocked => IsRecording (recorder r) = true /\ receiving = false
  | Go.Done (r', err, calls) =>
      err = portaudio.Terminate pa
      /\ IsRecording (recorder r') = false
      /\ (exists stopping,
            calls = stopping ++ [portaudio.CallTerminate]
            /\ ~ In portaudio.CallTerminate stopping
            /\ (IsRecording (recorder r) = false -> stopping = [])
            /\ (IsRecording (recorder r) = true ->
                exists err', StopRecording pa receiving r = Go.Done (r', err', stopping)))
  end.
Proof.
  unfold Cleanup.
  pose proof (StopRecording_outcome pa receiving r) as Hstop.
  unfold IsRecording in *.
  destruct (isRecording (recorder r)) eqn:Hrec.
  - destruct (StopRecording pa receiving r) as [[[r' err'] stopping]|] eqn:Hs;
      [ | exact Hstop ].
    destruct Hstop as [Hstopped Hcalls].
    split; [ reflexivity | ]. split; [ exact Hstopped | ].
    exists stopping. split; [ reflexivity | ]. split; [ exact Hcalls | ].
    split; [ discriminate | eauto ].
  - split; [ reflexivity | ]. split; [ exact Hrec | ].
    exists []. repeat split; auto. discriminate.
Qed.

End recorder_stream.

(** ** The matcher: candidates, lookups and the five best *)

Section matcher_candidates.
Import database eureka.

Lemma scoreSong_candidate (rt : Go.Runtime) (db : Database) (mic : bool)
    (entry : Z * list TimeMatch) (matches : list Match) (calls : list call) :
  scoreSong rt db mic entry (matches, calls)
  = Go.Next (matches ++ candidate rt db mic entry,
             calls ++ map GetSong (looked_up rt mic entry)).
Proof.
  destruct entry as [songID timeMatches].
  unfold scoreSong, candidate, looked_up, passes. cbn [fst snd].
  fold (minMatches mic). destruct (_ <? minMatches mic); cbn [negb andb].
  { rewrite !app_nil_r. reflexivity. }
  cbv zeta. fold (scoreThreshold mic).
  destruct (scoreThreshold mic <? _)%float.
  - destruct (GetSongByID db songID); [ reflexivity | ].
    rewrite app_nil_r. reflexivity.
  - rewrite !app_nil_r. reflexivity.
Qed.

Lemma scoreSongs_candidates (rt : Go.Runtime) (db : Database) (mic : bool)
    (entries : list (Z * list TimeMatch)) (matches : list Match) (calls : list call) :
  Go.for_each entries (scoreSong rt db mic) (matches, calls)
  = Go.Next (matches ++ flat_map (candidate rt db mic) entries,
             calls ++ map GetSong (flat_map (looked_up rt mic) entries)).
Proof.
  revert matches calls. induction entries as [|entry entries IH]; intros matches calls.
  - cbn. rewrite !app_nil_r. reflexivity.
  - cbn [Go.for_each flat_map]. rewrite scoreSong_candidate, IH.
    rewrite map_app, !app_assoc. reflexivity.
Qed.

Lemma in_take {A} (n : nat) (l : list A) (x : A) : In x (take n l) -> In x l.
Proof.
  intros Hx. rewrite <- (take_drop n l). apply in_or_app. left. exact Hx.
Qed.

Lemma batches_nil (hashes : list string) : length hashes = 0%nat -> batches hashes = [].
Proof. intros Hlen. unfold batches. rewrite Hlen. reflexivity. Qed.

(** [findMatches], loop by loop. *)
Lemma findMatches_candidates (rt : Go.Runtime) (db : Database) (q : gmap string Z)
    (mic : bool) :
  findMatches rt db q mic
  = Some (let '(rows, err, calls) := query_all db (batches (Go.map_keys rt _ q)) in
          match err with
          | Some e => (Go.Err e, calls)
          | None =>
              if (length rows =? 0)%nat then (Go.Ok [], calls)
              else (Go.Ok (take 5 (Go.sort_Slice rt _
                                     (fun a b => (Score b <? Score a)%float)
                                     (candidates rt db q mic))),
                    calls ++ map GetSong (lookups rt db q mic))
          end).
Proof.
  unfold findMatches, candidates, lookups, rows_of.
  set (hashes := Go.map_keys rt _ q).
  destruct (Nat.eqb_spec (length hashes) 0) as [Hnil|Hcons].
  { rewrite (batches_nil hashes Hnil). reflexivity. }
  rewrite queryBatches_query_all. cbn [mbind option_bind].
  destruct (query_all db (batches hashes)) as [[rows err] calls]. cbn [fst].
  destruct err as [e|]; [ reflexivity | ].
  destruct (length rows =? 0)%nat; [ reflexivity | ].
  rewrite scoreSongs_candidates. cbn [Go.result mbind option_bind app].
  rewrite (slice_prefix _ 5) by lia. reflexivity.
Qed.

Lemma candidate_sublist (rt : Go.Runtime) (db : Database) (mic : bool)
    (entries : list (Z * list TimeMatch)) :
  map SongID (flat_map (candidate rt db mic) entries) `sublist_of` map fst entries.
Proof.
  induction entries as [|entry entries IH]; cbn [flat_map map]; [ constructor | ].
  rewrite map_app. unfold candidate at 1.
  destruct (passes rt mic (snd entry)); [ | cbn; constructor; exact IH ].
  destruct (GetSongByID db (fst entry)); cbn; constructor; exact IH.
Qed.

Lemma looked_up_sublist (rt : Go.Runtime) (mic : bool)
    (entries : list (Z * list TimeMatch)) :
  flat_map (looked_up rt mic) entries `sublist_of` map fst entries.
Proof.
  induction entries as [|entry entries IH]; cbn [flat_map map]; [ constructor | ].
  unfold looked_up at 1.
  destruct (passes rt mic (snd entry)); cbn; constructor; exact IH.
Qed.

Lemma map_range_NoDup (rt : Go.Runtime) {V} (m : gmap Z V) :
  Go.runtime_ok rt -> NoDup (map fst (Go.map_range rt V m)).
Proof.
  intros Hrt.
  rewrite (Permutation_map fst (Go.map_range_ok rt Hrt V m)).
  exact (NoDup_fst_map_to_list m).
Qed.

Lemma in_candidate (rt : Go.Runtime) (db : Database) (mic : bool)
    (entry : Z * list TimeMatch) (m : Match) :
  In m (candidate rt db mic entry) ->
  SongID m = fst entry
  /\ passes rt mic (snd entry) = true
  /\ Score m = calculateTemporalScore rt (snd entry) mic
  /\ GetSongByID db (SongID m)
     = Go.Ok {| mysql.Name := SongName m; mysql.Artist := Artist m |}
  /\ Offset m = findMostCommonTimeDiff rt (snd entry)
  /\ Timestamp m = 0%float.
Proof.
  unfold candidate. destruct (passes rt mic (snd entry)); [ | intros [] ].
  destruct (GetSongByID db (fst entry)) as [[name artist]|] eqn:Hsong; [ | intros [] ].
  intros [<-|[]]. cbn. repeat split; try reflexivity. exact Hsong.
Qed.

Lemma passes_spec (rt : Go.Runtime) (mic : bool) (timeMatches : list TimeMatch) :
  passes rt mic timeMatches = true
  <-> minMatches mic <= Z.of_nat (length timeMatches)
      /\ (scoreThreshold mic <? calculateTemporalScore rt timeMatches mic)%float = true.
Proof.
  unfold passes. rewrite andb_true_iff, negb_true_iff, Z.ltb_ge. reflexivity.
Qed.

Lemma candidates_above_threshold (rt : Go.Runtime) (db : Database) (q : gmap string Z)
    (mic : bool) :
  Forall (fun m => (scoreThreshold mic <? Score m)%float = true) (candidates rt db q mic).
Proof.
  apply List.Forall_forall. intros m Hm. unfold candidates in Hm.
  apply in_flat_map in Hm as (entry & _ & Hm).
  apply in_candidate in Hm as (_ & Hpass & -> & _).
  apply passes_spec in Hpass. tauto.
Qed.

(** What [findMatches] returns when it returns matches. *)
Lemma findMatches_Ok (rt : Go.Runtime) (db : Database) (q : gmap string Z)
    (mic : bool) (matches : list Match) (calls : list call) :
  findMatches rt db q mic = Some (Go.Ok matches, calls) ->
  matches = []
  \/ matches = take 5 (Go.sort_Slice rt _ (fun a b => (Score b <? Score a)%float)
                         (candidates rt db q mic)).
Proof.
  rewrite findMatches_candidates.
  destruct (query_all db _) as [[rows err] calls'].
  destruct err as [e|]; [ discriminate | ].
  destruct (length rows =? 0)%nat; intros [= <- <-]; auto.
Qed.

(** X12: no song is returned twice: the matches of [findMatches] have
    pairwise distinct song identifiers. *)
Theorem findMatches_distinct_songs (rt : Go.Runtime) (db : Database)
    (sampleFingerprints : gmap string Z) (isFromMicrophone : bool)
    (matches : list Match) (calls : list call) :
  Go.runtime_ok rt ->
  findMatches rt db sampleFingerprints isFromMicrophone = Some (Go.Ok matches, calls) ->
  NoDup (map SongID matches).
Proof.
  intros Hrt Hrun. apply findMatches_Ok in Hrun as [->| ->]; [ constructor | ].
  refine (sublist_NoDup _ _ _ (fmap_sublist SongID _ _ (sublist_take _ 5))).
  change (NoDup (map SongID (Go.sort_Slice rt _ (fun a b => (Score b <? Score a)%float)
                               (candidates rt db sampleFingerprints isFromMicrophone)))).
  rewrite (Permutation_map SongID (Go.sort_Slice_perm rt Hrt _ _ _)).
  refine (sublist_NoDup _ _ _ (candidate_sublist rt db isFromMicrophone _)).
  apply map_range_NoDup, Hrt.
Qed.

Lemma findMatches_distinct_songs_witness :
  exists matches calls,
    findMatches Go.reference example_store example_query true = Some (Go.Ok matches, calls)
    /\ NoDup (map SongID matches).
Proof.
  eexists _, _. split; [ vm_compute; reflexivity | ].
  eapply (findMatches_distinct_songs Go.reference example_store example_query true _ _
            reference_ok).
  vm_compute. reflexivity.
Defined.

(** X13: every match [findMatches] returns is backed by the store: the
    rows returned for the query hold at least 5 hits for its song (3 for
    the microphone), its score is the temporal score of those hits and
    exceeds the threshold, its name and artist are those [GetSongByID]
    returns for its identifier, its offset is what
    [findMostCommonTimeDiff] finds in the hits, and its timestamp is
    zero. *)
Theorem findMatches_sound (rt : Go.Runtime) (db : Database)
    (sampleFingerprints : gmap string Z) (isFromMicrophone : bool)
    (matches : list Match) (calls : list call) (m : Match) :
  Go.runtime_ok rt ->
  findMatches rt db sampleFingerprints isFromMicrophone = Some (Go.Ok matches, calls) ->
  In m matches ->
  let timeMatches := hits sampleFingerprints (rows_of rt db sampleFingerprints) (SongID m) in
  minMatches isFromMicrophone <= Z.of_nat (length timeMatches)
  /\ Score m = calculateTemporalScore rt timeMatches isFromMicrophone
  /\ (scoreThreshold isFromMicrophone <? Score m)%float = true
  /\ GetSongByID db (SongID m)
     = Go.Ok {| mysql.Name := SongName m; mysql.Artist := Artist m |}
  /\ Offset m = findMostCommonTimeDiff rt timeMatches
  /\ Timestamp m = 0%float.
Proof.
  intros Hrt Hrun Hm. apply findMatches_Ok in Hrun as [->| ->]; [ destruct Hm | ].
  apply in_take in Hm.
  apply (Permutation_in _ (Go.sort_Slice_perm rt Hrt _ _ _)) in Hm.
  unfold candidates in Hm. apply in_flat_map in Hm as ([songID tms] & Hentry & Hm).
  apply candidate_hits in Hentry; [ | exact Hrt ].
  apply in_candidate in Hm as (Hid & Hpass & Hscore & Hsong & Hoffset & Htime).
  cbn [fst snd] in *. apply passes_spec in Hpass as [Hmin Hthr].
  cbv zeta.
  assert (Htms : hits sampleFingerprints (rows_of rt db sampleFingerprints) (SongID m) = tms).
  { rewrite Hid. symmetry. exact Hentry. }
  rewrite Htms. repeat split; try assumption. rewrite Hscore. exact Hthr.
Qed.

Lemma findMatches_sound_witness :
  let m := {| SongID := 7; SongName := "song"; Artist := "artist";
              Score := 0.2; Offset := 100; Timestamp := 0 |} in
  let timeMatches := hits example_query (rows_of Go.reference example_store example_query)
                       (SongID m) in
  minMatches true <= Z.of_nat (length timeMatches)
  /\ Score m = calculateTemporalScore Go.reference timeMatches true
  /\ (scoreThreshold true <? Score m)%float = true
  /\ GetSongByID example_store (SongID m)
     = Go.Ok {| mysql.Name := SongName m; mysql.Artist := Artist m |}
  /\ Offset m = findMostCommonTimeDiff Go.reference timeMatches
  /\ Timestamp m = 0%float.
Proof.
  cbv zeta.
  eapply (findMatches_sound Go.reference example_store example_query true _ _ _
            reference_ok).
  - vm_compute. reflexivity.
  - left. reflexivity.
Defined.

(** X14: [findMatches] asks the store for songs only after all its
    lookups of fingerprints, only for songs that have hits enough and a
    score above the threshold, and never twice for a song; every song it
    returns is among those it asked about. *)
Theorem findMatches_lookups (rt : Go.Runtime) (db : Database)
    (sampleFingerprints : gmap string Z) (isFromMicrophone : bool)
    (found : Go.fallible (list Match)) (calls : list call) :
  Go.runtime_ok rt ->
  findMatches rt db sampleFingerprints isFromMicrophone = Some (found, calls) ->
  exists (lookedUp : list (list string)) (songs : list Z),
    calls = map Query lookedUp ++ map GetSong songs
    /\ NoDup songs
    /\ (forall songID, In songID songs ->
          passes rt isFromMicrophone
            (hits sampleFingerprints (rows_of rt db sampleFingerprints) songID) = true)
    /\ (songs <> [] -> lookedUp = batches (Go.map_keys rt _ sampleFingerprints))
    /\ (forall matches m, found = Go.Ok matches -> In m matches -> In (SongID m) songs).
Proof.
  intros Hrt. rewrite findMatches_candidates.
  pose proof (query_all_calls db (batches (Go.map_keys rt _ sampleFingerprints))) as Hq.
  unfold lookups, candidates, rows_of.
  destruct (query_all db _) as [[rows err] calls'] eqn:Hall. cbn [fst].
  destruct Hq as (k & Hk & Hdone).
  destruct err as [e|].
  { intros [= <- <-]. exists (take k (batches (Go.map_keys rt _ sampleFingerprints))), [].
    cbn [map]. rewrite app_nil_r.
    split; [ exact Hk | ]. split; [ constructor | ].
    split; [ intros songID [] | ]. split; [ congruence | discriminate ]. }
  specialize (Hdone eq_refl).
  destruct (length rows =? 0)%nat.
  { intros [= <- <-]. exists (batches (Go.map_keys rt _ sampleFingerprints)), [].
    cbn [map]. rewrite app_nil_r.
    split; [ exact Hdone | ]. split; [ constructor | ].
    split; [ intros songID [] | ]. split; [ congruence | ].
    intros matches m [= <-] []. }
  intros [= <- <-].
  set (entries := Go.map_range rt _ (groupBySong sampleFingerprints rows)).
  exists (batches (Go.map_keys rt _ sampleFingerprints)),
         (flat_map (looked_up rt isFromMicrophone) entries).
  split; [ rewrite Hdone; reflexivity | ]. split.
  { refine (sublist_NoDup _ _ _ (looked_up_sublist rt isFromMicrophone entries)).
    apply map_range_NoDup, Hrt. }
  split.
  { intros songID Hin. apply in_flat_map in Hin as ([songID' tms] & Hentry & Hin).
    unfold looked_up in Hin. cbn [fst snd] in Hin.
    destruct (passes rt isFromMicrophone tms) eqn:Hpass; [ | destruct Hin ].
    destruct Hin as [<-|[]].
    apply candidate_hits in Hentry; [ | exact Hrt ]. rewrite <- Hentry. exact Hpass. }
  split; [ reflexivity | ].
  intros matches m [= <-] Hm.
  apply in_take in Hm.
  apply (Permutation_in _ (Go.sort_Slice_perm rt Hrt _ _ _)) in Hm.
  apply in_flat_map in Hm as (entry & Hentry & Hm). apply in_flat_map.
  exists entry. split; [ exact Hentry | ].
  apply in_candidate in Hm as (-> & Hpass & _). unfold looked_up. rewrite Hpass.
  left. reflexivity.
Qed.

Lemma findMatches_lookups_witness :
  exists (lookedUp : list (list string)) (songs : list Z),
    [Query ["c"; "e"; "a"; "b"; "d"]%string; GetSong 7; GetSong 8]
    = map Query lookedUp ++ map GetSong songs
    /\ NoDup songs
    /\ (forall songID, In songID songs ->
          passes Go.reference true
            (hits example_query (rows_of Go.reference example_store example_query) songID)
          = true)
    /\ (songs <> [] -> lookedUp = batches (Go.map_keys Go.reference _ example_query))
    /\ (forall matches m,
          Go.Ok [ {| SongID := 7; SongName := "song"; Artist := "artist";
                     Score := 0.2; Offset := 100; Timestamp := 0 |};
                  {| SongID := 8; SongName := "song"; Artist := "artist";
                     Score := 0.1; Offset := 100; Timestamp := 0 |} ]
          = Go.Ok matches ->
          In m matches -> In (SongID m) songs).
Proof.
  eapply (findMatches_lookups Go.reference example_store example_query true _ _
            reference_ok).
  vm_compute. reflexivity.
Defined.

End matcher_candidates.

(** ** The matcher: which five are kept *)

Section matcher_best.
Import database eureka.

Lemma groupBySong_nil (q : gmap string Z) : groupBySong q [] = ∅.
Proof. reflexivity. Qed.

Lemma map_range_empty (rt : Go.Runtime) {V} :
  Go.runtime_ok rt -> Go.map_range rt V ∅ = [].
Proof.
  intros Hrt. apply Permutation_nil. symmetry.
  rewrite (Go.map_range_ok rt Hrt V ∅), map_to_list_empty. reflexivity.
Qed.

(** The matches returned are the first five of the candidates in sorted
    order. *)
Lemma findMatches_take (rt : Go.Runtime) (db : Database) (q : gmap string Z)
    (mic : bool) (matches : list Match) (calls : list call) :
  Go.runtime_ok rt ->
  findMatches rt db q mic = Some (Go.Ok matches, calls) ->
  matches = take 5 (Go.sort_Slice rt _ (fun a b => (Score b <? Score a)%float)
                      (candidates rt db q mic)).
Proof.
  intros Hrt. rewrite findMatches_candidates. unfold candidates, rows_of.
  destruct (query_all db _) as [[rows err] calls']. cbn [fst].
  destruct err as [e|]; [ discriminate | ].
  destruct (Nat.eqb_spec (length rows) 0) as [Hnil|_]; intros [= <- <-]; [ | reflexivity ].
  apply length_zero_iff_nil in Hnil. subst rows.
  rewrite groupBySong_nil, map_range_empty by exact Hrt. cbn [flat_map].
  assert (Hsort : Go.sort_Slice rt _ (fun a b => (Score b <? Score a)%float) [] = []).
  { apply Permutation_nil. symmetry. apply (Go.sort_Slice_perm rt Hrt). }
  rewrite Hsort. reflexivity.
Qed.

Lemma StronglySorted_app_inv {A} (R : A -> A -> Prop) (l1 l2 : list A) (a b : A) :
  StronglySorted R (l1 ++ l2) -> In a l1 -> In b l2 -> R a b.
Proof.
  induction l1 as [|x l1 IH]; cbn [app]; intros Hs Ha Hb; [ destruct Ha | ].
  apply StronglySorted_inv in Hs as [Hs Hx]. destruct Ha as [->|Ha].
  - rewrite List.Forall_forall in Hx. apply Hx, in_or_app. right. exact Hb.
  - apply IH; assumption.
Qed.

(** X15: the five matches kept are the best: a candidate (a song with
    hits enough, a score above the threshold and a name in the store)
    that [findMatches] does not return scores no higher than any of the
    five it returns; with five candidates or fewer, all are returned. *)
Theorem findMatches_five_best (rt : Go.Runtime) (db : Database)
    (sampleFingerprints : gmap string Z) (isFromMicrophone : bool)
    (matches : list Match) (calls : list call) (c : Match) :
  Go.runtime_ok rt ->
  findMatches rt db sampleFingerprints isFromMicrophone = Some (Go.Ok matches, calls) ->
  In c (candidates rt db sampleFingerprints isFromMicrophone) ->
  ~ In c matches ->
  length matches = 5%nat
  /\ (5 < length (candidates rt db sampleFingerprints isFromMicrophone))%nat
  /\ forall m, In m matches -> (Score c <=? Score m)%float = true.
Proof.
  intros Hrt Hrun Hc Hout. apply findMatches_take in Hrun; [ | exact Hrt ].
  set (scored := candidates rt db sampleFingerprints isFromMicrophone) in *.
  set (sorted := Go.sort_Slice rt _ (fun a b => (Score b <? Score a)%float) scored) in *.
  pose proof (Go.sort_Slice_perm rt Hrt _ (fun a b => (Score b <? Score a)%float) scored)
    as Hperm. fold sorted in Hperm.
  pose proof (candidates_above_threshold rt db sampleFingerprints isFromMicrophone)
    as Hscored. fold scored in Hscored.
  pose proof (Go.sort_Slice_sorted rt Hrt _ _ _ (score_ordering _ _ Hscored)) as Hsorted.
  fold sorted in Hsorted.
  assert (Hdrop : In c (drop 5 sorted)).
  { apply (Permutation_in _ (Permutation_sym Hperm)) in Hc.
    rewrite <- (take_drop 5 sorted) in Hc. apply in_app_or in Hc as [Hc|Hc]; [ | exact Hc ].
    subst matches. contradiction. }
  assert (Hlen : (5 < length sorted)%nat).
  { destruct (Nat.le_gt_cases (length sorted) 5) as [Hle|Hgt]; [ | exact Hgt ].
    rewrite drop_ge in Hdrop by exact Hle. destruct Hdrop. }
  split; [ subst matches; rewrite length_take; lia | ].
  split; [ rewrite <- (Permutation_length Hperm); exact Hlen | ].
  intros m Hm. subst matches.
  rewrite <- (take_drop 5 sorted) in Hsorted.
  pose proof (StronglySorted_app_inv _ _ _ m c Hsorted Hm Hdrop) as Hmc.
  cbv beta in Hmc.
  rewrite List.Forall_forall in Hscored.
  assert (Hnc : numeric (Score c)).
  { apply (ltb_numeric (scoreThreshold isFromMicrophone)), Hscored, Hc. }
  assert (Hnm : numeric (Score m)).
  { apply (ltb_numeric (scoreThreshold isFromMicrophone)), Hscored.
    apply (Permutation_in _ Hperm), (in_take 5), Hm. }
  rewrite leb_ltb by assumption. rewrite Hmc. reflexivity.
Qed.

Lemma findMatches_five_best_witness :
  let c := {| SongID := 1; SongName := "song"; Artist := "artist";
              Score := 0.12; Offset := 100; Timestamp := 0 |} in
  exists matches calls,
    findMatches Go.reference crowded_store example_query true = Some (Go.Ok matches, calls)
    /\ map SongID matches = [7; 6; 5; 4; 3]
    /\ length matches = 5%nat
    /\ (5 < length (candidates Go.reference crowded_store example_query true))%nat
    /\ forall m, In m matches -> (Score c <=? Score m)%float = true.
Proof.
  cbv zeta. eexists _, _. split; [ vm_compute; reflexivity | ].
  split; [ reflexivity | ].
  eapply (findMatches_five_best Go.reference crowded_store example_query true _ _ _
            reference_ok).
  - vm_compute. reflexivity.
  - vm_compute. tauto.
  - intros H. repeat (destruct H as [H|H]; [ discriminate H | ]). exact H.
Defined.

End matcher_best.

(** ** The matcher: the offset of a match *)

Section matcher_offset.
Import database eureka.

(** The two loops over [timeDiffCounts] find the same largest count. *)
Lemma best_loop_fst (l : list (Z * Z)) (m0 b0 : Z) :
  fst (fold_left (fun '(maxCount, bestTimeDiff) '(timeDiff, count) =>
                    if count >? maxCount then (count, timeDiff)
                    else (maxCount, bestTimeDiff)) l (m0, b0))
  = fold_left (fun maxCount '(_, count) => if count >? maxCount then count else maxCount)
              l m0.
Proof.
  revert m0 b0. induction l as [|[d c] l IH]; intros m0 b0; cbn [fold_left]; [ reflexivity | ].
  destruct (c >? m0); apply IH.
Qed.

Lemma best_loop (l : list (Z * Z)) (m0 b0 : Z) :
  let '(m, b) := fold_left (fun '(maxCount, bestTimeDiff) '(timeDiff, count) =>
                              if count >? maxCount then (count, timeDiff)
                              else (maxCount, bestTimeDiff)) l (m0, b0) in
  (m, b) = (m0, b0) \/ In (b, m) l.
Proof.
  revert m0 b0. induction l as [|[d c] l IH]; intros m0 b0; cbn [fold_left].
  - left. reflexivity.
  - destruct (Z.gtb_spec c m0) as [Hgt|Hle].
    + specialize (IH c d). destruct (fold_left _ l (c, d)) as [m b].
      destruct IH as [[= -> ->]|Hin]; right; [ left; reflexivity | right; exact Hin ].
    + specialize (IH m0 b0). destruct (fold_left _ l (m0, b0)) as [m b].
      destruct IH as [Heq|Hin]; [ left; exact Heq | right; right; exact Hin ].
Qed.

Lemma peak_count_positive (tms : list TimeMatch) : tms <> [] -> 0 < peak_count tms.
Proof.
  intros Hne. unfold peak_count. cbv zeta.
  destruct tms as [|tm tms]; [ congruence | ].
  cbn [map list_max fold_right count_occ].
  destruct (Z.eq_dec (TimeDiff tm) (TimeDiff tm)); [ | congruence ]. lia.
Qed.

(** X16: [findMostCommonTimeDiff] returns a time difference that occurs
    most often among the hits: it is the difference of one of the hits,
    no difference occurs more often, and its number of occurrences is the
    count the temporal score is computed from.  Without hits it returns
    0. *)
Theorem findMostCommonTimeDiff_modal (rt : Go.Runtime) (timeMatches : list TimeMatch) :
  Go.runtime_ok rt ->
  Z.of_nat (length timeMatches) <= Go.max_int ->
  let diffs := map TimeDiff timeMatches in
  let best := findMostCommonTimeDiff rt timeMatches in
  (timeMatches = [] -> best = 0)
  /\ (timeMatches <> [] ->
      In best diffs
      /\ Z.of_nat (count_occ Z.eq_dec diffs best) = peak_count timeMatches
      /\ forall d, (count_occ Z.eq_dec diffs d <= count_occ Z.eq_dec diffs best)%nat).
Proof.
  intros Hrt Hlen. cbv zeta. unfold findMostCommonTimeDiff. split.
  { intros ->. change (timeDiffCounts []) with (∅ : gmap Z Z).
    rewrite map_range_empty by exact Hrt. reflexivity. }
  intros Hne.
  pose proof (maxCount_peak_count rt timeMatches Hrt Hlen) as Hmax.
  pose proof (max_loop (Go.map_range rt _ (timeDiffCounts timeMatches)) 0) as Hloop.
  cbv zeta in Hloop. rewrite Hmax in Hloop. destruct Hloop as (_ & Hall & _).
  pose proof (best_loop_fst (Go.map_range rt _ (timeDiffCounts timeMatches)) 0 0) as Hfst.
  rewrite Hmax in Hfst.
  pose proof (best_loop (Go.map_range rt _ (timeDiffCounts timeMatches)) 0 0) as Hbest.
  destruct (fold_left _ (Go.map_range rt _ (timeDiffCounts timeMatches)) (0, 0))
    as [m best]. cbn [fst snd] in *. subst m.
  pose proof (peak_count_positive timeMatches Hne) as Hpos.
  destruct Hbest as [[= Hzero _]|Hin]; [ lia | ].
  assert (Hentry : forall d c,
            In (d, c) (Go.map_range rt _ (timeDiffCounts timeMatches))
            <-> timeDiffCounts timeMatches !! d = Some c).
  { intros d c. rewrite (Permutation_in_iff _ _ _ (Go.map_range_ok rt Hrt _ _)).
    rewrite <- list_elem_of_In. apply elem_of_map_to_list. }
  apply Hentry in Hin. rewrite timeDiffCounts_lookup in Hin by exact Hlen.
  destruct (count_occ Z.eq_dec (map TimeDiff timeMatches) best) as [|n] eqn:Hn;
    [ discriminate | ].
  injection Hin as Hin. split.
  { apply (count_occ_In Z.eq_dec). lia. }
  split; [ exact Hin | ].
  intros d.
  destruct (count_occ Z.eq_dec (map TimeDiff timeMatches) d) as [|k] eqn:Hk; [ lia | ].
  specialize (Hall d (Z.of_nat (S k))).
  assert (Hd : Z.of_nat (S k) <= peak_count timeMatches).
  { apply Hall, Hentry. rewrite timeDiffCounts_lookup by exact Hlen. rewrite Hk.
    reflexivity. }
  lia.
Qed.

Lemma findMostCommonTimeDiff_modal_witness :
  let timeMatches := hits example_query example_rows 9 in
  let diffs := map TimeDiff timeMatches in
  let best := findMostCommonTimeDiff Go.reference timeMatches in
  (timeMatches = [] -> best = 0)
  /\ (timeMatches <> [] ->
      In best diffs
      /\ Z.of_nat (count_occ Z.eq_dec diffs best) = peak_count timeMatches
      /\ forall d, (count_occ Z.eq_dec diffs d <= count_occ Z.eq_dec diffs best)%nat).
Proof.
  apply (findMostCommonTimeDiff_modal Go.reference (hits example_query example_rows 9)).
  - exact reference_ok.
  - vm_compute. discriminate.
Defined.

End matcher_offset.

(** ** The query of a sample *)

Section query_map.
Import eureka.

Lemma fingerprintMap_snoc (fingerprints : list fingerprint.Fingerprint)
    (fp : fingerprint.Fingerprint) :
  fingerprintMap (fingerprints ++ [fp])
  = <[fingerprint.Hash fp := fingerprint.Offset fp]> (fingerprintMap fingerprints).
Proof. unfold fingerprintMap. rewrite fold_left_app. reflexivity. Qed.

Lemma fingerprintMap_lookup (fingerprints : list fingerprint.Fingerprint) (h : string) :
  fingerprintMap fingerprints !! h
  = fingerprint.Offset <$> last (filter (fun fp => fingerprint.Hash fp = h) fingerprints).
Proof.
  induction fingerprints as [|fp fingerprints IH] using rev_ind; [ reflexivity | ].
  rewrite fingerprintMap_snoc, filter_app.
  destruct (decide (fingerprint.Hash fp = h)) as [<-|Hne].
  - rewrite lookup_insert_eq. rewrite filter_cons_True by reflexivity.
    cbn [filter list_filter]. rewrite last_snoc. reflexivity.
  - rewrite lookup_insert_ne by exact Hne. rewrite filter_cons_False by exact Hne.
    cbn [filter list_filter]. rewrite app_nil_r. exact IH.
Qed.

Lemma fingerprintMap_size (fingerprints : list fingerprint.Fingerprint) :
  (size (fingerprintMap fingerprints) <= length fingerprints)%nat.
Proof.
  induction fingerprints as [|fp fingerprints IH] using rev_ind; [ reflexivity | ].
  rewrite fingerprintMap_snoc, length_app. cbn [length].
  destruct (fingerprintMap fingerprints !! fingerprint.Hash fp) eqn:Hfp.
  - rewrite map_size_insert_Some by eauto. lia.
  - rewrite map_size_insert_None by exact Hfp. lia.
Qed.

(** X17: the query built from the fingerprints of a sample keeps one
    offset for each hash, that of the last fingerprint with the hash: of
    two fingerprints with the same hash the later one overrides the
    earlier.  A hash is in the query exactly when a fingerprint has it,
    so the query never holds more hashes than there are fingerprints; and
    in the query of two lists put end to end, the second list
    overrides the first. *)
Theorem fingerprintMap_last_wins (fingerprints more : list fingerprint.Fingerprint)
    (h : string) :
  fingerprintMap fingerprints !! h
  = fingerprint.Offset <$> last (filter (fun fp => fingerprint.Hash fp = h) fingerprints)
  /\ (is_Some (fingerprintMap fingerprints !! h)
      <-> exists fp, In fp fingerprints /\ fingerprint.Hash fp = h)
  /\ (size (fingerprintMap fingerprints) <= length fingerprints)%nat
  /\ fingerprintMap (fingerprints ++ more) !! h
     = match fingerprintMap more !! h with
       | Some offset => Some offset
       | None => fingerprintMap fingerprints !! h
       end.
Proof.
  split; [ apply fingerprintMap_lookup | ]. split; [ | split ].
  - rewrite fingerprintMap_lookup, fmap_is_Some. split.
    + intros [fp Hfp]. apply last_Some_elem_of, list_elem_of_filter in Hfp as [Hh Hin].
      exists fp. split; [ apply list_elem_of_In, Hin | exact Hh ].
    + intros (fp & Hin & Hh).
      destruct (last (filter (fun fp => fingerprint.Hash fp = h) fingerprints)) eqn:Hlast;
        [ eauto | ].
      apply last_None in Hlast.
      assert (Hfp : fp ∈ filter (fun fp => fingerprint.Hash fp = h) fingerprints).
      { apply list_elem_of_filter. split; [ exact Hh | apply list_elem_of_In, Hin ]. }
      rewrite Hlast in Hfp. apply not_elem_of_nil in Hfp. destruct Hfp.
  - apply fingerprintMap_size.
  - rewrite !fingerprintMap_lookup, filter_app.
    destruct (filter (fun fp => fingerprint.Hash fp = h) more) as [|fp l] eqn:Hmore.
    + rewrite app_nil_r. reflexivity.
    + rewrite last_app. destruct (last (fp :: l)) as [fp'|] eqn:Hlast; [ reflexivity | ].
      apply last_None in Hlast. discriminate.
Qed.

End query_map.

(** ** Recognition from the microphone *)

Lemma ltb_leb_trans (x y z : float) :
  (x <? y)%float = true -> (y <=? z)%float = true -> (x <? z)%float = true.
Proof.
  rewrite !FloatAxioms.ltb_spec, FloatAxioms.leb_spec.
  generalize (Prim2SF x), (Prim2SF y), (Prim2SF z). clear.
  intros a b c. unfold SFltb, SFleb. sf_cases.
Qed.

Section realtime.
Import database eureka.

(** The last five seconds of a buffer that holds as much. *)
Lemma audioWindow (audioBuffer : list float) :
  220500 <= Z.of_nat (length audioBuffer) <= Go.max_int ->
  Go.slice audioBuffer (Go.sub (Z.of_nat (length audioBuffer)) (Go.mul 44100 5))
    (Z.of_nat (length audioBuffer))
  = Some (most_recent (Z.to_nat 220500) audioBuffer).
Proof.
  unfold Go.max_int. intros Hlen. change (Go.mul 44100 5) with 220500.
  unfold Go.sub. rewrite wrap_small' by lia. rewrite slice_in_range by lia.
  replace (Z.to_nat (Z.of_nat (length audioBuffer) - (Z.of_nat (length audioBuffer) - 220500)))
    with (Z.to_nat 220500) by lia.
  replace (Z.to_nat (Z.of_nat (length audioBuffer) - 220500))
    with (length audioBuffer - Z.to_nat 220500)%nat by lia.
  fold (most_recent (Z.to_nat 220500) audioBuffer).
  rewrite take_ge; [ reflexivity | ].
  unfold most_recent. rewrite length_drop. lia.
Qed.

(** The loop over the matches when they come in descending order: only
    the first can be above 0.3. *)
Lemma offer_best (matches : list Match) (ch : Go.chan Match) :
  descending matches ->
  Go.result
    (Go.for_each matches
       (fun match_ ch =>
          if (0.3 <? Score match_)%float
          then Go.Return (Go.try_send ch match_)
          else Go.Next ch)
       ch)
  = Some (match matches with
          | best :: _ => if (0.3 <? Score best)%float then Go.try_send ch best else ch
          | [] => ch
          end).
Proof.
  intros Hsorted. destruct matches as [|best others]; [ reflexivity | ].
  cbn [Go.for_each]. destruct (0.3 <? Score best)%float eqn:Hbest; [ reflexivity | ].
  apply StronglySorted_inv in Hsorted as [_ Hothers].
  rewrite (for_each_fold others _ (fun _ ch => ch)).
  - cbn [Go.result]. f_equal. clear. induction others; [ reflexivity | assumption ].
  - intros m ch' Hm. rewrite List.Forall_forall in Hothers.
    destruct (0.3 <? Score m)%float eqn:Hm3; [ | reflexivity ].
    rewrite (ltb_leb_trans _ _ _ Hm3 (Hothers m Hm)) in Hbest. discriminate.
Qed.

(** The matches of [findMatches] come in descending order. *)
Lemma findMatches_descending (rt : Go.Runtime) (db : Database) (q : gmap string Z)
    (mic : bool) (matches : list Match) (calls : list call) :
  Go.runtime_ok rt ->
  findMatches rt db q mic = Some (Go.Ok matches, calls) ->
  descending matches.
Proof.
  intros Hrt Hrun. apply findMatches_take in Hrun; [ | exact Hrt ]. subst matches.
  apply StronglySorted_take.
  pose proof (candidates_above_threshold rt db q mic) as Hscored.
  pose proof (Go.sort_Slice_sorted rt Hrt _ _ _ (score_ordering _ _ Hscored)) as Hsorted.
  pose proof (Go.sort_Slice_perm rt Hrt _ (fun a b => (Score b <? Score a)%float)
                (candidates rt db q mic)) as Hperm.
  revert Hsorted. apply StronglySorted_impl_in. intros a b Ha Hb Hab.
  rewrite List.Forall_forall in Hscored.
  apply (Permutation_in _ Hperm), Hscored, ltb_numeric in Ha.
  apply (Permutation_in _ Hperm), Hscored, ltb_numeric in Hb.
  rewrite leb_ltb by tauto. rewrite Hab. reflexivity.
Qed.

(** X18: [processRealtimeAudioWithMatch] offers the channel at most one
    match, the best one: when the last five seconds of the buffer give a
    query (20 peaks and 50 fingerprints at least) and the matcher returns
    matches, the first of them, which no other exceeds in score, is sent
    if its score exceeds 0.3 and the channel has room, and nothing is
    sent otherwise; the other matches are never sent.  In every other
    case (buffer under five seconds, no spectrogram, a panic, too few
    peaks or fingerprints, an error of the store) the channel is left as
    it was. *)
Theorem processRealtimeAudioWithMatch_best (rt : Go.Runtime) (dec : Decoder)
    (db : Database) (audioBuffer : list float) (ch : Go.chan Match) :
  Go.runtime_ok rt ->
  Z.of_nat (length audioBuffer) <= Go.max_int ->
  processRealtimeAudioWithMatch rt dec db audioBuffer ch
  = match realtime_query dec audioBuffer with
    | None => (ch, [])
    | Some query =>
        match findMatches rt db query true with
        | Some (Go.Ok (best :: others), calls) =>
            (if (0.3 <? Score best)%float then Go.try_send ch best else ch, calls)
        | Some (_, calls) => (ch, calls)
        | None => (ch, [])
        end
    end
  /\ forall query best others calls,
       realtime_query dec audioBuffer = Some query ->
       findMatches rt db query true = Some (Go.Ok (best :: others), calls) ->
       Forall (fun m => (Score m <=? Score best)%float = true) others.
Proof.
  intros Hrt Hlen. split.
  2: { intros query best others calls _ Hfind.
       apply (findMatches_descending rt db query true _ calls Hrt) in Hfind.
       apply StronglySorted_inv in Hfind. apply Hfind. }
  unfold processRealtimeAudioWithMatch, realtime_query.
  change (Go.mul 44100 5) with 220500.
  destruct (Z.ltb_spec (Z.of_nat (length audioBuffer)) 220500) as [Hshort|Hlong];
    [ reflexivity | ].
  pose proof (audioWindow audioBuffer (conj Hlong Hlen)) as Hwindow.
  change (Go.mul 44100 5) with 220500 in Hwindow. rewrite Hwindow.
  cbn [mbind option_bind].
  destruct (SamplesToSpectrogram dec _ 44100) as [spectrogram|e]; [ | reflexivity ].
  destruct (fingerprint.PickPeaks (Abs dec) spectrogram 44100) as [peaks|];
    cbn [mbind option_bind]; [ | reflexivity ].
  destruct (Z.of_nat (length peaks) <? 20); [ reflexivity | ].
  destruct (fingerprint.GenerateFingerprintsForMicrophone peaks) as [fingerprints|];
    cbn [mbind option_bind]; [ | reflexivity ].
  destruct (Z.of_nat (length fingerprints) <? 50); [ reflexivity | ].
  destruct (findMatches rt db (fingerprintMap fingerprints) true)
    as [[[matches|e] calls]|] eqn:Hfind; cbn [mbind option_bind]; try reflexivity.
  rewrite offer_best by (eapply findMatches_descending; eassumption).
  cbn [mbind option_bind]. destruct matches; reflexivity.
Qed.

Lemma quiet_then_loud_length : Z.of_nat (length quiet_then_loud) = 220501.
Proof. unfold quiet_then_loud. cbn [length]. rewrite repeat_length. lia. Qed.

(** The last five seconds of [quiet_then_loud] are the loud ones. *)
Lemma quiet_then_loud_window :
  most_recent (Z.to_nat 220500) quiet_then_loud = repeat 1%float (Z.to_nat 220500).
Proof.
  unfold most_recent, quiet_then_loud. cbn [length]. rewrite repeat_length.
  replace (S (Z.to_nat 220500) - Z.to_nat 220500)%nat with 1%nat by lia.
  reflexivity.
Qed.

(** The query made of the four frames of tones of [tone_decoder] finds
    songs 7, 8 and 9 in [example_store], song 7 with score 1. *)
Lemma tones_heard :
  (peaks ← fingerprint.PickPeaks (Abs tone_decoder) (tones 1 4) 44100;
   if Z.of_nat (length peaks) <? 20 then None
   else
     fingerprints ← fingerprint.GenerateFingerprintsForMicrophone peaks;
     if Z.of_nat (length fingerprints) <? 50 then None
     else
       '(found, calls) ← findMatches Go.reference example_store
                            (fingerprintMap fingerprints) true;
       match found with
       | Go.Ok matches =>
           Some (map (fun m => (SongID m, (0.3 <? Score m)%float)) matches,
                 Score <$> head matches, length calls)
       | Go.Err _ => None
       end)
  = Some ([(7, true); (8, true); (9, true)], Some 1%float, 4%nat).
Proof. vm_compute. reflexivity. Qed.

(** On [quiet_then_loud] the function hears the tones in the last five
    seconds and puts song 7 on the channel; songs 8 and 9, which score
    above 0.3 as well, are not sent. *)
Lemma processRealtimeAudioWithMatch_best_witness :
  exists best calls,
    processRealtimeAudioWithMatch Go.reference tone_decoder example_store
      quiet_then_loud matchFoundChan
    = ({| Go.capacity := 1; Go.queue := [best] |}, calls)
    /\ SongID best = 7 /\ Score best = 1%float /\ length calls = 4%nat.
Proof.
  destruct (processRealtimeAudioWithMatch_best Go.reference tone_decoder example_store
              quiet_then_loud matchFoundChan) as [Hrun _].
  - exact reference_ok.
  - rewrite quiet_then_loud_length. unfold Go.max_int. lia.
  - rewrite Hrun. unfold realtime_query.
    rewrite quiet_then_loud_length. change (220501 <? 220500) with false. cbv iota.
    rewrite quiet_then_loud_window.
    cbn [SamplesToSpectrogram tone_decoder]. rewrite loud_repeat by reflexivity.
    pose proof tones_heard as Hheard. cbn [Abs tone_decoder] in Hheard |- *.
    destruct (fingerprint.PickPeaks _ (tones 1 4) 44100) as [peaks|]; [ | discriminate ].
    cbn [mbind option_bind] in Hheard |- *.
    destruct (Z.of_nat (length peaks) <? 20); [ discriminate | ].
    destruct (fingerprint.GenerateFingerprintsForMicrophone peaks) as [fingerprints|];
      [ | discriminate ].
    cbn [mbind option_bind] in Hheard |- *.
    destruct (Z.of_nat (length fingerprints) <? 50); [ discriminate | ].
    destruct (findMatches _ _ _ _) as [[[matches|e] calls]|];
      cbn [mbind option_bind] in Hheard; try discriminate Hheard.
    destruct matches as [|best others]; [ discriminate Hheard | ].
    cbn [map head fmap option_fmap option_map] in Hheard.
    injection Hheard as Hid Hbest _ Hscore Hcalls.
    rewrite Hbest. exists best, calls. repeat split; assumption.
Defined.

(** What [try_send] does to a channel. *)
Lemma try_send_queue {A} (ch : Go.chan A) (x : A) :
  Go.capacity (Go.try_send ch x) = Go.capacity ch
  /\ (Go.queue (Go.try_send ch x) = Go.queue ch
      \/ Go.queue (Go.try_send ch x) = Go.queue ch ++ [x]
         /\ (length (Go.queue ch) < Go.capacity ch)%nat).
Proof.
  unfold Go.try_send. destruct (Nat.ltb_spec (length (Go.queue ch)) (Go.capacity ch));
    cbn [Go.capacity Go.queue]; auto.
Qed.

(** A buffer under five seconds is turned away at once. *)
Lemma short_buffer (rt : Go.Runtime) (dec : Decoder) (db : Database)
    (audioBuffer : list float) (ch : Go.chan Match) :
  Z.of_nat (length audioBuffer) < 220500 ->
  processRealtimeAudioWithMatch rt dec db audioBuffer ch = (ch, []).
Proof.
  intros Hshort. unfold processRealtimeAudioWithMatch.
  change (Go.mul 44100 5) with 220500.
  destruct (Z.ltb_spec (Z.of_nat (length audioBuffer)) 220500); [ reflexivity | lia ].
Qed.

(** X19: [processRealtimeAudioWithMatch] looks at the last five seconds
    (220 500 samples) of its buffer and at nothing else: on a shorter
    buffer it returns at once, without a call to the store and with the
    channel as it was; on a longer one it does exactly what it does on
    the last 220 500 samples. *)
Theorem processRealtimeAudioWithMatch_window (rt : Go.Runtime) (dec : Decoder)
    (db : Database) (audioBuffer : list float) (ch : Go.chan Match) :
  Z.of_nat (length audioBuffer) <= Go.max_int ->
  (Z.of_nat (length audioBuffer) < 220500 ->
   processRealtimeAudioWithMatch rt dec db audioBuffer ch = (ch, []))
  /\ (220500 <= Z.of_nat (length audioBuffer) ->
      processRealtimeAudioWithMatch rt dec db audioBuffer ch
      = processRealtimeAudioWithMatch rt dec db
          (most_recent (Z.to_nat 220500) audioBuffer) ch).
Proof.
  intros Hlen. split; [ apply short_buffer | ].
  unfold processRealtimeAudioWithMatch. change (Go.mul 44100 5) with 220500.
  - intros Hlong.
    assert (Hrecent : Z.of_nat (length (most_recent (Z.to_nat 220500) audioBuffer)) = 220500).
    { unfold most_recent. rewrite length_drop. lia. }
    rewrite Hrecent.
    destruct (Z.ltb_spec (Z.of_nat (length audioBuffer)) 220500); [ lia | ].
    cbn [Z.ltb Z.compare].
    pose proof (audioWindow audioBuffer (conj Hlong Hlen)) as Hwindow.
    change (Go.mul 44100 5) with 220500 in Hwindow. rewrite Hwindow.
    pose proof (audioWindow (most_recent (Z.to_nat 220500) audioBuffer)) as Hwindow'.
    change (Go.mul 44100 5) with 220500 in Hwindow'. rewrite Hrecent in Hwindow'.
    rewrite Hwindow' by (unfold Go.max_int; lia).
    rewrite most_recent_most_recent by lia. reflexivity.
Qed.

(** On [quiet_then_loud] the function works on the five loud seconds:
    the quiet sample before them, on which the spectrogram routine would
    fail, is not handed on. *)
Lemma processRealtimeAudioWithMatch_window_witness :
  processRealtimeAudioWithMatch Go.reference tone_decoder example_store
    quiet_then_loud matchFoundChan
  = processRealtimeAudioWithMatch Go.reference tone_decoder example_store
      (repeat 1%float (Z.to_nat 220500)) matchFoundChan
  /\ SamplesToSpectrogram tone_decoder quiet_then_loud 44100
     = Go.Err "signal too weak"%string
  /\ SamplesToSpectrogram tone_decoder (repeat 1%float (Z.to_nat 220500)) 44100
     = Go.Ok (tones 1 4).
Proof.
  destruct (processRealtimeAudioWithMatch_window Go.reference tone_decoder example_store
              quiet_then_loud matchFoundChan) as [_ Hlong].
  - rewrite quiet_then_loud_length. unfold Go.max_int. lia.
  - split; [ | split ].
    + rewrite Hlong by (rewrite quiet_then_loud_length; lia).
      rewrite quiet_then_loud_window. reflexivity.
    + reflexivity.
    + cbn [SamplesToSpectrogram tone_decoder]. rewrite loud_repeat; reflexivity.
Defined.

(** X20: [RecognizeFromMicrophone] hands what [GetAudioBuffer] returns to
    [processRealtimeAudioWithMatch] as soon as it is three seconds long
    (132 300 samples), but the function wants five: while the recorder
    holds less than five seconds, the buffer handed over is the whole
    recording and the function returns at once, without a call to the
    store and with the channel as it was; once the recorder holds five
    seconds, the buffer handed over is exactly the window the function
    works on. *)
Theorem realtime_needs_five_seconds (rt : Go.Runtime) (dec : Decoder) (db : Database)
    (mr : microphone.MicrophoneRecorder) (ch : Go.chan Match) :
  microphone.sampleRate mr = 44100 ->
  Z.of_nat (length (microphone.audioBuffer mr)) <= Go.max_int ->
  exists audioBuffer,
    microphone.GetAudioBuffer mr = Some audioBuffer
    /\ (Z.of_nat (length (microphone.audioBuffer mr)) < 220500 ->
        audioBuffer = microphone.audioBuffer mr
        /\ processRealtimeAudioWithMatch rt dec db audioBuffer ch = (ch, []))
    /\ (132300 <= Z.of_nat (length (microphone.audioBuffer mr)) < 220500 ->
        132300 <= Z.of_nat (length audioBuffer)
        /\ processRealtimeAudioWithMatch rt dec db audioBuffer ch = (ch, []))
    /\ (220500 <= Z.of_nat (length (microphone.audioBuffer mr)) ->
        Z.of_nat (length audioBuffer) = 220500
        /\ most_recent (Z.to_nat 220500) audioBuffer = audioBuffer).
Proof.
  intros Hsr Hlen. exists (most_recent (Z.to_nat 220500) (microphone.audioBuffer mr)).
  split; [ apply GetAudioBuffer_most_recent; assumption | ].
  assert (Hshort : Z.of_nat (length (microphone.audioBuffer mr)) < 220500 ->
                   most_recent (Z.to_nat 220500) (microphone.audioBuffer mr)
                   = microphone.audioBuffer mr
                   /\ processRealtimeAudioWithMatch rt dec db
                        (most_recent (Z.to_nat 220500) (microphone.audioBuffer mr)) ch
                      = (ch, [])).
  { intros Hshort. rewrite most_recent_all by lia. split; [ reflexivity | ].
    apply short_buffer. exact Hshort. }
  split; [ exact Hshort | ]. split.
  - intros [Hthree Hfive]. destruct (Hshort Hfive) as [Heq Hrun].
    split; [ rewrite Heq; exact Hthree | exact Hrun ].
  - intros Hlong. split.
    + unfold most_recent. rewrite length_drop. lia.
    + apply most_recent_most_recent. lia.
Qed.

Lemma realtime_needs_five_seconds_witness :
  132300 <= Z.of_nat (length (microphone.audioBuffer four_seconds))
  /\ exists audioBuffer,
       microphone.GetAudioBuffer four_seconds = Some audioBuffer
       /\ (Z.of_nat (length (microphone.audioBuffer four_seconds)) < 220500 ->
           audioBuffer = microphone.audioBuffer four_seconds
           /\ processRealtimeAudioWithMatch Go.reference example_decoder example_store
                audioBuffer matchFoundChan
              = (matchFoundChan, []))
       /\ (132300 <= Z.of_nat (length (microphone.audioBuffer four_seconds)) < 220500 ->
           132300 <= Z.of_nat (length audioBuffer)
           /\ processRealtimeAudioWithMatch Go.reference example_decoder example_store
                audioBuffer matchFoundChan
              = (matchFoundChan, []))
       /\ (220500 <= Z.of_nat (length (microphone.audioBuffer four_seconds)) ->
           Z.of_nat (length audioBuffer) = 220500
           /\ most_recent (Z.to_nat 220500) audioBuffer = audioBuffer).
Proof.
  assert (Hlen : Z.of_nat (length (microphone.audioBuffer four_seconds)) = 176400).
  { unfold four_seconds. cbn [microphone.audioBuffer microphone.set_audioBuffer].
    rewrite repeat_length. lia. }
  split; [ lia | ].
  apply (realtime_needs_five_seconds Go.reference example_decoder example_store
           four_seconds matchFoundChan).
  - reflexivity.
  - unfold Go.max_int. lia.
Defined.

End realtime.

(** ** Binary64: conversions and signs *)

Lemma digits2_pos_size (p : positive) : digits2_pos p = Pos.size p.
Proof. induction p as [p IH|p IH|]; cbn; congruence. Qed.

Lemma Zdigits2_bounds (p : positive) :
  2 ^ (Zdigits2 (Zpos p) - 1) <= Zpos p < 2 ^ Zdigits2 (Zpos p).
Proof.
  cbn [Zdigits2]. rewrite digits2_pos_size.
  pose proof (Pos.size_gt p) as Hgt. pose proof (Pos.size_le p) as Hle.
  apply Pos2Z.pos_lt_pos in Hgt. apply Pos2Z.pos_le_pos in Hle.
  rewrite Pos2Z.inj_pow in Hgt, Hle.
  split; [ | exact Hgt ].
  replace (Zpos (Pos.size p)) with ((Zpos (Pos.size p) - 1) + 1) in Hle by lia.
  rewrite Z.pow_add_r in Hle by lia. change (2 ^ 1) with 2 in Hle.
  lia.
Qed.

Lemma shr_1_div2 (mrs : shr_record) :
  0 <= shr_m mrs -> shr_m (shr_1 mrs) = shr_m mrs / 2.
Proof.
  destruct mrs as [m r s]. cbn [shr_m]. intros Hm. rewrite <- Z.div2_div.
  destruct m as [|p|p]; [ reflexivity | destruct p; reflexivity | lia ].
Qed.

Lemma iter_shr_1_div (p : positive) (mrs : shr_record) :
  0 <= shr_m mrs ->
  shr_m (SpecFloat.iter_pos shr_1 p mrs) = shr_m mrs / 2 ^ Zpos p.
Proof.
  revert mrs. induction p as [p IH|p IH|]; intros mrs Hm; cbn [SpecFloat.iter_pos].
  - rewrite IH by (apply iter_shr_1_nonneg, shr_1_nonneg, Hm).
    rewrite IH by (apply shr_1_nonneg, Hm). rewrite shr_1_div2 by exact Hm.
    assert (Hpow : 0 < 2 ^ Zpos p) by (apply Z.pow_pos_nonneg; lia).
    rewrite !Z.div_div by lia. f_equal.
    rewrite Pos2Z.inj_xI.
    replace (2 * Zpos p + 1) with (1 + Zpos p + Zpos p) by lia.
    rewrite !Z.pow_add_r by lia. change (2 ^ 1) with 2. lia.
  - rewrite IH by (apply iter_shr_1_nonneg, Hm). rewrite IH by exact Hm.
    assert (Hpow : 0 < 2 ^ Zpos p) by (apply Z.pow_pos_nonneg; lia).
    rewrite Z.div_div by lia. f_equal.
    rewrite Pos2Z.inj_xO, <- Z.pow_add_r by lia. f_equal. lia.
  - rewrite shr_1_div2 by exact Hm. reflexivity.
Qed.

Lemma fexp_above (x : Z) : -1021 <= x -> fexp prec emax x = x - 53.
Proof.
  intros Hx. unfold fexp, emin. change prec with 53. change emax with 1024. lia.
Qed.

Lemma shr_record_of_loc_m (m : Z) (l : location) : shr_m (shr_record_of_loc m l) = m.
Proof. destruct l as [|[]]; reflexivity. Qed.

(** Shifting a positive mantissa to its precision leaves it positive. *)
Lemma shr_fexp_positive (p : positive) (e : Z) (l : location) :
  -1022 <= e ->
  0 < shr_m (fst (shr_fexp prec emax (Zpos p) e l))
  /\ shr_m (fst (shr_fexp prec emax (Zpos p) e l)) <= Zpos p
  /\ e <= snd (shr_fexp prec emax (Zpos p) e l)
     <= e + Z.max 0 (Zdigits2 (Zpos p) - 53).
Proof.
  intros He. unfold shr_fexp.
  pose proof (Zdigits2_bounds p) as [Hlow Hhigh].
  assert (Hd : 1 <= Zdigits2 (Zpos p)) by (cbn; lia).
  rewrite fexp_above by lia.
  replace (Zdigits2 (Zpos p) + e - 53 - e) with (Zdigits2 (Zpos p) - 53) by lia.
  set (d := Zdigits2 (Zpos p)) in *. unfold shr.
  destruct (d - 53) as [|n|n] eqn:Hn; cbn [fst snd]; rewrite ?shr_record_of_loc_m;
    try lia.
  rewrite iter_shr_1_div by (rewrite shr_record_of_loc_m; lia).
  rewrite shr_record_of_loc_m.
  assert (Hpow : 0 < 2 ^ Zpos n) by (apply Z.pow_pos_nonneg; lia).
  assert (Hle : 2 ^ Zpos n <= Zpos p).
  { apply Z.le_trans with (2 ^ (d - 1)); [ | exact Hlow ].
    apply Z.pow_le_mono_r; lia. }
  split; [ apply Z.div_str_pos; lia | ].
  split; [ | lia ].
  apply Z.div_le_upper_bound; [ lia | ]. nia.
Qed.

Lemma round_nearest_even_bounds (m : Z) (l : location) :
  m <= round_nearest_even m l <= m + 1.
Proof. destruct l as [|[]]; cbn; try lia. destruct (Z.even m); lia. Qed.

Lemma Zdigits2_le (p : positive) (k : Z) : 0 <= k -> Zpos p < 2 ^ k -> Zdigits2 (Zpos p) <= k.
Proof.
  intros Hk Hp. pose proof (Zdigits2_bounds p) as [Hlow _].
  destruct (Z.le_gt_cases (Zdigits2 (Zpos p)) k) as [Hle|Hgt]; [ exact Hle | ].
  assert (2 ^ k <= 2 ^ (Zdigits2 (Zpos p) - 1)) by (apply Z.pow_le_mono_r; lia). lia.
Qed.

(** Rounding a positive mantissa of moderate size and exponent gives a
    positive finite number. *)
Lemma binary_round_aux_positive (p : positive) (ex : Z) (lx : location) :
  Zpos p < 2 ^ 64 -> -1022 <= ex <= 900 ->
  exists m e, binary_round_aux prec emax false (Zpos p) ex lx = S754_finite false m e.
Proof.
  intros Hp Hex. unfold binary_round_aux.
  pose proof (shr_fexp_positive p ex lx (proj1 Hex)) as (Hpos & Hle & Hex').
  pose proof (Zdigits2_le p 64 ltac:(lia) Hp) as Hd.
  destruct (shr_fexp prec emax (Zpos p) ex lx) as [mrs' e']. cbn [fst snd] in *.
  pose proof (round_nearest_even_bounds (shr_m mrs') (loc_of_shr_record mrs')) as Hround.
  destruct (round_nearest_even (shr_m mrs') (loc_of_shr_record mrs')) as [|q|q];
    try lia.
  pose proof (shr_fexp_positive q e' loc_Exact ltac:(lia)) as (Hpos' & Hle' & Hex'').
  assert (Hq : Zpos q < 2 ^ 65).
  { change (2 ^ 65) with (2 * 2 ^ 64). lia. }
  pose proof (Zdigits2_le q 65 ltac:(lia) Hq) as Hd'.
  destruct (shr_fexp prec emax (Zpos q) e' loc_Exact) as [mrs'' e'']. cbn [fst snd] in *.
  destruct (shr_m mrs'') as [|m|m]; try lia.
  change (emax - prec) with 971.
  destruct (Z.leb_spec e'' 971) as [_|Hover]; [ eauto | lia ].
Qed.

Lemma iter_xO (d p : positive) : Zpos (Pos.iter xO p d) = Zpos p * 2 ^ Zpos d.
Proof.
  induction d as [|d IH] using Pos.peano_ind.
  - cbn [Pos.iter]. change (2 ^ 1) with 2. lia.
  - rewrite Pos.iter_succ, Pos2Z.inj_succ, Z.pow_succ_r by lia.
    rewrite Pos2Z.inj_xO, IH. lia.
Qed.

(** [float64(n)] for a positive [int]. *)
Lemma binary_normalize_positive (n : Z) :
  0 < n < 2 ^ 63 ->
  exists m e, binary_normalize prec emax n 0 false = S754_finite false m e.
Proof.
  intros Hn. destruct n as [|p|p]; try lia. unfold binary_normalize, binary_round.
  pose proof (Zdigits2_bounds p) as [Hlow Hhigh]. cbn [Zdigits2] in Hlow, Hhigh.
  pose proof (Zdigits2_le p 63 ltac:(lia) (proj2 Hn)) as Hd. cbn [Zdigits2] in Hd.
  rewrite fexp_above by lia. unfold shl_align.
  destruct (Zpos (digits2_pos p) + 0 - 53 - 0) as [|k|k] eqn:Hk.
  - apply binary_round_aux_positive; [ | lia ].
    apply Z.lt_trans with (2 ^ 63); [ lia | reflexivity ].
  - apply binary_round_aux_positive; [ | lia ].
    apply Z.lt_trans with (2 ^ 63); [ lia | reflexivity ].
  - apply binary_round_aux_positive; [ | lia ].
    rewrite iter_xO.
    assert (Hshift : 2 ^ Zpos (digits2_pos p) * 2 ^ Zpos k = 2 ^ 53).
    { rewrite <- Z.pow_add_r by lia. f_equal. lia. }
    assert (Hpow : 0 < 2 ^ Zpos k) by (apply Z.pow_pos_nonneg; lia).
    apply Z.lt_trans with (2 ^ 53); [ nia | reflexivity ].
Qed.

Lemma Prim2SF_float64 (n : Z) :
  0 <= n < 2 ^ 63 -> Prim2SF (Go.float64 n) = binary_normalize prec emax n 0 false.
Proof.
  intros Hn. unfold Go.float64.
  assert (H : binary_normalize prec emax n 0 false
              = Prim2SF (of_uint63 (Uint63.of_Z n))).
  { rewrite FloatAxioms.of_uint63_spec, Uint63.of_Z_spec, Z.mod_small; [ reflexivity | ].
    exact Hn. }
  rewrite H, FloatAxioms.SF2Prim_Prim2SF. reflexivity.
Qed.

Lemma binary_round_aux_nonneg (mx ex : Z) (lx : location) :
  0 <= mx -> SFnonneg (binary_round_aux prec emax false mx ex lx).
Proof.
  intros Hm. unfold binary_round_aux.
  pose proof (shr_fexp_nonneg mx ex lx Hm) as H1.
  destruct (shr_fexp prec emax mx ex lx) as [mrs' e']. cbn [fst] in H1.
  pose proof (shr_fexp_nonneg _ e' loc_Exact
                (round_nearest_even_nonneg _ (loc_of_shr_record mrs') H1)) as H2.
  destruct (shr_fexp prec emax _ e' loc_Exact) as [mrs'' e'']. cbn [fst] in H2.
  destruct (shr_m mrs'') as [|p|p]; [ exact I | | lia ].
  destruct (e'' <=? emax - prec); reflexivity.
Qed.

Lemma SFdiv_core_binary_nonneg (mx my : positive) (ex ey : Z) :
  0 <= fst (fst (SFdiv_core_binary prec emax (Zpos mx) ex (Zpos my) ey)).
Proof.
  unfold SFdiv_core_binary. cbv zeta.
  set (s := ex - ey - _).
  set (m' := match s with Z0 => Zpos mx | Zpos _ => Z.shiftl (Zpos mx) s | Zneg _ => 0 end).
  assert (Hm' : 0 <= m').
  { subst m'. destruct s; try lia. apply Z.shiftl_nonneg. lia. }
  pose proof (Z_div_mod m' (Zpos my) ltac:(lia)) as Hdiv.
  destruct (Z.div_eucl m' (Zpos my)) as [q r]. cbn [fst]. nia.
Qed.

(** A positive finite number times a non-negative one, and a
    non-negative number divided by a positive finite one, are not
    negative. *)
Lemma SFmul_nonneg (m : positive) (e : Z) (y : spec_float) :
  SFnonneg y -> SFnonneg (SFmul prec emax (S754_finite false m e) y).
Proof.
  destruct y as [s|s| |s m' e']; cbn [SFnonneg SFmul xorb]; try tauto.
  intros ->. apply binary_round_aux_nonneg. lia.
Qed.

Lemma SFdiv_nonneg (x : spec_float) (m : positive) (e : Z) :
  SFnonneg x -> SFnonneg (SFdiv prec emax x (S754_finite false m e)).
Proof.
  destruct x as [s|s| |s m' e']; cbn [SFnonneg SFdiv]; try tauto.
  - intros ->. reflexivity.
  - intros ->. cbn [xorb].
    pose proof (SFdiv_core_binary_nonneg m' m e' e) as Hq.
    destruct (SFdiv_core_binary prec emax (Zpos m') e' (Zpos m) e) as [[mz ez] lz].
    apply binary_round_aux_nonneg. exact Hq.
Qed.

Lemma SFnonneg_leb_0 (x : float) : SFnonneg (Prim2SF x) -> (0 <=? x)%float = true.
Proof.
  rewrite FloatAxioms.leb_spec. change (Prim2SF 0) with (S754_zero false).
  destruct (Prim2SF x) as [s|s| |s m e]; cbn [SFnonneg]; try tauto;
    intros; subst; reflexivity.
Qed.

Lemma SFnonneg_numeric (x : float) : SFnonneg (Prim2SF x) -> numeric x.
Proof.
  intros Hx. apply numeric_Prim2SF. intros Hnan. rewrite Hnan in Hx. exact Hx.
Qed.

Section score_range.
Import eureka.

Lemma peak_count_le (tms : list TimeMatch) : peak_count tms <= Z.of_nat (length tms).
Proof.
  unfold peak_count. cbv zeta. set (diffs := map TimeDiff tms).
  assert (Hall : Forall (fun k => (k <= length tms)%nat)
                   (map (count_occ Z.eq_dec diffs) diffs)).
  { apply List.Forall_forall. intros k Hk. apply in_map_iff in Hk as (d & <- & _).
    pose proof (count_occ_bound Z.eq_dec d diffs) as Hb. subst diffs.
    rewrite length_map in Hb. exact Hb. }
  apply list_max_le in Hall. lia.
Qed.

(** The score of [peak] hits at one difference among [total]. *)
Lemma score_of_range (mic : bool) (peak total : Z) :
  0 < peak < 2 ^ 63 -> 0 < total < 2 ^ 63 ->
  (0 <=? score_of mic peak total)%float = true
  /\ (score_of mic peak total <=? 1)%float = true.
Proof.
  intros Hpeak Htotal. unfold score_of. cbv zeta.
  set (raw := (Go.float64 peak * (Go.float64 peak / Go.float64 total) / norm mic)%float).
  assert (Hraw : SFnonneg (Prim2SF raw)).
  { subst raw. rewrite FloatAxioms.div_spec, FloatAxioms.mul_spec, FloatAxioms.div_spec.
    rewrite !Prim2SF_float64 by lia.
    destruct (binary_normalize_positive peak Hpeak) as (mp & ep & ->).
    destruct (binary_normalize_positive total Htotal) as (mt & et & ->).
    assert (Hnorm : exists m e, Prim2SF (norm mic) = S754_finite false m e).
    { destruct mic; vm_compute; eauto. }
    destruct Hnorm as (mn & en & ->).
    apply SFdiv_nonneg, SFmul_nonneg, SFdiv_nonneg. reflexivity. }
  destruct (1 <? raw)%float eqn:Hone; [ split; reflexivity | ].
  split; [ apply SFnonneg_leb_0, Hraw | ].
  rewrite leb_ltb; [ rewrite Hone; reflexivity | apply SFnonneg_numeric, Hraw | reflexivity ].
Qed.

(** X21: the temporal score is a number between 0 and 1, never a NaN,
    whatever the hits; it is 0 when there are fewer than 5 hits (3 for
    the microphone). *)
Theorem calculateTemporalScore_range (rt : Go.Runtime) (timeMatches : list TimeMatch)
    (isFromMicrophone : bool) :
  Go.runtime_ok rt ->
  Z.of_nat (length timeMatches) <= Go.max_int ->
  let score := calculateTemporalScore rt timeMatches isFromMicrophone in
  (0 <=? score)%float = true
  /\ (score <=? 1)%float = true
  /\ numeric score
  /\ (Z.of_nat (length timeMatches) < minMatches isFromMicrophone -> score = 0%float).
Proof.
  intros Hrt Hlen. cbv zeta.
  assert (Hrange : (0 <=? calculateTemporalScore rt timeMatches isFromMicrophone)%float = true
                   /\ (calculateTemporalScore rt timeMatches isFromMicrophone <=? 1)%float
                      = true).
  { destruct (Z.lt_ge_cases (Z.of_nat (length timeMatches)) (minMatches isFromMicrophone))
      as [Hfew|Henough].
    - unfold calculateTemporalScore. fold (minMatches isFromMicrophone).
      destruct (Z.ltb_spec (Z.of_nat (length timeMatches)) (minMatches isFromMicrophone));
        [ split; reflexivity | lia ].
    - rewrite calculateTemporalScore_score_of by assumption.
      assert (Hne : timeMatches <> []).
      { intros ->. destruct isFromMicrophone; cbn in Henough; lia. }
      pose proof (peak_count_positive timeMatches Hne).
      pose proof (peak_count_le timeMatches).
      unfold Go.max_int in Hlen.
      apply score_of_range; change (2 ^ 63) with 9223372036854775808; lia. }
  destruct Hrange as [H0 H1]. split; [ exact H0 | ]. split; [ exact H1 | ]. split.
  - unfold numeric. rewrite FloatAxioms.leb_spec in H1.
    apply not_true_iff_false. intros Hnan. apply is_nan_Prim2SF in Hnan.
    rewrite Hnan in H1. discriminate.
  - intros Hfew. unfold calculateTemporalScore. fold (minMatches isFromMicrophone).
    destruct (Z.ltb_spec (Z.of_nat (length timeMatches)) (minMatches isFromMicrophone));
      [ reflexivity | lia ].
Qed.

Lemma calculateTemporalScore_range_witness :
  let score := calculateTemporalScore Go.reference (hits example_query example_rows 9) true in
  (0 <=? score)%float = true
  /\ (score <=? 1)%float = true
  /\ numeric score
  /\ (Z.of_nat (length (hits example_query example_rows 9)) < minMatches true ->
      score = 0%float).
Proof.
  apply (calculateTemporalScore_range Go.reference (hits example_query example_rows 9) true).
  - exact reference_ok.
  - vm_compute. discriminate.
Defined.

End score_range.

(** ** The matcher: how many lookups *)

Section query_count.
Import database eureka.

Lemma counter_lookup (step fuel i hi k x : nat) :
  Go.counter fuel i hi step !! k = Some x -> x = (i + k * step)%nat.
Proof.
  revert i k. induction fuel as [|fuel IH]; intros i k; cbn [Go.counter].
  - rewrite lookup_nil. discriminate.
  - destruct (i <? hi)%nat; [ | rewrite lookup_nil; discriminate ].
    destruct k as [|k]; cbn.
    + intros [= <-]. lia.
    + intros Hk. apply IH in Hk. lia.
Qed.

Lemma counter_length_1000 (fuel i hi : nat) :
  (hi - i <= fuel)%nat ->
  Z.of_nat (length (Go.counter fuel i hi 1000)) = (Z.of_nat (hi - i) + 999) / 1000.
Proof.
  revert i. induction fuel as [|fuel IH]; intros i Hfuel; cbn [Go.counter].
  - replace (hi - i)%nat with 0%nat by lia. reflexivity.
  - destruct (Nat.ltb_spec i hi) as [Hlt|Hge].
    + cbn [length]. rewrite Nat2Z.inj_succ, IH by lia.
      destruct (Nat.le_gt_cases 1000 (hi - i)) as [Hbig|Hsmall].
      * replace (Z.of_nat (hi - i) + 999)
          with (Z.of_nat (hi - (i + 1000)) + 999 + 1 * 1000) by lia.
        rewrite Z.div_add by lia. lia.
      * replace (hi - (i + 1000))%nat with 0%nat by lia.
        change ((Z.of_nat 0 + 999) / 1000) with 0.
        change (Z.succ 0) with 1.
        apply (Z.div_unique _ 1000 1 (Z.of_nat (hi - i) - 1)); lia.
    + replace (hi - i)%nat with 0%nat by lia. reflexivity.
Qed.

Lemma batches_count (hashes : list string) :
  Z.of_nat (length (batches hashes)) = (Z.of_nat (length hashes) + 999) / 1000.
Proof.
  unfold batches, Go.range. rewrite length_map, counter_length_1000 by lia.
  rewrite Nat.sub_0_r. reflexivity.
Qed.

Lemma batches_lookup (hashes batch : list string) (k : nat) :
  batches hashes !! k = Some batch ->
  batch = take 1000 (drop (1000 * k) hashes)
  /\ Z.of_nat (length batch) = Z.min 1000 (Z.of_nat (length hashes) - 1000 * Z.of_nat k).
Proof.
  unfold batches. rewrite list_lookup_fmap. intros Hk.
  destruct (Go.range 0 (length hashes) 1000 !! k) as [i|] eqn:Hi; [ | discriminate ].
  injection Hk as <-.
  assert (Hlt : (i < length hashes)%nat).
  { apply (range_lt 0 (length hashes) 1000). eapply list_elem_of_In, list_elem_of_lookup_2, Hi. }
  unfold Go.range in Hi. apply counter_lookup in Hi. subst i. cbn [Nat.add].
  replace (k * 1000)%nat with (1000 * k)%nat by lia. split; [ reflexivity | ].
  rewrite length_take, length_drop. lia.
Qed.

(** X22: when [findMatches] returns matches, every hash of the query has
    been sent to the store exactly once; a query of [n] hashes takes
    [(n + 999) / 1000] lookups (the number the function announces in its
    log), each of 1000 hashes but for the last, which takes the rest. *)
Theorem findMatches_query_count (rt : Go.Runtime) (db : Database)
    (sampleFingerprints : gmap string Z) (isFromMicrophone : bool)
    (matches : list Match) (calls : list call) :
  Go.runtime_ok rt ->
  findMatches rt db sampleFingerprints isFromMicrophone = Some (Go.Ok matches, calls) ->
  let n := Z.of_nat (size sampleFingerprints) in
  Permutation (concat (queries calls)) (map fst (map_to_list sampleFingerprints))
  /\ NoDup (concat (queries calls))
  /\ Z.of_nat (length (queries calls)) = (n + 999) / 1000
  /\ forall k batch,
       queries calls !! k = Some batch ->
       Z.of_nat (length batch) = Z.min 1000 (n - 1000 * Z.of_nat k).
Proof.
  intros Hrt Hrun. cbv zeta.
  set (hashes := Go.map_keys rt _ sampleFingerprints).
  assert (Hperm : Permutation hashes (map fst (map_to_list sampleFingerprints))).
  { apply (Go.map_keys_ok rt Hrt). }
  assert (Hsize : length hashes = size sampleFingerprints).
  { rewrite (Permutation_length Hperm), length_map. apply length_map_to_list. }
  assert (Hq : queries calls = batches hashes).
  { rewrite findMatches_candidates in Hrun. fold hashes in Hrun.
    pose proof (query_all_calls db (batches hashes)) as Hcalls.
    destruct (query_all db (batches hashes)) as [[rows err] calls'].
    destruct Hcalls as (k & _ & Hall).
    destruct err as [e|]; [ discriminate | ]. specialize (Hall eq_refl).
    destruct (length rows =? 0)%nat; injection Hrun as _ <-; rewrite Hall.
    - apply queries_Query.
    - rewrite queries_app, queries_Query, queries_GetSong. apply app_nil_r. }
  rewrite Hq, concat_batches, <- Hsize.
  split; [ exact Hperm | ]. split.
  { rewrite Hperm. exact (NoDup_fst_map_to_list sampleFingerprints). }
  split; [ apply batches_count | ].
  intros k batch Hk. apply batches_lookup in Hk. tauto.
Qed.

Lemma findMatches_query_count_witness :
  exists matches calls,
    findMatches Go.reference example_store example_query true = Some (Go.Ok matches, calls)
    /\ let n := Z.of_nat (size example_query) in
       Permutation (concat (queries calls)) (map fst (map_to_list example_query))
       /\ NoDup (concat (queries calls))
       /\ Z.of_nat (length (queries calls)) = (n + 999) / 1000
       /\ forall k batch,
            queries calls !! k = Some batch ->
            Z.of_nat (length batch) = Z.min 1000 (n - 1000 * Z.of_nat k).
Proof.
  eexists _, _. split; [ vm_compute; reflexivity | ].
  eapply (findMatches_query_count Go.reference example_store example_query true _ _
            reference_ok).
  vm_compute. reflexivity.
Defined.

End query_count.

(** ** The text that is hashed *)

Section hash_input.
Import fingerprint.
Local Open Scope string_scope.

Lemma string_of_uint_no_bar (d : Decimal.uint) :
  has_bar (NilEmpty.string_of_uint d) = false.
Proof. induction d; cbn; assumption || reflexivity. Qed.

Lemma fmt_d_no_bar (n : Z) : has_bar (Go.fmt_d n) = false.
Proof.
  unfold Go.fmt_d, NilZero.string_of_int, NilZero.string_of_uint.
  destruct (Z.to_int n) as [d|d]; destruct d; cbn [has_bar Ascii.eqb orb];
    try reflexivity; cbn; apply string_of_uint_no_bar.
Qed.

(** [Sprintf("%d", n)] tells [n]. *)
Lemma fmt_d_inj (n n' : Z) : Go.fmt_d n = Go.fmt_d n' -> n = n'.
Proof.
  unfold Go.fmt_d. intros Heq. apply DecimalZ.to_int_inj.
  assert (Hparse : forall z, NilZero.int_of_string (NilZero.string_of_int (Z.to_int z))
                             = Some (Z.to_int z)).
  { intros z. apply NilZero.isi; destruct z as [|p|p]; cbn; try discriminate;
      intros [= H]; exact (DecimalPos.Unsigned.to_uint_nonnil p H). }
  pose proof (Hparse n) as Hn. rewrite Heq, Hparse in Hn. congruence.
Qed.

(** A text is cut at its first ['|'] in one way only. *)
Lemma split_at_bar (a a' r r' : string) :
  has_bar a = false -> has_bar a' = false ->
  a ++ String "|" r = a' ++ String "|" r' -> a = a' /\ r = r'.
Proof.
  revert a'. induction a as [|c a IH]; intros [|c' a']; cbn [has_bar append].
  - intros _ _ [= ->]. split; reflexivity.
  - intros _ Hbar [= <- _]. discriminate Hbar.
  - intros Hbar _ [= -> _]. discriminate Hbar.
  - intros Ha Ha' [= <- Heq].
    apply orb_false_iff in Ha as [_ Ha]. apply orb_false_iff in Ha' as [_ Ha'].
    destruct (IH a' Ha Ha' Heq) as [-> ->]. split; reflexivity.
Qed.

(** X23: the text the encoders hash tells the anchor bin, the target bin
    and the whole milliseconds between the two peaks: two pairs get the
    same text exactly when they agree on all three, so that two different
    triples can share a hash only if SHA-1 collides.  In particular the
    four neighbours of a pair that the tolerance encoder tries
    ((-1, 0), (+1, 0), (0, -1), (0, +1)) give four texts, all different
    from one another and from the text of the pair itself. *)
Theorem hashInput_injective (anchorBin targetBin anchorBin' targetBin' : Z)
    (timeDelta timeDelta' : float) :
  (hashInput anchorBin targetBin timeDelta = hashInput anchorBin' targetBin' timeDelta'
   <-> anchorBin = anchorBin' /\ targetBin = targetBin'
       /\ Go.int timeDelta = Go.int timeDelta')
  /\ (Go.min_int < anchorBin < Go.max_int -> Go.min_int < targetBin < Go.max_int ->
      NoDup (hashInput anchorBin targetBin timeDelta
             :: map (fun tol : Z * Z =>
                       hashInput (Go.add anchorBin (fst tol)) (Go.add targetBin (snd tol))
                         timeDelta)
                    [(-1, 0); (1, 0); (0, -1); (0, 1)])).
Proof.
  assert (Hinj : forall a b t a' b' t',
            hashInput a b t = hashInput a' b' t'
            -> a = a' /\ b = b' /\ Go.int t = Go.int t').
  { intros a b t a' b' t'. unfold hashInput. intros Heq.
    apply split_at_bar in Heq as [Ha Heq]; try apply fmt_d_no_bar.
    apply split_at_bar in Heq as [Hb Ht]; try apply fmt_d_no_bar.
    apply fmt_d_inj in Ha, Hb, Ht. auto. }
  split.
  - split; [ apply Hinj | ]. intros (-> & -> & Ht). unfold hashInput. rewrite Ht.
    reflexivity.
  - unfold Go.min_int, Go.max_int. intros Ha Hb. cbn [map fst snd].
    unfold Go.add. rewrite !wrap_small' by lia.
    repeat (apply NoDup_cons; split;
            [ rewrite ?not_elem_of_cons; repeat split;
              try apply not_elem_of_nil; intros Heq; apply Hinj in Heq; lia | ]).
    apply NoDup_nil_2.
Qed.

End hash_input.

(** ** The command line *)

Section command_line.
Import cmd.

(** Once the configuration is read and the application set up, [main]
    makes the call of the first flag given, and no other. *)
Lemma main_calls {Config Song : Type} (LoadConfig : Go.fallible Config)
    (NewEureka : Config -> Go.fallible (App Song)) (flags : Flags) :
  fst (main LoadConfig NewEureka flags)
  = match LoadConfig with
    | Go.Ok config =>
        match NewEureka config with
        | Go.Ok _ => option_list (command flags)
        | Go.Err _ => []
        end
    | Go.Err _ => []
    end.
Proof.
  unfold main, command.
  destruct LoadConfig as [config|e]; [ | reflexivity ].
  destruct (NewEureka config) as [app|e]; [ | reflexivity ].
  destruct (deleteCmd flags >=? 0); [ reflexivity | ].
  destruct (cleanupCmd flags); [ reflexivity | ].
  destruct (listCmd flags); [ reflexivity | ].
  destruct (microphoneCmd flags); [ reflexivity | ].
  destruct (String.eqb (recognizeFile flags) ""); [ | reflexivity ].
  destruct (String.eqb (audioFile flags) ""); reflexivity.
Qed.

(** The call that was made is the one at hand, and it went well. *)
Ltac went_well Happ :=
  let Hcfg := fresh in let Happ' := fresh in let Hcalls := fresh in
  intros (? & ? & ? & Hcfg & Happ' & Hcalls & ?);
  injection Hcfg as <-; rewrite Happ in Happ'; injection Happ' as <-;
  injection Hcalls as <-;
  match goal with
  | H : exists _, _ |- _ => destruct H as [? H]; rewrite H; reflexivity
  | H : _ = None |- _ => rewrite H; reflexivity
  end.

(** X24: a run of [main] makes, once the configuration is read and the
    application set up, the call of the first flag given in the order
    [-delete] (any identifier from 0 on), [-cleanup], [-list],
    [-microphone], [-recognize], [-file], and no other call; it makes no
    call when the set-up fails or no flag is given.  So a song is saved
    only when [-file] is the only flag given.  The exit status is 0
    exactly when one call was made and it returned no error; without a
    flag it is 1. *)
Theorem main_one_command {Config Song : Type} (LoadConfig : Go.fallible Config)
    (NewEureka : Config -> Go.fallible (App Song)) (flags : Flags) :
  let calls := fst (main LoadConfig NewEureka flags) in
  let exit := snd (main LoadConfig NewEureka flags) in
  calls = match LoadConfig with
          | Go.Ok config =>
              match NewEureka config with
              | Go.Ok _ => option_list (command flags)
              | Go.Err _ => []
              end
          | Go.Err _ => []
          end
  /\ (length calls <= 1)%nat
  /\ (exit = 0 \/ exit = 1)
  /\ (exit = 0 <->
      exists config app c,
        LoadConfig = Go.Ok config /\ NewEureka config = Go.Ok app /\ calls = [c]
        /\ match c with
           | CallDelete songID => Delete app songID = None
           | CallCleanup => Cleanup app = None
           | CallList => exists songs, List app = Go.Ok songs
           | CallRecognizeFromMicrophone => RecognizeFromMicrophone app = None
           | CallRecognize audioPath => exists matches, Recognize app audioPath = Go.Ok matches
           | CallSave audioPath => Save app audioPath = None
           end)
  /\ (forall c, In c calls -> 0 <= deleteCmd flags -> c = CallDelete (deleteCmd flags))
  /\ (forall audioPath,
        In (CallSave audioPath) calls ->
        audioPath = audioFile flags /\ audioPath <> ""%string
        /\ deleteCmd flags < 0 /\ cleanupCmd flags = false /\ listCmd flags = false
        /\ microphoneCmd flags = false /\ recognizeFile flags = ""%string)
  /\ (flags = defaults -> calls = [] /\ exit = 1).
Proof.
  cbv zeta. split; [ apply main_calls | ]. unfold main.
  destruct LoadConfig as [config|e].
  2: { cbn. repeat split; auto; try lia; try tauto; try discriminate.
       intros (? & ? & ? & ? & ? & ? & ?). congruence. }
  destruct (NewEureka config) as [app|e] eqn:Happ.
  2: { cbn. repeat split; auto; try lia; try tauto; try discriminate.
       intros (? & ? & ? & ? & ? & ? & ?). congruence. }
  destruct (Z.geb_spec (deleteCmd flags) 0) as [Hdel|Hdel].
  { cbn [fst snd length In]. split; [ lia | ]. split.
    { destruct (Delete app (deleteCmd flags)); cbn; auto. }
    split.
    { split; [ | went_well Happ ].
      intros Hexit. exists config, app, (CallDelete (deleteCmd flags)).
      repeat split; auto. destruct (Delete app (deleteCmd flags)); [ discriminate | reflexivity ]. }
    split; [ intros c [<-|[]] _; reflexivity | ].
    split; [ intros p [|[]]; discriminate | ].
    intros ->. cbn in Hdel. lia. }
  destruct (cleanupCmd flags) eqn:Hclean.
  { cbn [fst snd length In]. split; [ lia | ]. split.
    { destruct (Cleanup app); cbn; auto. }
    split.
    { split; [ | went_well Happ ].
      intros Hexit. exists config, app, CallCleanup.
      repeat split; auto. destruct (Cleanup app); [ discriminate | reflexivity ]. }
    split; [ intros c _ Hd; lia | ].
    split; [ intros p [|[]]; discriminate | ].
    intros ->. discriminate. }
  destruct (listCmd flags) eqn:Hlist.
  { cbn [fst snd length In]. split; [ lia | ]. split.
    { destruct (List app); cbn; auto. }
    split.
    { split; [ | went_well Happ ].
      intros Hexit. exists config, app, CallList.
      repeat split; auto. destruct (List app); [ eauto | discriminate ]. }
    split; [ intros c _ Hd; lia | ].
    split; [ intros p [|[]]; discriminate | ].
    intros ->. discriminate. }
  destruct (microphoneCmd flags) eqn:Hmic.
  { cbn [fst snd length In]. split; [ lia | ]. split.
    { destruct (RecognizeFromMicrophone app); cbn; auto. }
    split.
    { split; [ | went_well Happ ].
      intros Hexit. exists config, app, CallRecognizeFromMicrophone.
      repeat split; auto.
      destruct (RecognizeFromMicrophone app); [ discriminate | reflexivity ]. }
    split; [ intros c _ Hd; lia | ].
    split; [ intros p [|[]]; discriminate | ].
    intros ->. discriminate. }
  destruct (String.eqb_spec (recognizeFile flags) "") as [Hrec|Hrec]; cbn [negb].
  2: { cbn [fst snd length In]. split; [ lia | ]. split.
       { destruct (Recognize app (recognizeFile flags)); cbn; auto. }
       split.
       { split; [ | went_well Happ ].
      intros Hexit. exists config, app, (CallRecognize (recognizeFile flags)).
         repeat split; auto.
         destruct (Recognize app (recognizeFile flags)); [ eauto | discriminate ]. }
       split; [ intros c _ Hd; lia | ].
       split; [ intros p [|[]]; discriminate | ].
       intros ->. cbn in Hrec. congruence. }
  destruct (String.eqb_spec (audioFile flags) "") as [Hfile|Hfile].
  { cbn [fst snd length In]. split; [ lia | ]. split; [ auto | ].
    split; [ split; [ discriminate | intros (? & ? & ? & _ & _ & [=] & _) ] | ].
    split; [ intros c [] | ]. split; [ intros p [] | ].
    auto. }
  cbn [fst snd length In]. split; [ lia | ]. split.
  { destruct (Save app (audioFile flags)); cbn; auto. }
  split.
  { split; [ | went_well Happ ].
      intros Hexit. exists config, app, (CallSave (audioFile flags)).
    repeat split; auto. destruct (Save app (audioFile flags)); [ discriminate | reflexivity ]. }
  split; [ intros c _ Hd; lia | ].
  split.
  { intros p [[= <-]|[]]. repeat split; auto; lia. }
  intros ->. cbn in Hfile. congruence.
Qed.

(** [-delete 0 -file song.mp3] deletes song 0 and saves nothing;
    [-cleanup -list] cleans up and lists nothing. *)
Example main_delete_first :
  main (Go.Ok tt) (fun _ : unit => Go.Ok example_app) example_flags = ([CallDelete 0], 0)
  /\ main (Go.Ok tt) (fun _ : unit => Go.Ok example_app) defaults = ([], 1)
  /\ fst (main (Go.Ok tt) (fun _ : unit => Go.Ok example_app)
            {| audioFile := ""; recognizeFile := ""; microphoneCmd := false;
               listCmd := true; cleanupCmd := true; deleteCmd := -1 |})
     = [CallCleanup].
Proof. repeat split; reflexivity. Qed.

End command_line.

(** ** The bin two bands share *)

Section shared_bin.
Import fingerprint.

(** A band ends at the bin at which the next one starts. *)
Lemma consecutive_bands (sampleRate windowSize : Z) (k : nat) (b1 b2 : FrequencyBand) :
  getFrequencyBands sampleRate windowSize !! k = Some b1 ->
  getFrequencyBands sampleRate windowSize !! S k = Some b2 ->
  End_ b1 = Start b2.
Proof.
  unfold getFrequencyBands. cbv zeta.
  set (binSize := (_ / _)%float). set (maxBin := Go.sub _ _).
  cbn [map Start End_].
  do 5 (destruct k as [|k];
        [ cbn [lookup list_lookup]; intros [= <-] [= <-]; reflexivity | ]).
  destruct k; cbn [lookup list_lookup]; discriminate.
Qed.

(** The strongest local maximum of a band is the peak taken for it. *)
Lemma band_peaks_strongest (Abs : complex128 -> float)
    (spectrogram : list (list complex128)) (sampleRate : Z)
    (t : nat) (band : FrequencyBand) (f : Z) (v : float) :
  rectangular spectrogram ->
  slices spectrogram ->
  (forall row c, In row spectrogram -> In c row -> numeric (Abs c)) ->
  Forall (fun b => 0 <= Start b) (getFrequencyBands sampleRate WINDOW_SIZE) ->
  let magnitudes := getMagnitudes Abs spectrogram in
  In band (getFrequencyBands sampleRate WINDOW_SIZE) ->
  Start band <= f <= End_ band ->
  End_ band < width magnitudes ->
  cell magnitudes (Z.of_nat t) f = Some v ->
  local_max magnitudes (Z.of_nat t) f ->
  (PEAK_THRESHOLD <? v)%float = true ->
  (forall f' v',
     Start band <= f' <= End_ band -> f' <> f ->
     cell magnitudes (Z.of_nat t) f' = Some v' ->
     local_max magnitudes (Z.of_nat t) f' ->
     (v' <? v)%float = true) ->
  band_peaks magnitudes sampleRate t band = [peak_at sampleRate t f v].
Proof.
  intros Hrect Hslices Hnumeric Hbands magnitudes Hband Hf Hfit Hcell Hmax Hthr Hbest.
  subst magnitudes. set (magnitudes := getMagnitudes Abs spectrogram) in *.
  assert (Hstart : 0 <= Start band).
  { rewrite List.Forall_forall in Hbands. apply Hbands, Hband. }
  assert (Hrow : exists frame, magnitudes !! t = Some frame).
  { unfold cell, Go.index in Hcell.
    destruct (Z.ltb_spec (Z.of_nat t) 0); [ lia | ]. rewrite Nat2Z.id in Hcell.
    destruct (magnitudes !! t) as [frame|]; [ eauto | discriminate ]. }
  destruct Hrow as [frame Ht].
  pose proof (frame_width Abs spectrogram Hrect Hslices Hnumeric t frame Ht) as Hw.
  fold magnitudes in Hw.
  unfold band_peaks. rewrite Ht.
  destruct (Z.geb_spec (Start band) (Z.of_nat (length frame))) as [Hs|Hs]; [ lia | ].
  destruct (Z.geb_spec (End_ band) (Z.of_nat (length frame))) as [He|He]; [ lia | ].
  cbn [orb].
  destruct (band_scan Abs spectrogram sampleRate Hrect Hslices Hnumeric Hbands
              t frame band Ht Hband Hs He) as ([maxMag maxBin] & Hscan & Hdisj & Hall).
  fold magnitudes in Hscan, Hdisj, Hall. rewrite Hscan.
  destruct (Hall f v) as [Hle _]; [ lia | assumption | assumption | ].
  assert (Hpos : (0 <? v)%float = true).
  { apply (ltb_trans _ PEAK_THRESHOLD); [ reflexivity | exact Hthr ]. }
  destruct Hdisj as [[-> ->]|(Hr & Hcm & Hlm & _)]; [ congruence | ].
  destruct (Z.eq_dec maxBin f) as [->|Hne].
  - assert (maxMag = v) as -> by congruence.
    destruct (Z.eqb_spec f (-1)) as [Heq|_]; [ lia | ].
    rewrite Hthr. reflexivity.
  - rewrite (Hbest maxBin maxMag) in Hle; [ discriminate | lia | | | ]; assumption.
Qed.

(** X25: the bands overlap.  A band ends at the bin at which the next
    one starts, and [PickPeaks] scans a band from its first bin to its
    last, both included.  So when the strongest local maximum of two
    neighbouring bands of a frame sits at the bin they share and exceeds
    the threshold, [PickPeaks] returns that peak twice, one copy after
    the other. *)
Theorem PickPeaks_shared_bin_twice (Abs : complex128 -> float)
    (spectrogram : list (list complex128)) (sampleRate : Z)
    (t k : nat) (b1 b2 : FrequencyBand) (v : float) :
  rectangular spectrogram ->
  slices spectrogram ->
  (forall row c, In row spectrogram -> In c row -> numeric (Abs c)) ->
  Forall (fun b => 0 <= Start b) (getFrequencyBands sampleRate WINDOW_SIZE) ->
  let magnitudes := getMagnitudes Abs spectrogram in
  let bands := getFrequencyBands sampleRate WINDOW_SIZE in
  bands !! k = Some b1 ->
  bands !! S k = Some b2 ->
  Start b1 <= End_ b1 <= End_ b2 ->
  End_ b2 < width magnitudes ->
  cell magnitudes (Z.of_nat t) (End_ b1) = Some v ->
  local_max magnitudes (Z.of_nat t) (End_ b1) ->
  (PEAK_THRESHOLD <? v)%float = true ->
  (forall f' v',
     Start b1 <= f' <= End_ b2 -> f' <> End_ b1 ->
     cell magnitudes (Z.of_nat t) f' = Some v' ->
     local_max magnitudes (Z.of_nat t) f' ->
     (v' <? v)%float = true) ->
  Start b2 = End_ b1
  /\ exists before after,
       PickPeaks Abs spectrogram sampleRate
       = Some (before ++ peak_at sampleRate t (End_ b1) v
                         :: peak_at sampleRate t (End_ b1) v :: after).
Proof.
  intros Hrect Hslices Hnumeric Hbands magnitudes bands Hk1 Hk2 Horder Hfit Hcell Hmax
    Hthr Hbest.
  pose proof (consecutive_bands sampleRate WINDOW_SIZE k b1 b2 Hk1 Hk2) as Hshared.
  split; [ congruence | ].
  assert (Hin1 : In b1 bands) by (eapply list_elem_of_In, list_elem_of_lookup_2, Hk1).
  assert (Hin2 : In b2 bands) by (eapply list_elem_of_In, list_elem_of_lookup_2, Hk2).
  assert (Hp1 : band_peaks magnitudes sampleRate t b1 = [peak_at sampleRate t (End_ b1) v]).
  { apply (band_peaks_strongest Abs spectrogram sampleRate t b1 (End_ b1) v);
      try assumption; try lia.
    - fold magnitudes. lia.
    - intros f' v' Hf'. apply Hbest. lia. }
  assert (Hp2 : band_peaks magnitudes sampleRate t b2 = [peak_at sampleRate t (End_ b1) v]).
  { apply (band_peaks_strongest Abs spectrogram sampleRate t b2 (End_ b1) v);
      try assumption; try lia.
    intros f' v' Hf'. apply Hbest. lia. }
  assert (Hstart : 0 <= Start b1).
  { rewrite List.Forall_forall in Hbands. apply Hbands, Hin1. }
  assert (Ht : (t < length spectrogram)%nat).
  { unfold cell, Go.index in Hcell.
    destruct (Z.ltb_spec (Z.of_nat t) 0); [ lia | ]. rewrite Nat2Z.id in Hcell.
    destruct (magnitudes !! t) as [frame|] eqn:Hframe; [ | discriminate ].
    apply lookup_lt_Some in Hframe. unfold magnitudes, getMagnitudes in Hframe.
    rewrite length_map in Hframe. exact Hframe. }
  rewrite (PickPeaks_band_peaks Abs spectrogram sampleRate Hrect Hslices Hnumeric Hbands).
  fold magnitudes bands.
  assert (Hnonempty : (length spectrogram =? 0)%nat
                      || match spectrogram with
                         | [] => true
                         | row :: _ => (length row =? 0)%nat
                         end = false).
  { unfold magnitudes, getMagnitudes in Hfit.
    destruct spectrogram as [|row rows]; [ cbn in Ht; lia | ].
    cbn [map width] in Hfit. rewrite length_map in Hfit.
    cbn [length Nat.eqb orb]. apply Nat.eqb_neq. lia. }
  rewrite Hnonempty.
  set (frame := fun t => flat_map (band_peaks magnitudes sampleRate t) bands).
  assert (Hframe : frame t
                   = flat_map (band_peaks magnitudes sampleRate t) (take k bands)
                     ++ peak_at sampleRate t (End_ b1) v
                        :: peak_at sampleRate t (End_ b1) v
                        :: flat_map (band_peaks magnitudes sampleRate t)
                             (drop (S (S k)) bands)).
  { unfold frame. pose proof (take_drop_middle bands k b1 Hk1) as Hsplit.
    rewrite (drop_S bands b2 (S k) Hk2) in Hsplit. rewrite <- Hsplit at 1.
    rewrite flat_map_app. cbn [flat_map]. rewrite Hp1, Hp2. reflexivity. }
  assert (Hseq : seq 0 (length spectrogram)
                 = seq 0 t ++ t :: seq (S t) (length spectrogram - S t)).
  { replace (length spectrogram) with (t + S (length spectrogram - S t))%nat at 1 by lia.
    rewrite seq_app. reflexivity. }
  rewrite Hseq, flat_map_app. cbn [flat_map]. rewrite Hframe.
  exists (flat_map frame (seq 0 t)
          ++ flat_map (band_peaks magnitudes sampleRate t) (take k bands)),
         (flat_map (band_peaks magnitudes sampleRate t) (drop (S (S k)) bands)
          ++ flat_map frame (seq (S t) (length spectrogram - S t))).
  rewrite <- !app_assoc. cbn [app]. reflexivity.
Qed.

Lemma boundary_tone_local_max : local_max (getMagnitudes fst boundary_tone) 0 7.
Proof.
  exists 1%float. split; [ reflexivity | ].
  intros dt df w Hin. cbn in Hin.
  repeat (destruct Hin as [[= <- <-]|Hin];
          [ vm_compute; intros [= <-]; reflexivity || discriminate | ]).
  destruct Hin.
Qed.

Lemma PickPeaks_shared_bin_twice_witness :
  Start {| Start := 7; End_ := 11 |} = End_ {| Start := 3; End_ := 7 |}
  /\ exists before after,
       PickPeaks fst boundary_tone 44100
       = Some (before ++ peak_at 44100 0 7 1 :: peak_at 44100 0 7 1 :: after).
Proof.
  apply (PickPeaks_shared_bin_twice fst boundary_tone 44100 0 0
           {| Start := 3; End_ := 7 |} {| Start := 7; End_ := 11 |} 1%float).
  - intros row [<-|[]]. reflexivity.
  - split; [ vm_compute; discriminate | ].
    repeat constructor. vm_compute. discriminate.
  - intros row c [<-|[]] Hc. cbn in Hc.
    repeat (destruct Hc as [<-|Hc]; [ reflexivity | ]). destruct Hc.
  - exact bands_44100_start.
  - vm_compute. reflexivity.
  - vm_compute. reflexivity.
  - cbn. lia.
  - cbn. lia.
  - reflexivity.
  - exact boundary_tone_local_max.
  - reflexivity.
  - intros f' v' Hf' Hne. cbn [Start End_] in Hf', Hne.
    assert (Hcases : f' = 3 \/ f' = 4 \/ f' = 5 \/ f' = 6
                     \/ f' = 8 \/ f' = 9 \/ f' = 10 \/ f' = 11) by lia.
    repeat (destruct Hcases as [->|Hcases];
            [ vm_compute; intros [= <-] _; reflexivity | ]).
    subst f'. vm_compute. intros [= <-] _. reflexivity.
Defined.

(** The tone gives two peaks, both at bin 7. *)
Example PickPeaks_boundary_tone :
  PickPeaks fst boundary_tone 44100
  = Some [ peak_at 44100 0 7 1; peak_at 44100 0 7 1 ].
Proof. vm_compute. reflexivity. Qed.

End shared_bin.

